(** * slurm-submit: a shallow embedding of [slurm_fastq_submit.py]

    The script discovers FASTQ files in a directory, groups them by a sample
    name derived from the file name, and writes one job file per sample from
    a text template.  This development embeds the script's functions
    ([get_fastq_paths], [group_fastqs], [main]) together with executable
    models of the library calls they make ([re.sub], [str.format],
    [pathlib.Path], a small file system), and proves properties of them.

    Modelling conventions
    - the library calls are those of Python 3.11 on Linux;
    - a Python [str] is a list of characters ([list ascii]); the model is
      exact on ASCII text.  Outside ASCII Python's [\d] and the digits of a
      field name of [str.format] also cover the decimal digits of other
      scripts, and reading, writing or printing text involves an encoding:
      statements about arbitrary names say so with [ascii_text], and
      reading, writing or printing text that is not ASCII is [Unmodelled];
    - a [Path] is a [PurePosixPath]: a root and a list of components;
    - the file system is an association list from canonical absolute paths
      to nodes, with the rights of the process on each node; it has no
      symbolic links; a name holds at most [NAME_MAX] characters and a path
      given to a system call fewer than [PATH_MAX]; a path with a component
      [..], with the root [//] or with a name that is not ASCII is not
      resolved: the calls on it are [Unmodelled];
    - a computation threads the world (file system, standard output) and
      ends in a value, a raised exception, or [Unmodelled] when the input
      leaves the fragment of a library call that is modelled here. *)

From Stdlib Require Import List Ascii Arith NArith Bool Lia PeanoNat.
From Stdlib Require Import Permutation Sorted.
From Stdlib Require String DecimalString.
Import ListNotations.

Set Implicit Arguments.

(** ** Strings *)

Definition str := list ascii.

Inductive str_literal : Set :=
| lit_nil
| lit_cons (a : ascii) (l : str_literal).

Fixpoint literal_of_bytes (l : list Byte.byte) : str_literal :=
  match l with
  | [] => lit_nil
  | b :: l' => lit_cons (ascii_of_byte b) (literal_of_bytes l')
  end.

Fixpoint bytes_of_literal (l : str_literal) : list Byte.byte :=
  match l with
  | lit_nil => []
  | lit_cons a l' => byte_of_ascii a :: bytes_of_literal l'
  end.

Declare Scope str_scope.
Delimit Scope str_scope with str.
Set Warnings "-via-type-mismatch,-via-type-remapping".
String Notation str literal_of_bytes bytes_of_literal
  (via str_literal mapping [[nil] => lit_nil, [cons] => lit_cons]) : str_scope.
Set Warnings "via-type-mismatch,via-type-remapping".
Open Scope str_scope.
Open Scope list_scope.

Fixpoint str_eqb (s t : str) : bool :=
  match s, t with
  | [], [] => true
  | a :: s', b :: t' => Ascii.eqb a b && str_eqb s' t'
  | _, _ => false
  end.

(** Python compares strings by code point, left to right; on ASCII text
    that is the order of the characters' codes. *)
Fixpoint str_ltb (s t : str) : bool :=
  match s, t with
  | _, [] => false
  | [], _ :: _ => true
  | a :: s', b :: t' =>
      if Ascii.eqb a b then str_ltb s' t'
      else Nat.ltb (nat_of_ascii a) (nat_of_ascii b)
  end.

(** [s.startswith(pre)] and [s.endswith(suf)] *)
Fixpoint startswith (pre s : str) : bool :=
  match pre, s with
  | [], _ => true
  | a :: pre', b :: s' => Ascii.eqb a b && startswith pre' s'
  | _ :: _, [] => false
  end.

Definition endswith (suf s : str) : bool := startswith (rev suf) (rev s).

(** [s.rfind(c)]: the index of the last occurrence of [c]. *)
Fixpoint rfind (c : ascii) (s : str) : option nat :=
  match s with
  | [] => None
  | a :: s' =>
      match rfind c s' with
      | Some i => Some (S i)
      | None => if Ascii.eqb a c then Some 0 else None
      end
  end.

(** [sep.join(l)] *)
Fixpoint join (sep : str) (l : list str) : str :=
  match l with
  | [] => []
  | [x] => x
  | x :: l' => x ++ sep ++ join sep l'
  end.

(** [s.split(sep)] for a one-character separator. *)
Fixpoint split_on (sep : ascii) (s : str) : list str :=
  match s with
  | [] => [[]]
  | a :: s' =>
      match split_on sep s' with
      | [] => [[a]]
      | x :: l => if Ascii.eqb a sep then [] :: x :: l else (a :: x) :: l
      end
  end.

(** [str(n)] for a non-negative integer. *)
Definition str_of_nat (n : nat) : str :=
  String.list_ascii_of_string
    (DecimalString.NilEmpty.string_of_uint (Nat.to_uint n)).

Definition is_digit (a : ascii) : bool :=
  Nat.leb 48 (nat_of_ascii a) && Nat.leb (nat_of_ascii a) 57.

(** ASCII text: every character is below 128. *)
Definition is_ascii (a : ascii) : bool := Nat.ltb (nat_of_ascii a) 128.

Definition ascii_text (s : str) : bool := forallb is_ascii s.

Definition newline : ascii := ascii_of_nat 10.

Definition carriage_return : ascii := ascii_of_nat 13.

(** Text read with universal newlines: [\r\n] and a lone [\r] become
    [\n]. *)
Fixpoint universal_newlines (s : str) : str :=
  match s with
  | [] => []
  | a :: s' =>
      if Ascii.eqb a carriage_return then
        newline ::
        match s' with
        | b :: s'' =>
            if Ascii.eqb b newline then universal_newlines s''
            else universal_newlines s'
        | [] => []
        end
      else a :: universal_newlines s'
  end.

(** ** Regular expressions: the fragment of [re] used by [group_fastqs]

    The matcher is a backtracking matcher in the style of [re]: it returns
    every way of matching a prefix of the subject, in the order in which
    [re] tries them (left alternative first, greedy repetition first).  The
    match [re] reports is the first one. *)

Module Re.

Inductive charclass : Type :=
| CLit (c : ascii)      (* the character itself *)
| CAny                  (* [.]: any character except a newline *)
| CDigit                (* [\d]: on ASCII text, [0-9] *)
| CNot (c : ascii).     (* [[^c]] *)

Definition class_mem (p : charclass) (a : ascii) : bool :=
  match p with
  | CLit c => Ascii.eqb a c
  | CAny => negb (Ascii.eqb a newline)
  | CDigit => is_digit a
  | CNot c => negb (Ascii.eqb a c)
  end.

Inductive regex : Type :=
| Eps
| Chr (p : charclass)
| Cat (r1 r2 : regex)
| Alt (r1 r2 : regex)
| Star (r : regex)              (* greedy [r*] *)
| Group (n : nat) (r : regex)   (* capturing group number [n] *)
| Bol                           (* [^] *)
| Eol.                          (* [$] *)

Definition Plus (r : regex) : regex := Cat r (Star r).   (* [r+] *)
Definition Opt (r : regex) : regex := Alt r Eps.         (* [r?] *)

Fixpoint text (t : str) : regex :=
  match t with
  | [] => Eps
  | a :: t' => Cat (Chr (CLit a)) (text t')
  end.

Fixpoint seq (l : list regex) : regex :=
  match l with
  | [] => Eps
  | r :: l' => Cat r (seq l')
  end.

(** Captured groups, most recent first. *)
Definition captures := list (nat * str).

Fixpoint group (n : nat) (c : captures) : str :=
  match c with
  | [] => []
  | (m, w) :: c' => if Nat.eqb m n then w else group n c'
  end.

(** One more round of a repetition is tried before leaving it; a round
    must consume input, so at most [length s] rounds are possible. *)
Fixpoint star_go (step : str -> captures -> list (str * captures))
    (fuel : nat) (s : str) (c : captures) : list (str * captures) :=
  match fuel with
  | 0 => [(s, c)]
  | S fuel' =>
      flat_map (fun x => if length (fst x) <? length s
                         then star_go step fuel' (fst x) (snd x) else [])
               (step s c)
      ++ [(s, c)]
  end.

(** [run n0 r s c]: the ways [r] matches a prefix of [s], each given as the
    rest of the subject and the captures; [n0] is the length of the whole
    subject, so that [length s = n0] exactly at its start. *)
Fixpoint run (n0 : nat) (r : regex) (s : str) (c : captures)
  : list (str * captures) :=
  match r with
  | Eps => [(s, c)]
  | Chr p =>
      match s with
      | a :: s' => if class_mem p a then [(s', c)] else []
      | [] => []
      end
  | Cat r1 r2 => flat_map (fun x => run n0 r2 (fst x) (snd x)) (run n0 r1 s c)
  | Alt r1 r2 => run n0 r1 s c ++ run n0 r2 s c
  | Star r' => star_go (run n0 r') (length s) s c
  | Group n r' =>
      map (fun x => (fst x, (n, firstn (length s - length (fst x)) s) :: snd x))
          (run n0 r' s c)
  | Bol => if length s =? n0 then [(s, c)] else []
  | Eol =>
      match s with
      | [] => [(s, c)]
      | [a] => if Ascii.eqb a newline then [(s, c)] else []
      | _ => []
      end
  end.

(** The match found at the current position, if any. *)
Definition match_here (n0 : nat) (r : regex) (s : str) : option (str * captures) :=
  hd_error (run n0 r s []).

(** Replacement templates: literal text and group references [\n]. *)
Inductive repl_item : Type :=
| RText (t : str)
| RGroup (n : nat).

Definition expand (tpl : list repl_item) (c : captures) : str :=
  flat_map (fun i => match i with RText t => t | RGroup n => group n c end) tpl.

(** [re.sub]: scan left to right; where the pattern matches, emit the
    replacement and resume after the match; elsewhere copy one character.
    [skip] counts the characters of the current match still to be dropped.
    After an empty match one character is copied; neither pattern of this
    program can match the empty string (see [patterns_consume]). *)
Fixpoint sub_go (r : regex) (tpl : list repl_item) (n0 : nat) (s : str)
    (skip : nat) : str :=
  match skip with
  | S k =>
      match s with
      | [] => []
      | _ :: s' => sub_go r tpl n0 s' k
      end
  | 0 =>
      match match_here n0 r s with
      | Some (s1, c) =>
          expand tpl c ++
          match s with
          | [] => []
          | a :: s' =>
              if length s1 <? length s
              then sub_go r tpl n0 s' (length s - length s1 - 1)
              else a :: sub_go r tpl n0 s' 0
          end
      | None =>
          match s with
          | [] => []
          | a :: s' => a :: sub_go r tpl n0 s' 0
          end
      end
  end.

Definition sub (r : regex) (tpl : list repl_item) (s : str) : str :=
  sub_go r tpl (length s) s 0.

(** The language of an anchor-free pattern.  A round of a repetition is
    non-empty, which does not change the language. *)
Inductive matches : regex -> str -> Prop :=
| MEps : matches Eps []
| MChr p a : class_mem p a = true -> matches (Chr p) [a]
| MCat r1 r2 w1 w2 :
    matches r1 w1 -> matches r2 w2 -> matches (Cat r1 r2) (w1 ++ w2)
| MAltL r1 r2 w : matches r1 w -> matches (Alt r1 r2) w
| MAltR r1 r2 w : matches r2 w -> matches (Alt r1 r2) w
| MStar0 r : matches (Star r) []
| MStarS r w1 w2 :
    w1 <> [] -> matches r w1 -> matches (Star r) w2 ->
    matches (Star r) (w1 ++ w2)
| MGroup n r w : matches r w -> matches (Group n r) w.

(** Whether a pattern may match without consuming a character. *)
Fixpoint nullable (r : regex) : bool :=
  match r with
  | Eps | Star _ | Bol | Eol => true
  | Chr _ => false
  | Cat r1 r2 => nullable r1 && nullable r2
  | Alt r1 r2 => nullable r1 || nullable r2
  | Group _ r' => nullable r'
  end.

Fixpoint anchor_free (r : regex) : bool :=
  match r with
  | Eps | Chr _ => true
  | Cat r1 r2 | Alt r1 r2 => anchor_free r1 && anchor_free r2
  | Star r' | Group _ r' => anchor_free r'
  | Bol | Eol => false
  end.

(** What [sub] with an empty replacement does to a subject, for a language
    [L] of non-empty words: a character is kept only where no word of [L]
    starts, and what is dropped is a word of [L]. *)
Inductive strips (L : str -> Prop) : str -> str -> Prop :=
| strips_end : strips L [] []
| strips_keep a s o :
    (forall w t, a :: s = w ++ t -> ~ L w) ->
    strips L s o -> strips L (a :: s) (a :: o)
| strips_drop w s o :
    L w -> strips L s o -> strips L (w ++ s) o.

End Re.

(** ** The patterns of [group_fastqs] *)

(** [fastq_regex = re.compile(r'^(.+)\.(fastq|fq)(\.gz|\.bz2)?$')] *)
Definition fastq_regex : Re.regex :=
  Eval cbv in
  Re.seq [ Re.Bol;
           Re.Group 1 (Re.Plus (Re.Chr Re.CAny));
           Re.text ".";
           Re.Group 2 (Re.Alt (Re.text "fastq") (Re.text "fq"));
           Re.Opt (Re.Group 3 (Re.Alt (Re.text ".gz") (Re.text ".bz2")));
           Re.Eol ].

(** [illumina_regex = re.compile(r'_S.+_L\d*1_R\d+_001')] *)
Definition illumina_regex : Re.regex :=
  Eval cbv in
  Re.seq [ Re.text "_S";
           Re.Plus (Re.Chr Re.CAny);
           Re.text "_L";
           Re.Star (Re.Chr Re.CDigit);
           Re.text "1_R";
           Re.Plus (Re.Chr Re.CDigit);
           Re.text "_001" ].

(** ** Exceptions and results *)

Inductive exn : Type :=
| ValueError (msg : str)
| KeyError (key : str)
| IndexError (msg : str)
| FileNotFoundError (filename : str)
| NotADirectoryError (filename : str)
| IsADirectoryError (filename : str)
| PermissionError (filename : str)
| OSError (code : nat) (filename : str).

(** The name of the exception's class. *)
Definition exn_class (e : exn) : str :=
  match e with
  | ValueError _ => "ValueError"
  | KeyError _ => "KeyError"
  | IndexError _ => "IndexError"
  | FileNotFoundError _ => "FileNotFoundError"
  | NotADirectoryError _ => "NotADirectoryError"
  | IsADirectoryError _ => "IsADirectoryError"
  | PermissionError _ => "PermissionError"
  | OSError _ _ => "OSError"
  end.

(** The text the exception carries (its message, key or file name). *)
Definition exn_text (e : exn) : str :=
  match e with
  | ValueError m | IndexError m => m
  | KeyError k => k
  | FileNotFoundError f | NotADirectoryError f
  | IsADirectoryError f | PermissionError f | OSError _ f => f
  end.

Inductive result (A : Type) : Type :=
| Ok (a : A)
| Raise (e : exn)
| Unmodelled (why : str).

Arguments Ok {A} a.
Arguments Raise {A} e.
Arguments Unmodelled {A} why.

(** ** Paths ([pathlib.PurePosixPath]) *)

Record Path : Type := mkPath {
  root : str;          (* empty, [/] or [//] *)
  parts : list str     (* the components after the root *)
}.

Definition is_nonempty (s : str) : bool :=
  match s with [] => false | _ :: _ => true end.

(** [Path(s)]: split on [/], drop empty and [.] components; exactly two
    leading slashes are kept as the root [//]. *)
Definition parse_root (s : str) : str :=
  match s with
  | "/"%char :: "/"%char :: "/"%char :: _ => "/"
  | "/"%char :: "/"%char :: _ => "//"
  | "/"%char :: _ => "/"
  | _ => ""
  end.

Definition parse_parts (s : str) : list str :=
  filter (fun x => is_nonempty x && negb (str_eqb x ".")) (split_on "/"%char s).

Definition parse_path (s : str) : Path :=
  mkPath (parse_root s) (parse_parts s).

(** [p / q] for paths; a rooted right operand replaces the left one. *)
Definition joinpath (p q : Path) : Path :=
  if is_nonempty (root q) then q
  else mkPath (root p) (parts p ++ parts q).

(** [p / s] for a string [s]. *)
Definition joinstr (p : Path) (s : str) : Path := joinpath p (parse_path s).

(** The path of the directory entry [name] of [p]. *)
Definition child (p : Path) (name : str) : Path :=
  mkPath (root p) (parts p ++ [name]).

(** [str(p)] *)
Definition path_str (p : Path) : str :=
  match root p, parts p with
  | [], [] => "."
  | r, l => r ++ join "/" l
  end.

(** [p.name] *)
Definition name (p : Path) : str := last (parts p) "".

(** [p.stem]: the name without its last suffix. *)
Definition stem_of (n : str) : str :=
  match rfind "."%char n with
  | Some i => if (0 <? i) && (i <? length n - 1) then firstn i n else n
  | None => n
  end.

Definition stem (p : Path) : str := stem_of (name p).

Definition is_absolute (p : Path) : bool := is_nonempty (root p).

(** [p.absolute()] in a process whose working directory is [cwd]. *)
Definition absolute (cwd p : Path) : Path :=
  if is_absolute p then p else mkPath (root cwd) (parts cwd ++ parts p).

Fixpoint strs_eqb (l m : list str) : bool :=
  match l, m with
  | [], [] => true
  | x :: l', y :: m' => str_eqb x y && strs_eqb l' m'
  | _, _ => false
  end.

Definition path_eqb (p q : Path) : bool :=
  str_eqb (root p) (root q) && strs_eqb (parts p) (parts q).

(** Paths are ordered as the lists of their components, root first. *)
Fixpoint strs_ltb (l m : list str) : bool :=
  match l, m with
  | _, [] => false
  | [], _ :: _ => true
  | x :: l', y :: m' => if str_eqb x y then strs_ltb l' m' else str_ltb x y
  end.

Definition cparts (p : Path) : list str :=
  if is_nonempty (root p) then root p :: parts p else parts p.

Definition path_ltb (p q : Path) : bool := strs_ltb (cparts p) (cparts q).

(** [sorted(paths)]: a stable sort that only uses [<]. *)
Fixpoint insert_sorted (x : Path) (l : list Path) : list Path :=
  match l with
  | [] => [x]
  | y :: l' => if path_ltb y x then y :: insert_sorted x l' else x :: y :: l'
  end.

Definition sorted (l : list Path) : list Path := fold_right insert_sorted [] l.

(** ** Values and [str.format] *)

Inductive value : Type :=
| VStr (s : str)
| VInt (n : nat)
| VPath (p : Path)
| VNone.

(** [str(v)], which is also [format(v, '')]. *)
Definition py_str (v : value) : str :=
  match v with
  | VStr s => s
  | VInt n => str_of_nat n
  | VPath p => path_str p
  | VNone => "None"
  end.

(** An optional command-line value: argparse leaves [None] when the option
    is not given. *)
Definition opt_value (o : option Path) : value :=
  match o with
  | Some p => VPath p
  | None => VNone
  end.

Fixpoint lookup_kw (k : str) (kw : list (str * value)) : option value :=
  match kw with
  | [] => None
  | (k', v) :: kw' => if str_eqb k' k then Some v else lookup_kw k kw'
  end.

(** Where the scan of a format string stands. *)
Inductive fmode : Type :=
| Text                 (* in literal text *)
| Opened               (* just after a [{] *)
| Closed               (* just after a [}] in literal text *)
| Field (acc : str).   (* inside a replacement field, its name so far *)

(** Automatic or manual numbering of positional fields. *)
Inductive autonum : Type :=
| AnInit
| AnAuto (next : nat)
| AnManual.

(** [PY_SSIZE_T_MAX] of a 64-bit build. *)
Definition PY_SSIZE_T_MAX : N := 9223372036854775807%N.

(** [get_integer] of CPython's [unicode_format.h]: the index a field name
    spells, read digit by digit from the left; [None] as soon as a
    character is not a digit, an error as soon as the next digit would
    overflow.  A character outside ASCII may be a digit of another script. *)
Fixpoint get_integer (acc : N) (s : str) : result (option N) :=
  match s with
  | [] => Ok (Some acc)
  | a :: s' =>
      if is_digit a then
        let d := (N_of_ascii a - 48)%N in
        if ((PY_SSIZE_T_MAX - d) / 10 <? acc)%N
        then Raise (ValueError "Too many decimal digits in format string")
        else get_integer (10 * acc + d)%N s'
      else if is_ascii a then Ok None
      else Unmodelled "a field name with a character that is not ASCII"
  end.

Definition str_of_N (n : N) : str :=
  String.list_ascii_of_string
    (DecimalString.NilEmpty.string_of_uint (N.to_uint n)).

Definition index_error (i : N) : exn :=
  IndexError ("Replacement index " ++ str_of_N i
              ++ " out of range for positional args tuple").

Definition positional (args : list value) (i : N) : option value :=
  if (i <? N.of_nat (length args))%N then nth_error args (N.to_nat i) else None.

(** The object a field name stands for.  An empty name takes the next
    positional argument, a number the argument at that index, anything else
    is a keyword.  The name is read by [get_integer] first, so an overflow
    is reported before the kind of the name is known. *)
Definition field_value (args : list value) (kw : list (str * value))
    (an : autonum) (fname : str) : result (value * autonum) :=
  match fname with
  | [] =>
      match an with
      | AnManual =>
          Raise (ValueError "cannot switch from manual field specification to automatic field numbering")
      | AnInit | AnAuto _ =>
          let i := match an with AnAuto n => n | _ => 0 end in
          match nth_error args i with
          | Some v => Ok (v, AnAuto (S i))
          | None => Raise (index_error (N.of_nat i))
          end
      end
  | _ :: _ =>
      match get_integer 0 fname with
      | Ok (Some i) =>
          match an with
          | AnAuto _ =>
              Raise (ValueError "cannot switch from automatic field numbering to manual field specification")
          | AnInit | AnManual =>
              match positional args i with
              | Some v => Ok (v, AnManual)
              | None => Raise (index_error i)
              end
          end
      | Ok None =>
          match lookup_kw fname kw with
          | Some v => Ok (v, an)
          | None => Raise (KeyError fname)
          end
      | Raise e => Raise e
      | Unmodelled why => Unmodelled why
      end
  end.

(** Characters that start a conversion, a format specification, an
    attribute or an index inside a replacement field: such fields are
    outside the modelled fragment, and so is a nested brace. *)
Definition field_special (a : ascii) : bool :=
  existsb (Ascii.eqb a) ["!"; ":"; "."; "["; "{"]%char.

(** [fmt.format] with positional arguments [args] and keyword arguments
    [kw], scanned left to right; the first error met
    is the one raised. *)
Fixpoint format_go (args : list value) (kw : list (str * value))
    (s : str) (m : fmode) (an : autonum) (out : str) : result (str * autonum) :=
  match s with
  | [] =>
      match m with
      | Text => Ok (out, an)
      | Opened => Raise (ValueError "Single '{' encountered in format string")
      | Closed => Raise (ValueError "Single '}' encountered in format string")
      | Field _ => Raise (ValueError "expected '}' before end of string")
      end
  | a :: s' =>
      match m with
      | Text =>
          if Ascii.eqb a "{" then format_go args kw s' Opened an out
          else if Ascii.eqb a "}" then format_go args kw s' Closed an out
          else format_go args kw s' Text an (out ++ [a])
      | Closed =>
          if Ascii.eqb a "}" then format_go args kw s' Text an (out ++ [a])
          else Raise (ValueError "Single '}' encountered in format string")
      | Opened =>
          if Ascii.eqb a "{" then format_go args kw s' Text an (out ++ [a])
          else if Ascii.eqb a "}" then
            match field_value args kw an [] with
            | Ok (v, an') => format_go args kw s' Text an' (out ++ py_str v)
            | Raise e => Raise e
            | Unmodelled w => Unmodelled w
            end
          else if field_special a then Unmodelled "replacement field with a conversion, format specification, attribute or index"
          else format_go args kw s' (Field [a]) an out
      | Field acc =>
          if Ascii.eqb a "}" then
            match field_value args kw an acc with
            | Ok (v, an') => format_go args kw s' Text an' (out ++ py_str v)
            | Raise e => Raise e
            | Unmodelled w => Unmodelled w
            end
          else if field_special a then Unmodelled "replacement field with a conversion, format specification, attribute or index"
          else format_go args kw s' (Field (acc ++ [a])) an out
      end
  end.

Definition format (fmt : str) (args : list value) (kw : list (str * value))
  : result str :=
  match format_go args kw fmt Text AnInit [] with
  | Ok (out, _) => Ok out
  | Raise e => Raise e
  | Unmodelled w => Unmodelled w
  end.

(** ** The file system and the world *)

(** What the process may do with a node: read it, write it and, for a
    directory, search it, that is look a name up in it. *)
Record perms : Type := mkPerms {
  can_read : bool;
  can_write : bool;
  can_search : bool
}.

Definition rw : perms := mkPerms true true true.

Inductive node : Type :=
| File (m : perms) (data : str)
| Dir (m : perms).

(** Nodes by absolute path; the first binding of a path is the live one. *)
Definition filesystem := list (Path * node).

Fixpoint lookup (fs : filesystem) (p : Path) : option node :=
  match fs with
  | [] => None
  | (q, nd) :: fs' => if path_eqb q p then Some nd else lookup fs' p
  end.

Fixpoint store (fs : filesystem) (p : Path) (nd : node) : filesystem :=
  match fs with
  | [] => [(p, nd)]
  | (q, old) :: fs' =>
      if path_eqb q p then (q, nd) :: fs' else (q, old) :: store fs' p nd
  end.

Inductive errno : Type := ENOENT | ENOTDIR | EACCES | ENAMETOOLONG.

(** The limits of Linux on the length of a name and of a path. *)
Definition NAME_MAX : nat := 255.
Definition PATH_MAX : nat := 4096.

(** A character that may stand in the name of an entry, in the model: an
    ASCII character other than [/] and the null character. *)
Definition name_char (a : ascii) : bool :=
  is_ascii a && negb (Ascii.eqb a "/") && negb (Ascii.eqb a zero).

(** The name of an entry of a directory. *)
Definition entry_name (x : str) : bool :=
  is_nonempty x && negb (str_eqb x ".") && negb (str_eqb x "..")
  && forallb name_char x.

(** A canonical path: rooted at [/], every component the name of an
    entry.  Nodes live at canonical paths only. *)
Definition canonical (p : Path) : bool :=
  str_eqb (root p) "/" && forallb entry_name (parts p).

(** Walk down from the node at [seen]: a component is looked up in a
    directory that may be searched, and is no longer than [NAME_MAX]. *)
Fixpoint walk (fs : filesystem) (rt : str) (seen rest : list str)
  : errno + node :=
  match lookup fs (mkPath rt seen) with
  | None => inl ENOENT
  | Some nd =>
      match rest with
      | [] => inr nd
      | x :: rest' =>
          match nd with
          | Dir m =>
              if negb (can_search m) then inl EACCES
              else if NAME_MAX <? length x then inl ENAMETOOLONG
              else walk fs rt (seen ++ [x]) rest'
          | File _ _ => inl ENOTDIR
          end
      end
  end.

(** The node at a canonical absolute path, reached from the root; a path
    that is not canonical names no node. *)
Definition stat (fs : filesystem) (p : Path) : errno + node :=
  if negb (canonical p) then inl ENOENT
  else if PATH_MAX <=? length (path_str p) then inl ENAMETOOLONG
  else walk fs (root p) [] (parts p).

(** The walk a system call makes for the path [p]: from the root when [p]
    is absolute, from the working directory otherwise. *)
Definition walk_at (fs : filesystem) (cwd p : Path) : errno + node :=
  if is_absolute p then walk fs (root p) [] (parts p)
  else walk fs (root cwd) (parts cwd) (parts p).

(** What a system call finds at the path [p], given as the program wrote
    it, in a process whose working directory is [cwd].  The path is
    canonical once made absolute: the calls of the program do not get this
    far on other paths (see [on_node]). *)
Definition stat_at (fs : filesystem) (cwd p : Path) : errno + node :=
  if negb (canonical (absolute cwd p)) then inl ENOENT
  else if PATH_MAX <=? length (path_str p) then inl ENAMETOOLONG
  else walk_at fs cwd p.

Definition os_error (e : errno) (filename : str) : exn :=
  match e with
  | ENOENT => FileNotFoundError filename
  | ENOTDIR => NotADirectoryError filename
  | EACCES => PermissionError filename
  | ENAMETOOLONG => OSError 36 filename
  end.

(** The errors [Path.is_dir] and [Path.exists] answer with [False]. *)
Definition ignored (e : errno) : bool :=
  match e with
  | ENOENT | ENOTDIR => true
  | EACCES | ENAMETOOLONG => false
  end.

(** The names of the entries of directory [d], in directory order. *)
Definition scandir (fs : filesystem) (d : Path) : list str :=
  flat_map (fun kv =>
              let p := fst kv in
              if str_eqb (root p) (root d) && is_nonempty (last (parts p) "")
                 && strs_eqb (removelast (parts p)) (parts d)
              then [last (parts p) ""] else [])
           fs.

(** [fnmatch] for patterns made of [*], [?] and literal characters. *)
Fixpoint fnmatch (pat name : str) : bool :=
  match pat with
  | [] => negb (is_nonempty name)
  | c :: pat' =>
      if Ascii.eqb c "*" then
        (fix star (n : str) : bool :=
           fnmatch pat' n || match n with [] => false | _ :: n' => star n' end)
          name
      else
        match name with
        | [] => false
        | a :: name' =>
            (Ascii.eqb c "?" || Ascii.eqb c a) && fnmatch pat' name'
        end
  end.

Record world : Type := mkWorld {
  w_fs : filesystem;      (* the file system *)
  w_cwd : Path;           (* the working directory, an absolute path *)
  w_out : list str        (* the lines printed so far *)
}.

(** Computations: world in, result and world out. *)
Definition M (A : Type) : Type := world -> result A * world.

Definition ret {A} (a : A) : M A := fun w => (Ok a, w).

Definition bind {A B} (c : M A) (k : A -> M B) : M B :=
  fun w =>
    match c w with
    | (Ok a, w') => k a w'
    | (Raise e, w') => (Raise e, w')
    | (Unmodelled why, w') => (Unmodelled why, w')
    end.

Definition lift {A} (r : result A) : M A := fun w => (r, w).

Definition raise {A} (e : exn) : M A := lift (Raise e).

Declare Scope prog_scope.
Delimit Scope prog_scope with prog.
Notation "x <- c ;; k" := (bind c (fun x => k))
  (at level 61, c at next level, right associativity) : prog_scope.
Notation "c ;; k" := (bind c (fun _ => k))
  (at level 61, right associativity) : prog_scope.
Open Scope prog_scope.

Fixpoint mapM {A B} (f : A -> M B) (l : list A) : M (list B) :=
  match l with
  | [] => ret []
  | a :: l' => b <- f a ;; bs <- mapM f l' ;; ret (b :: bs)
  end.

(** A [for] loop whose body is run for its effects. *)
Fixpoint for_each {A} (l : list A) (body : A -> M unit) : M unit :=
  match l with
  | [] => ret tt
  | a :: l' => body a ;; for_each l' body
  end.

(** A [for] loop that updates an accumulator. *)
Fixpoint foldM {A S} (body : S -> A -> M S) (l : list A) (acc : S) : M S :=
  match l with
  | [] => ret acc
  | a :: l' => acc' <- body acc a ;; foldM body l' acc'
  end.

(** [print(line)]: the line is encoded for the standard output. *)
Definition print (line : str) : M unit :=
  fun w =>
    if ascii_text line
    then (Ok tt, mkWorld (w_fs w) (w_cwd w) (w_out w ++ [line]))
    else (Unmodelled "a line that is not ASCII", w).

(** [p.absolute()] *)
Definition absoluteM (p : Path) : M Path := fun w => (Ok (absolute (w_cwd w) p), w).

(** A system call on the path [p]: what it finds there decides the rest.
    A path that is not canonical once made absolute is not resolved. *)
Definition on_node {A} (p : Path)
    (k : errno + node -> world -> result A * world) : M A :=
  fun w =>
    if canonical (absolute (w_cwd w) p)
    then k (stat_at (w_fs w) (w_cwd w) p) w
    else (Unmodelled "a path that is not canonical", w).

(** The text of a file, decoded and with universal newlines. *)
Definition decode (data : str) : result str :=
  if ascii_text data then Ok (universal_newlines data)
  else Unmodelled "a file that is not ASCII text".

(** [p.read_text()]: the directory is opened before it is found to be
    one, so a directory that may not be read is a [PermissionError]. *)
Definition read_text (p : Path) : M str :=
  on_node p (fun r w =>
    match r with
    | inr (File m data) =>
        if can_read m then (decode data, w)
        else (Raise (PermissionError (path_str p)), w)
    | inr (Dir m) =>
        if can_read m then (Raise (IsADirectoryError (path_str p)), w)
        else (Raise (PermissionError (path_str p)), w)
    | inl e => (Raise (os_error e (path_str p)), w)
    end).

Definition parent (p : Path) : Path := mkPath (root p) (removelast (parts p)).

(** [p.write_text(data)]: open the file, creating it or emptying it, then
    write the encoded text. *)
Definition write_text (p : Path) (data : str) : M unit :=
  on_node p (fun r w =>
    let a := absolute (w_cwd w) p in
    let put m :=
      if ascii_text data
      then (Ok tt, mkWorld (store (w_fs w) a (File m data)) (w_cwd w) (w_out w))
      else (Unmodelled "text that is not ASCII", w) in
    match r with
    | inr (File m _) =>
        if can_write m then put m
        else (Raise (PermissionError (path_str p)), w)
    | inr (Dir _) => (Raise (IsADirectoryError (path_str p)), w)
    | inl ENOENT =>
        match stat_at (w_fs w) (w_cwd w) (parent p) with
        | inr (Dir m) =>
            if can_write m then put rw
            else (Raise (PermissionError (path_str p)), w)
        | inr (File _ _) => (Raise (NotADirectoryError (path_str p)), w)
        | inl e => (Raise (os_error e (path_str p)), w)
        end
    | inl e => (Raise (os_error e (path_str p)), w)
    end).

(** What [directory.glob(pattern)] yields for a one-component pattern when
    it raises nothing: nothing unless [directory] is a directory that may
    be read; otherwise its entries whose names match, as children of
    [directory].  An entry matches by its name alone, whatever kind of
    node it is. *)
Definition glob_list (fs : filesystem) (cwd directory : Path) (pattern : str)
  : list Path :=
  match stat_at fs cwd directory with
  | inr (Dir m) =>
      if can_read m
      then map (child directory)
               (filter (fnmatch pattern) (scandir fs (absolute cwd directory)))
      else []
  | _ => []
  end.

(** [directory.glob(pattern)], consumed: [Path.is_dir] comes first and
    passes on every error it does not ignore; the [PermissionError] of the
    listing itself is swallowed. *)
Definition glob (directory : Path) (pattern : str) : M (list Path) :=
  on_node directory (fun r w =>
    match r with
    | inl e =>
        if ignored e then (Ok [], w)
        else (Raise (os_error e (path_str directory)), w)
    | inr _ => (Ok (glob_list (w_fs w) (w_cwd w) directory pattern), w)
    end).

(** ** The script *)

(** The parsed command line. *)
Record Namespace : Type := mkNamespace {
  template : Path;
  fastqs : Path;
  jobs : Path;
  output : option Path;
  reference : option Path
}.

(** The two mates of a sample. *)
Record mates : Type := mkMates { fwd : Path; rev : Path }.

(** [itertools.product] *)
Definition product {A B} (l : list A) (m : list B) : list (A * B) :=
  flat_map (fun a => map (fun b => (a, b)) m) l.

(** [d[k].append(v)] on a [defaultdict(list)], which keeps insertion order. *)
Fixpoint dict_append (k : str) (v : Path) (d : list (str * list Path))
  : list (str * list Path) :=
  match d with
  | [] => [(k, [v])]
  | (k', vs) :: d' =>
      if str_eqb k' k then (k', vs ++ [v]) :: d'
      else (k', vs) :: dict_append k v d'
  end.

(** [d[k] = v] *)
Fixpoint dict_set {V} (k : str) (v : V) (d : list (str * V)) : list (str * V) :=
  match d with
  | [] => [(k, v)]
  | (k', v') :: d' =>
      if str_eqb k' k then (k', v) :: d' else (k', v') :: dict_set k v d'
  end.

(** The sample name of a file: its stem without the read-type extension
    and without the lane/read marker. *)
Definition genome_name (fastq : Path) : str :=
  Re.sub illumina_regex [] (Re.sub fastq_regex [Re.RGroup 1] (stem fastq)).

(** The first loop of [group_fastqs]. *)
Definition genome_fastqs (fastqs : list Path) : list (str * list Path) :=
  fold_left (fun d fastq => dict_append (genome_name fastq) fastq d) fastqs [].

(** [fwd, rev, *_ = sorted(paths)] *)
Definition unpack_mates (paths : list Path) : result mates :=
  match sorted paths with
  | f :: r :: _ => Ok (mkMates f r)
  | l => Raise (ValueError ("not enough values to unpack (expected at least 2, got "
                            ++ str_of_nat (length l) ++ ")"))
  end.

Definition group_fastqs (fastqs : list Path) : M (list (str * mates)) :=
  fwd_rev <- foldM (fun fwd_rev item =>
                      m <- lift (unpack_mates (snd item)) ;;
                      ret (dict_set (fst item) m fwd_rev))
                   (genome_fastqs fastqs) [] ;;
  line <- lift (format "Grouped {} FASTQs into {} samples"
                       [VInt (length fastqs); VInt (length fwd_rev)] []) ;;
  print line ;;
  ret fwd_rev.

Definition get_fastq_paths (directory : Path) : M (list Path) :=
  extensions <- mapM (fun ab => lift (format "*{}{}" [VStr (fst ab); VStr (snd ab)] []))
                     (product [".fq"; ".fastq"] [""; ".gz"; ".bz2"]) ;;
  globs <- mapM (glob directory) extensions ;;
  fastq_paths <- mapM absoluteM (concat globs) ;;
  line <- lift (format "Found {} fastqs in {}"
                       [VInt (length fastq_paths); VPath directory] []) ;;
  print line ;;
  ret fastq_paths.

(** The keyword arguments of [job_tmpl.format]. *)
Definition job_kwargs (args : Namespace) (sample_name : str) (paths : mates)
  : list (str * value) :=
  [ ("genome", VStr sample_name);
    ("output", opt_value (output args));
    ("reference", opt_value (reference args));
    ("fwd", VPath (fwd paths));
    ("rev", VPath (rev paths)) ].

(** The body of the loop of [main] that writes the job files. *)
Definition write_job (args : Namespace) (job_tmpl : str) (item : str * mates)
  : M unit :=
  let sample_name := fst item in
  let paths := snd item in
  job_filename <- lift (format "slurm-{}.job" [VStr sample_name] []) ;;
  let job_filepath := joinstr (jobs args) job_filename in
  job <- lift (format job_tmpl [] (job_kwargs args sample_name paths)) ;;
  write_text job_filepath job ;;
  line <- lift (format "Wrote {} for sample {} with inputs {} {}"
                       [VPath job_filepath; VStr sample_name;
                        VPath (fwd paths); VPath (rev paths)] []) ;;
  print line.

Definition main (args : Namespace) : M unit :=
  job_tmpl <- read_text (template args) ;;
  all_fastq_paths <- get_fastq_paths (fastqs args) ;;
  fastq_paths_names <- group_fastqs all_fastq_paths ;;
  for_each fastq_paths_names (write_job args job_tmpl).

(** The exit status of the process: 0 when [main] returns, 1 when an
    exception escapes. *)
Definition exit_status {A} (r : result A) : option nat :=
  match r with
  | Ok _ => Some 0
  | Raise _ => Some 1
  | Unmodelled _ => None
  end.

(** ** Example worlds *)

(** A working directory [/work] with a template, an empty [jobs]
    directory and a [data] directory holding the files [names]. *)
Definition example_fs (tmpl : str) (names : list str) : filesystem :=
  [ (parse_path "/", Dir rw);
    (parse_path "/work", Dir rw);
    (parse_path "/work/tmpl.txt", File rw tmpl);
    (parse_path "/work/jobs", Dir rw);
    (parse_path "/work/data", Dir rw) ]
  ++ map (fun n => (child (parse_path "/work/data") n, File rw [])) names.

Definition example_world (tmpl : str) (names : list str) : world :=
  mkWorld (example_fs tmpl names) (parse_path "/work") [].

Definition example_args (dir : str) : Namespace :=
  mkNamespace (parse_path "tmpl.txt") (parse_path dir) (parse_path "jobs")
              None None.

(** The same, with the [data] directory inside a directory [locked] that
    the process may not search. *)
Definition locked_fs (tmpl : str) (names : list str) : filesystem :=
  [ (parse_path "/", Dir rw);
    (parse_path "/work", Dir rw);
    (parse_path "/work/tmpl.txt", File rw tmpl);
    (parse_path "/work/jobs", Dir rw);
    (parse_path "/work/locked", Dir (mkPerms true true false));
    (parse_path "/work/locked/data", Dir rw) ]
  ++ map (fun n => (child (parse_path "/work/locked/data") n, File rw [])) names.

Definition locked_world (tmpl : str) (names : list str) : world :=
  mkWorld (locked_fs tmpl names) (parse_path "/work") [].

Definition example_pair : list str :=
  ["sample_S1_L001_R2_001.fastq.gz"; "sample_S1_L001_R1_001.fastq.gz"].

(** ** Discovery *)

(** The recognised extensions, as the specification lists them. *)
Definition fastq_suffixes : list str :=
  [".fq"; ".fastq"; ".fq.gz"; ".fastq.gz"; ".fq.bz2"; ".fastq.bz2"].

Definition has_fastq_suffix (n : str) : bool :=
  existsb (fun suf => endswith suf n) fastq_suffixes.

(** The value of [extensions] in [get_fastq_paths]. *)
Definition glob_patterns : list str :=
  ["*.fq"; "*.fq.gz"; "*.fq.bz2"; "*.fastq"; "*.fastq.gz"; "*.fastq.bz2"].

(** The value of [fastq_paths] in [get_fastq_paths] when no [glob]
    raises. *)
Definition discover (fs : filesystem) (cwd directory : Path) : list Path :=
  map (absolute cwd) (concat (map (glob_list fs cwd directory) glob_patterns)).

(** A pattern character that stands for itself. *)
Definition literal_char (c : ascii) : bool :=
  negb (Ascii.eqb c "*") && negb (Ascii.eqb c "?").

(** The message of the failed unpacking of a one-element list. *)
Definition unpack_error : exn :=
  ValueError "not enough values to unpack (expected at least 2, got 1)".

(** [needle in hay] *)
Fixpoint contains (needle hay : str) : bool :=
  startswith needle hay
  || match hay with
     | [] => false
     | _ :: hay' => contains needle hay'
     end.

(** ** Orders *)

(** The lexicographic order on lists, the shape of both [str_ltb] (on
    characters) and [strs_ltb] (on components). *)
Fixpoint lex_ltb {A} (eqb ltb : A -> A -> bool) (l m : list A) : bool :=
  match l, m with
  | _, [] => false
  | [], _ :: _ => true
  | x :: l', y :: m' => if eqb x y then lex_ltb eqb ltb l' m' else ltb x y
  end.

Definition ascii_ltb (a b : ascii) : bool :=
  Nat.ltb (nat_of_ascii a) (nat_of_ascii b).

(** [p <= q] for paths, as [sorted] sees it: not [q < p]. *)
Definition path_leb (p q : Path) : bool := negb (path_ltb q p).

(** ** Groups *)

(** [d.get(k, [])] on the dictionary of groups. *)
Fixpoint dict_get (k : str) (d : list (str * list Path)) : list Path :=
  match d with
  | [] => []
  | (k', vs) :: d' => if str_eqb k' k then vs else dict_get k d'
  end.

(** The distinct elements of a list, in the order of their first
    occurrence, behind those already [seen]. *)
Fixpoint first_seen (seen l : list str) : list str :=
  match l with
  | [] => seen
  | k :: l' =>
      if existsb (str_eqb k) seen then first_seen seen l'
      else first_seen (seen ++ [k]) l'
  end.

(** The line [group_fastqs] prints. *)
Definition grouped_line (files samples : nat) : str :=
  "Grouped " ++ str_of_nat files ++ " FASTQs into " ++ str_of_nat samples
  ++ " samples".

(** A group and the pair made of it: same name, mates unpacked from it. *)
Definition paired (g : str * list Path) (p : str * mates) : Prop :=
  fst p = fst g /\ unpack_mates (snd g) = Ok (snd p).

(** The name of the job file of a sample. *)
Definition job_name (sample_name : str) : str := "slurm-" ++ sample_name ++ ".job".

(** The line [main] prints after writing a job. *)
Definition wrote_line (args : Namespace) (sample_name : str) (paths : mates) : str :=
  "Wrote " ++ path_str (child (jobs args) (job_name sample_name))
  ++ " for sample " ++ sample_name
  ++ " with inputs " ++ path_str (fwd paths) ++ " " ++ path_str (rev paths).

(** The line [get_fastq_paths] prints. *)
Definition found_line (n : nat) (directory : Path) : str :=
  "Found " ++ str_of_nat n ++ " fastqs in " ++ path_str directory.

(** Every captured group lies within [whole]. *)
Definition caps_within (whole : str) (c : Re.captures) : Prop :=
  forall n w, In (n, w) c -> incl w whole.

(** What follows the first group in [fastq_regex]:
    [\.(fastq|fq)(\.gz|\.bz2)?$]. *)
Definition fastq_tail : Re.regex :=
  Eval cbv in
  Re.seq [ Re.text ".";
           Re.Group 2 (Re.Alt (Re.text "fastq") (Re.text "fq"));
           Re.Opt (Re.Group 3 (Re.Alt (Re.text ".gz") (Re.text ".bz2")));
           Re.Eol ].

(** What follows [_S.+] in [illumina_regex]: [_L\d*1_R\d+_001]. *)
Definition illumina_tail : Re.regex :=
  Eval cbv in
  Re.seq [ Re.text "_L";
           Re.Star (Re.Chr Re.CDigit);
           Re.text "1_R";
           Re.Plus (Re.Chr Re.CDigit);
           Re.text "_001" ].

(** ** The lane/read marker *)

(** The words [illumina_regex] stands for: [_S], one or more characters
    other than a newline, [_L], digits, [1_R], one or more digits, [_001]. *)
Definition marker (w : str) : Prop :=
  exists x l d,
    w = "_S" ++ x ++ "_L" ++ l ++ "1_R" ++ d ++ "_001"
    /\ x <> [] /\ Forall (fun a => a <> newline) x
    /\ Forall (fun a => is_digit a = true) l
    /\ d <> [] /\ Forall (fun a => is_digit a = true) d.

(** The marker in the words of the specification, where the characters
    between [_S] and [_L] are not underscores: the pattern
    [_S[^_]+_L\d*1_R\d+_001]. *)
Definition spec_illumina_regex : Re.regex :=
  Eval cbv in
  Re.seq [ Re.text "_S";
           Re.Plus (Re.Chr (Re.CNot "_"));
           Re.text "_L";
           Re.Star (Re.Chr Re.CDigit);
           Re.text "1_R";
           Re.Plus (Re.Chr Re.CDigit);
           Re.text "_001" ].


(** ** Templates *)

(** The placeholder names [main] passes to [job_tmpl.format]. *)
Definition recognized : list str := ["genome"; "output"; "reference"; "fwd"; "rev"].

(** A character that may stand in a plain field name. *)
Definition plain_char (a : ascii) : bool :=
  negb (Ascii.eqb a "}") && negb (field_special a).

(** A field name that [str.format] looks up among the keyword arguments:
    [get_integer] reads no index from it. *)
Definition keyword_name (nm : str) : bool :=
  is_nonempty nm && forallb plain_char nm
  && match get_integer 0 nm with
     | Ok None => true
     | _ => false
     end.

(** The text of a result, behind a prefix. *)
Definition prefixed {S} (o : str) (r : result (str * S)) : result (str * S) :=
  match r with
  | Ok (x, st) => Ok (o ++ x, st)
  | Raise e => Raise e
  | Unmodelled y => Unmodelled y
  end.

Definition prefixed_str (o : str) (r : result str) : result str :=
  match r with
  | Ok x => Ok (o ++ x)
  | Raise e => Raise e
  | Unmodelled y => Unmodelled y
  end.

(** The value of [job_filepath] in [main] for a sample. *)
Definition job_filepath (args : Namespace) (sample_name : str) : Path :=
  joinstr (jobs args) ("slurm-" ++ sample_name ++ ".job").

(** A node that [write_text] may replace: nothing, or a writable file. *)
Definition replaceable (o : option node) : bool :=
  match o with
  | None => true
  | Some (File m _) => can_write m
  | Some (Dir _) => false
  end.

(** [glob] on [directory] raises nothing: the path is canonical, and what
    [Path.is_dir] meets there is a node or an error it ignores. *)
Definition listing_ok (fs : filesystem) (cwd directory : Path) : bool :=
  canonical (absolute cwd directory)
  && match stat_at fs cwd directory with
     | inl e => ignored e
     | inr _ => true
     end.

(** The job directory is a directory in which the process may look names
    up and create entries. *)
Definition job_directory (args : Namespace) (w : world) : bool :=
  match stat_at (w_fs w) (w_cwd w) (jobs args) with
  | inr (Dir m) => can_search m && can_write m
  | _ => false
  end.

(** The job file of sample [X] has its place in the job directory: its
    name is the name of an entry, name and path are within the limits, and
    nothing stands at its path but a file that may be written. *)
Definition job_slot (args : Namespace) (w : world) (X : str) : bool :=
  forallb name_char X
  && (length (job_name X) <=? NAME_MAX)
  && (length (path_str (child (jobs args) (job_name X))) <? PATH_MAX)
  && replaceable (lookup (w_fs w)
                    (child (absolute (w_cwd w) (jobs args)) (job_name X))).

(** * Properties *)

(** ** The matcher against the language of a pattern *)

Section MatcherFacts.

Import Re.

Lemma flat_map_nil {A B} (l : list A) : flat_map (fun _ : A => @nil B) l = [].
Proof. induction l; simpl; auto. Qed.

(** Fuel beyond the length of the subject changes nothing. *)
Lemma star_go_fuel step f1 : forall f2 s c,
  length s <= f1 -> length s <= f2 ->
  star_go step f1 s c = star_go step f2 s c.
Proof.
  induction f1 as [|f1 IH]; intros f2 s c H1 H2.
  - destruct s; [|simpl in H1; lia].
    destruct f2; simpl; [reflexivity|].
    rewrite flat_map_nil. reflexivity.
  - destruct f2 as [|f2].
    + destruct s; [|simpl in H2; lia]. simpl.
      rewrite flat_map_nil. reflexivity.
    + simpl. f_equal. apply flat_map_ext. intros x.
      destruct (length (fst x) <? length s) eqn:E; [|reflexivity].
      apply Nat.ltb_lt in E. apply IH; lia.
Qed.

Lemma star_go_sound r step :
  (forall s c x, In x (step s c) -> exists w, s = w ++ fst x /\ matches r w) ->
  forall fuel s c x, In x (star_go step fuel s c) ->
  exists w, s = w ++ fst x /\ matches (Star r) w.
Proof.
  intros Hstep. induction fuel as [|fuel IH]; intros s c x Hin; simpl in Hin.
  - destruct Hin as [<-|[]]. exists []. split; [reflexivity|constructor].
  - apply in_app_or in Hin. destruct Hin as [Hin|[<-|[]]].
    + apply in_flat_map in Hin. destruct Hin as [y [Hy Hin]].
      destruct (length (fst y) <? length s) eqn:E; [|contradiction].
      apply Nat.ltb_lt in E.
      destruct (Hstep _ _ _ Hy) as [w1 [Hs1 Hm1]].
      destruct (IH _ _ _ Hin) as [w2 [Hs2 Hm2]].
      exists (w1 ++ w2). split.
      * rewrite <- app_assoc, <- Hs2. exact Hs1.
      * constructor; auto. intros ->. simpl in Hs1. subst s. lia.
    + exists []. split; [reflexivity|constructor].
Qed.

(** Every result of the matcher splits the subject into a word of the
    language and the rest. *)
Lemma run_sound n0 r : anchor_free r = true ->
  forall s c x, In x (run n0 r s c) ->
  exists w, s = w ++ fst x /\ matches r w.
Proof.
  induction r as [|p|r1 IH1 r2 IH2|r1 IH1 r2 IH2|r IH|n r IH| |];
    simpl; intros Haf s c x Hin; try discriminate.
  - destruct Hin as [<-|[]]. exists []. split; [reflexivity|constructor].
  - destruct s as [|a s]; [contradiction|].
    destruct (class_mem p a) eqn:E; [|contradiction].
    destruct Hin as [<-|[]]. exists [a]. split; [reflexivity|constructor; auto].
  - apply andb_prop in Haf. destruct Haf as [H1 H2].
    apply in_flat_map in Hin. destruct Hin as [y [Hy Hin]].
    destruct (IH1 H1 _ _ _ Hy) as [w1 [Hs1 Hm1]].
    destruct (IH2 H2 _ _ _ Hin) as [w2 [Hs2 Hm2]].
    exists (w1 ++ w2). split; [|constructor; auto].
    rewrite <- app_assoc, <- Hs2. exact Hs1.
  - apply andb_prop in Haf. destruct Haf as [H1 H2].
    apply in_app_or in Hin. destruct Hin as [Hin|Hin].
    + destruct (IH1 H1 _ _ _ Hin) as [w [Hs Hm]].
      exists w. split; [auto|apply MAltL; auto].
    + destruct (IH2 H2 _ _ _ Hin) as [w [Hs Hm]].
      exists w. split; [auto|apply MAltR; auto].
  - eapply star_go_sound; eauto.
  - apply in_map_iff in Hin. destruct Hin as [y [<- Hy]]. simpl.
    destruct (IH Haf _ _ _ Hy) as [w [Hs Hm]].
    exists w. split; [auto|constructor; auto].
Qed.

(** Every word of the language at the front of the subject is found. *)
Lemma run_complete n0 r w : matches r w ->
  forall t c, exists c', In (t, c') (run n0 r (w ++ t) c).
Proof.
  induction 1 as [|p a Hp|r1 r2 w1 w2 _ IH1 _ IH2|r1 r2 w _ IH|r1 r2 w _ IH
                 |r|r w1 w2 Hne _ IH1 _ IH2|n r w _ IH]; intros t c; simpl.
  - eauto.
  - rewrite Hp. simpl. eauto.
  - destruct (IH1 (w2 ++ t) c) as [c1 H1].
    destruct (IH2 t c1) as [c2 H2].
    exists c2. apply in_flat_map. exists (w2 ++ t, c1).
    rewrite <- app_assoc. split; auto.
  - destruct (IH t c) as [c' H']. exists c'. apply in_or_app. auto.
  - destruct (IH t c) as [c' H']. exists c'. apply in_or_app. auto.
  - destruct (length t); simpl; [eauto|].
    exists c. apply in_or_app. right. left. reflexivity.
  - destruct (IH1 (w2 ++ t) c) as [c1 H1].
    destruct (IH2 t c1) as [c2 H2]. simpl in H2.
    exists c2. rewrite <- app_assoc.
    assert (Hl : length (w2 ++ t) < length (w1 ++ w2 ++ t)).
    { rewrite (length_app w1). destruct w1; [congruence|simpl; lia]. }
    destruct (length (w1 ++ w2 ++ t)) as [|k] eqn:Ek; [lia|].
    cbn [star_go]. apply in_or_app. left. apply in_flat_map.
    exists (w2 ++ t, c1). split; [exact H1|]. cbn [fst snd].
    rewrite Ek. apply Nat.ltb_lt in Hl as Hb. rewrite Hb.
    rewrite star_go_fuel with (f2 := length (w2 ++ t)); auto. lia.
  - destruct (IH t c) as [c' H'].
    eexists. apply in_map_iff. exists (t, c'). split; [reflexivity|auto].
Qed.

Lemma star_go_length step :
  (forall s c x, In x (step s c) -> length (fst x) <= length s) ->
  forall fuel s c x, In x (star_go step fuel s c) -> length (fst x) <= length s.
Proof.
  intros Hstep. induction fuel as [|fuel IH]; intros s c x Hin; simpl in Hin.
  - destruct Hin as [<-|[]]. simpl. lia.
  - apply in_app_or in Hin. destruct Hin as [Hin|[<-|[]]]; [|simpl; lia].
    apply in_flat_map in Hin. destruct Hin as [y [Hy Hin]].
    destruct (length (fst y) <? length s) eqn:E; [|contradiction].
    apply Nat.ltb_lt in E. apply IH in Hin. lia.
Qed.

(** The matcher never gives back more than it was given. *)
Lemma run_length n0 r : forall s c x,
  In x (run n0 r s c) -> length (fst x) <= length s.
Proof.
  induction r as [|p|r1 IH1 r2 IH2|r1 IH1 r2 IH2|r IH|n r IH| |];
    simpl; intros s c x Hin.
  - destruct Hin as [<-|[]]. simpl. lia.
  - destruct s as [|a s]; [contradiction|].
    destruct (class_mem p a); [|contradiction].
    destruct Hin as [<-|[]]. simpl. lia.
  - apply in_flat_map in Hin. destruct Hin as [y [Hy Hin]].
    apply IH1 in Hy. apply IH2 in Hin. lia.
  - apply in_app_or in Hin. destruct Hin as [Hin|Hin]; eauto.
  - eapply star_go_length; eauto.
  - apply in_map_iff in Hin. destruct Hin as [y [<- Hy]]. simpl. eauto.
  - destruct (length s =? n0); [|contradiction].
    destruct Hin as [<-|[]]. simpl. lia.
  - destruct s as [|a [|b s]]; try contradiction.
    + destruct Hin as [<-|[]]. simpl. lia.
    + destruct (Ascii.eqb a newline); [|contradiction].
      destruct Hin as [<-|[]]. simpl. lia.
Qed.

(** A pattern that is not nullable consumes at least one character. *)
Lemma run_progress n0 r : nullable r = false -> forall s c x,
  In x (run n0 r s c) -> length (fst x) < length s.
Proof.
  induction r as [|p|r1 IH1 r2 IH2|r1 IH1 r2 IH2|r IH|n r IH| |];
    simpl; intros Hn s c x Hin; try discriminate.
  - destruct s as [|a s]; [contradiction|].
    destruct (class_mem p a); [|contradiction].
    destruct Hin as [<-|[]]. simpl. lia.
  - apply in_flat_map in Hin. destruct Hin as [y [Hy Hin]].
    pose proof (run_length _ _ _ _ _ Hy) as L1.
    pose proof (run_length _ _ _ _ _ Hin) as L2.
    apply andb_false_iff in Hn. destruct Hn as [Hn|Hn].
    + apply (IH1 Hn) in Hy. lia.
    + apply (IH2 Hn) in Hin. lia.
  - apply orb_false_iff in Hn. destruct Hn as [H1 H2].
    apply in_app_or in Hin. destruct Hin as [Hin|Hin]; eauto.
  - apply in_map_iff in Hin. destruct Hin as [y [<- Hy]]. simpl. eauto.
Qed.

(** Both patterns of [group_fastqs] consume input wherever they match. *)
Lemma patterns_consume n0 s s1 c :
  (match_here n0 fastq_regex s = Some (s1, c) -> length s1 < length s)
  /\ (match_here n0 illumina_regex s = Some (s1, c) -> length s1 < length s).
Proof.
  unfold match_here. split; intros H.
  - destruct (run n0 fastq_regex s []) as [|x l] eqn:E; [discriminate|].
    injection H as ->.
    apply (@run_progress n0 fastq_regex eq_refl s [] (s1, c)).
    rewrite E. left. reflexivity.
  - destruct (run n0 illumina_regex s []) as [|x l] eqn:E; [discriminate|].
    injection H as ->.
    apply (@run_progress n0 illumina_regex eq_refl s [] (s1, c)).
    rewrite E. left. reflexivity.
Qed.

Lemma match_here_none n0 r s : match_here n0 r s = None ->
  forall w t, s = w ++ t -> ~ matches r w.
Proof.
  unfold match_here. intros Hn w t -> Hm.
  destruct (run_complete n0 Hm t []) as [c' Hin].
  destruct (run n0 r (w ++ t) []); [contradiction|discriminate].
Qed.

Lemma match_here_some n0 r s s1 c : anchor_free r = true ->
  match_here n0 r s = Some (s1, c) ->
  exists w, s = w ++ s1 /\ matches r w.
Proof.
  unfold match_here. intros Haf Hs.
  destruct (run n0 r s []) as [|x l] eqn:E; [discriminate|].
  injection Hs as ->.
  apply (run_sound n0 r Haf s [] (s1, c)). rewrite E. left. reflexivity.
Qed.

(** Dropping the rest of a match resumes the scan behind it. *)
Lemma sub_go_skip r tpl n0 k : forall s, k <= length s ->
  sub_go r tpl n0 s k = sub_go r tpl n0 (skipn k s) 0.
Proof.
  induction k as [|k IH]; intros s Hk; [reflexivity|].
  destruct s as [|a s]; [simpl in Hk; lia|].
  simpl in Hk. cbn [sub_go skipn]. apply IH. lia.
Qed.

(** Substituting the empty string for a pattern strips words of its
    language, and only where none starts is a character kept. *)
Lemma sub_go_strips n0 r : anchor_free r = true -> ~ matches r [] ->
  forall n s, length s <= n -> strips (matches r) s (sub_go r [] n0 s 0).
Proof.
  intros Haf Hne. induction n as [|n IH]; intros s Hlen.
  - destruct s; [|simpl in Hlen; lia]. cbn [sub_go].
    destruct (match_here n0 r []) as [[s1 c]|] eqn:E; [|constructor].
    destruct (match_here_some _ _ _ Haf E) as [w [Hs Hm]].
    symmetry in Hs. apply app_eq_nil in Hs. destruct Hs as [-> _]. contradiction.
  - destruct s as [|a s'].
    + apply IH. simpl. lia.
    + cbn [sub_go].
      destruct (match_here n0 r (a :: s')) as [[s1 c]|] eqn:E.
      * destruct (match_here_some _ _ _ Haf E) as [w [Hs Hm]].
        assert (Hw : w <> []) by (intros ->; contradiction).
        assert (Hl : length (a :: s') = length w + length s1)
          by (rewrite Hs, length_app; reflexivity).
        assert (Hw' : 0 < length w) by (destruct w; [congruence|simpl; lia]).
        replace (length s1 <? length (a :: s')) with true
          by (symmetry; apply Nat.ltb_lt; lia).
        cbn [expand flat_map app].
        rewrite sub_go_skip.
        2:{ cbn [length] in *. lia. }
        assert (Hsk : skipn (length (a :: s') - length s1 - 1) s' = s1).
        { destruct w as [|b w]; [congruence|].
          simpl in Hs. injection Hs as _ ->.
          replace (length (a :: w ++ s1) - length s1 - 1) with (length w)
            by (cbn [length]; rewrite length_app; lia).
          rewrite skipn_app, skipn_all, Nat.sub_diag. reflexivity. }
        rewrite Hsk, Hs. apply strips_drop; [exact Hm|].
        apply IH. cbn [length] in *. lia.
      * apply strips_keep.
        -- intros w t Hs. eapply match_here_none; eauto.
        -- apply IH. simpl in Hlen. lia.
Qed.

End MatcherFacts.

(** ** The language of [illumina_regex] *)

Section MarkerFacts.

Import Re.

Lemma matches_Eps_iff w : matches Eps w <-> w = [].
Proof.
  split; [inversion 1; reflexivity|intros ->; constructor].
Qed.

Lemma matches_Cat_iff r1 r2 w :
  matches (Cat r1 r2) w <->
  exists w1 w2, w = w1 ++ w2 /\ matches r1 w1 /\ matches r2 w2.
Proof.
  split.
  - inversion 1; subst. eauto.
  - intros (w1 & w2 & -> & H1 & H2). constructor; auto.
Qed.

Lemma matches_Chr_iff p w :
  matches (Chr p) w <-> exists a, w = [a] /\ class_mem p a = true.
Proof.
  split.
  - inversion 1; subst. eauto.
  - intros (a & -> & H). constructor; auto.
Qed.

Lemma matches_text_iff t w : matches (text t) w <-> w = t.
Proof.
  revert w. induction t as [|a t IH]; intros w; simpl.
  - apply matches_Eps_iff.
  - rewrite matches_Cat_iff. split.
    + intros (w1 & w2 & -> & H1 & H2).
      apply matches_Chr_iff in H1. destruct H1 as (b & -> & Hb).
      apply IH in H2. subst w2. simpl in Hb.
      apply Ascii.eqb_eq in Hb. subst b. reflexivity.
    + intros ->. exists [a], t. repeat split.
      * constructor. simpl. apply Ascii.eqb_refl.
      * apply IH. reflexivity.
Qed.

Lemma matches_Star_Chr_iff p w :
  matches (Star (Chr p)) w <-> Forall (fun a => class_mem p a = true) w.
Proof.
  split.
  - intros H. remember (Star (Chr p)) as r eqn:Er.
    induction H as [| | | | |r'|r' w1 w2 Hne H1 _ H2 IH2|]; try discriminate.
    + constructor.
    + injection Er as ->. apply matches_Chr_iff in H1.
      destruct H1 as (a & -> & Ha). simpl. constructor; auto.
  - induction 1 as [|a w Ha _ IH]; [constructor|].
    change (a :: w) with ([a] ++ w). constructor; auto.
    + discriminate.
    + constructor; auto.
Qed.

Lemma matches_Plus_Chr_iff p w :
  matches (Plus (Chr p)) w <->
  w <> [] /\ Forall (fun a => class_mem p a = true) w.
Proof.
  unfold Plus. rewrite matches_Cat_iff. split.
  - intros (w1 & w2 & -> & H1 & H2).
    apply matches_Chr_iff in H1. destruct H1 as (a & -> & Ha).
    apply matches_Star_Chr_iff in H2. simpl. split; [discriminate|].
    constructor; auto.
  - intros [Hne H]. destruct H as [|a w Ha H]; [congruence|].
    exists [a], w. repeat split.
    + constructor; auto.
    + apply matches_Star_Chr_iff; auto.
Qed.

Lemma any_mem a : class_mem CAny a = true <-> a <> newline.
Proof.
  simpl. rewrite negb_true_iff. split.
  - intros H ->. rewrite Ascii.eqb_refl in H. discriminate.
  - intros H. destruct (Ascii.eqb a newline) eqn:E; auto.
    apply Ascii.eqb_eq in E. contradiction.
Qed.

Lemma Forall_any x :
  Forall (fun a => class_mem CAny a = true) x <-> Forall (fun a => a <> newline) x.
Proof.
  split; intros H; eapply Forall_impl; try exact H; intros a; apply any_mem.
Qed.

Lemma illumina_regex_eq :
  illumina_regex =
  seq [ text "_S"; Plus (Chr CAny); text "_L"; Star (Chr CDigit);
        text "1_R"; Plus (Chr CDigit); text "_001" ].
Proof. reflexivity. Qed.

(** The pattern of the source matches exactly the markers. *)
Lemma illumina_language w : matches illumina_regex w <-> marker w.
Proof.
  rewrite illumina_regex_eq. cbn [seq]. unfold marker. split.
  - intros H.
    apply matches_Cat_iff in H. destruct H as (w1 & t1 & -> & H1 & H).
    apply matches_Cat_iff in H. destruct H as (x & t2 & -> & Hx & H).
    apply matches_Cat_iff in H. destruct H as (w3 & t3 & -> & H3 & H).
    apply matches_Cat_iff in H. destruct H as (l & t4 & -> & Hl & H).
    apply matches_Cat_iff in H. destruct H as (w5 & t5 & -> & H5 & H).
    apply matches_Cat_iff in H. destruct H as (d & t6 & -> & Hd & H).
    apply matches_Cat_iff in H. destruct H as (w7 & t7 & -> & H7 & H).
    apply matches_text_iff in H1, H3, H5, H7. subst.
    apply matches_Eps_iff in H. subst.
    apply matches_Plus_Chr_iff in Hx, Hd.
    apply matches_Star_Chr_iff in Hl.
    destruct Hx as [Hx1 Hx2]. destruct Hd as [Hd1 Hd2].
    apply Forall_any in Hx2.
    exists x, l, d. rewrite app_nil_r. repeat split; auto.
  - intros (x & l & d & -> & Hx1 & Hx2 & Hl & Hd1 & Hd2).
    apply matches_Cat_iff. exists "_S", (x ++ "_L" ++ l ++ "1_R" ++ d ++ "_001").
    split; [reflexivity|]. split; [apply matches_text_iff; reflexivity|].
    apply matches_Cat_iff. exists x, ("_L" ++ l ++ "1_R" ++ d ++ "_001").
    split; [reflexivity|].
    split; [apply matches_Plus_Chr_iff; split; auto; apply Forall_any; auto|].
    apply matches_Cat_iff. exists "_L", (l ++ "1_R" ++ d ++ "_001").
    split; [reflexivity|]. split; [apply matches_text_iff; reflexivity|].
    apply matches_Cat_iff. exists l, ("1_R" ++ d ++ "_001").
    split; [reflexivity|]. split; [apply matches_Star_Chr_iff; auto|].
    apply matches_Cat_iff. exists "1_R", (d ++ "_001").
    split; [reflexivity|]. split; [apply matches_text_iff; reflexivity|].
    apply matches_Cat_iff. exists d, "_001".
    split; [reflexivity|]. split; [apply matches_Plus_Chr_iff; auto|].
    apply matches_Cat_iff. exists "_001", [].
    split; [reflexivity|]. split; [apply matches_text_iff; reflexivity|].
    constructor.
Qed.

Lemma marker_nonempty w : marker w -> w <> [].
Proof. intros (x & l & d & -> & _). discriminate. Qed.

(** [illumina_regex] cannot match the empty string. *)
Lemma illumina_nonempty : ~ matches illumina_regex [].
Proof.
  intros H. apply illumina_language in H. exact (marker_nonempty H eq_refl).
Qed.

Lemma strips_impl (L L' : str -> Prop) :
  (forall w, L w <-> L' w) ->
  forall s o, strips L s o -> strips L' s o.
Proof.
  intros HL s o H. induction H as [|a s o Hk _ IH|w s o Hw _ IH].
  - constructor.
  - apply strips_keep; auto. intros w t Hs Hw. apply (Hk w t Hs). apply HL; auto.
  - apply strips_drop; auto. apply HL; auto.
Qed.

Lemma illumina_sub_strips name :
  strips marker name (Re.sub illumina_regex [] name).
Proof.
  apply strips_impl with (L := matches illumina_regex).
  - apply illumina_language.
  - unfold Re.sub. apply sub_go_strips with (n := length name); auto.
    apply illumina_nonempty.
Qed.

Lemma strips_length (L : str -> Prop) s o :
  strips L s o -> length o <= length s.
Proof.
  induction 1; simpl; try lia. rewrite length_app. lia.
Qed.

(** Where a word of the language occurs, something is stripped. *)
Lemma strips_shorter (L : str -> Prop) :
  (forall w, L w -> w <> []) ->
  forall s o, strips L s o ->
  forall pre w post, s = pre ++ w ++ post -> L w -> length o < length s.
Proof.
  intros HL s o H. induction H as [|a s o Hk Hs IH|w0 s o Hw0 Hs IH];
    intros pre w post E Hw.
  - symmetry in E. apply app_eq_nil in E. destruct E as [_ E].
    apply app_eq_nil in E. destruct E as [E _]. exfalso. exact (HL _ Hw E).
  - destruct pre as [|b pre].
    + exfalso. exact (Hk w post E Hw).
    + simpl in E. injection E as _ E. simpl.
      apply (IH _ _ _ E) in Hw. lia.
  - apply strips_length in Hs. rewrite length_app.
    pose proof (HL _ Hw0) as Hne. destruct w0; [congruence|simpl; lia].
Qed.

End MarkerFacts.

(** ** Sample names and pairing *)

Section Grouping.

Lemma str_eqb_refl s : str_eqb s s = true.
Proof.
  induction s as [|a s IH]; simpl; auto. rewrite Ascii.eqb_refl. auto.
Qed.

Lemma str_eqb_eq s : forall t, str_eqb s t = true <-> s = t.
Proof.
  induction s as [|a s IH]; intros [|b t]; simpl; split; intros H;
    try discriminate; auto.
  - apply andb_prop in H. destruct H as [H1 H2].
    apply Ascii.eqb_eq in H1. apply IH in H2. congruence.
  - injection H as -> ->. rewrite Ascii.eqb_refl. apply IH. reflexivity.
Qed.

Lemma strs_ltb_app l : forall a b, strs_ltb (l ++ a) (l ++ b) = strs_ltb a b.
Proof.
  induction l as [|x l IH]; intros a b; simpl; auto.
  rewrite str_eqb_refl. apply IH.
Qed.

Lemma name_child d n : name (child d n) = n.
Proof. unfold name, child. simpl. apply last_last. Qed.

Lemma cparts_child d n : cparts (child d n) = cparts d ++ [n].
Proof. unfold cparts, child. simpl. destruct (is_nonempty (root d)); auto. Qed.

(** Two entries of one directory compare as their names do. *)
Lemma path_ltb_child d n m :
  path_ltb (child d n) (child d m) = if str_eqb n m then false else str_ltb n m.
Proof.
  unfold path_ltb. rewrite !cparts_child, strs_ltb_app. reflexivity.
Qed.

Lemma genome_name_child d n :
  genome_name (child d n) =
  Re.sub illumina_regex [] (Re.sub fastq_regex [Re.RGroup 1] (stem_of n)).
Proof. unfold genome_name, stem. rewrite name_child. reflexivity. Qed.

End Grouping.

(** C1: the two files [sample_S1_L001_R1_001.fastq.gz] and
    [sample_S1_L001_R2_001.fastq.gz] of a directory both get the sample
    name [sample], fall into one group, and whatever the order in which
    they were found the [R1] file becomes [fwd] and the [R2] file [rev]. *)
Theorem C1_illumina_pair : forall (d : Path) (w : world),
  let r1 := child d "sample_S1_L001_R1_001.fastq.gz" in
  let r2 := child d "sample_S1_L001_R2_001.fastq.gz" in
  genome_name r1 = "sample" /\ genome_name r2 = "sample"
  /\ genome_fastqs [r1; r2] = [("sample", [r1; r2])]
  /\ genome_fastqs [r2; r1] = [("sample", [r2; r1])]
  /\ sorted [r1; r2] = [r1; r2] /\ sorted [r2; r1] = [r1; r2]
  /\ fst (group_fastqs [r1; r2] w) = Ok [("sample", mkMates r1 r2)]
  /\ fst (group_fastqs [r2; r1] w) = Ok [("sample", mkMates r1 r2)].
Proof.
  intros d w r1 r2.
  assert (H1 : genome_name r1 = "sample")
    by (unfold r1; rewrite genome_name_child; vm_compute; reflexivity).
  assert (H2 : genome_name r2 = "sample")
    by (unfold r2; rewrite genome_name_child; vm_compute; reflexivity).
  assert (G12 : genome_fastqs [r1; r2] = [("sample", [r1; r2])])
    by (unfold genome_fastqs; cbn [fold_left]; rewrite H1, H2; reflexivity).
  assert (G21 : genome_fastqs [r2; r1] = [("sample", [r2; r1])])
    by (unfold genome_fastqs; cbn [fold_left]; rewrite H1, H2; reflexivity).
  assert (S12 : sorted [r1; r2] = [r1; r2]).
  { unfold sorted. cbn [fold_right insert_sorted].
    unfold r1, r2. rewrite path_ltb_child. reflexivity. }
  assert (S21 : sorted [r2; r1] = [r1; r2]).
  { unfold sorted. cbn [fold_right insert_sorted].
    unfold r1, r2. rewrite path_ltb_child. reflexivity. }
  repeat split; auto.
  - unfold group_fastqs. rewrite G12.
    cbn [foldM bind lift ret fst snd]. unfold unpack_mates. rewrite S12.
    reflexivity.
  - unfold group_fastqs. rewrite G21.
    cbn [foldM bind lift ret fst snd]. unfold unpack_mates. rewrite S21.
    reflexivity.
Qed.

(** C7: [reads_1.fastq] and [reads_2.fastq] carry no lane/read marker:
    their sample names are [reads_1] and [reads_2], nothing is stripped,
    and each file ends up in a group of its own. *)
Theorem C7_unmarked_not_paired : forall d : Path,
  let f1 := child d "reads_1.fastq" in
  let f2 := child d "reads_2.fastq" in
  genome_name f1 = "reads_1" /\ genome_name f2 = "reads_2"
  /\ genome_name f1 = stem f1 /\ genome_name f2 = stem f2
  /\ genome_name f1 <> genome_name f2
  /\ genome_fastqs [f1; f2] = [("reads_1", [f1]); ("reads_2", [f2])].
Proof.
  intros d f1 f2.
  assert (H1 : genome_name f1 = "reads_1")
    by (unfold f1; rewrite genome_name_child; vm_compute; reflexivity).
  assert (H2 : genome_name f2 = "reads_2")
    by (unfold f2; rewrite genome_name_child; vm_compute; reflexivity).
  repeat split; auto.
  - rewrite H1. unfold stem, f1. rewrite name_child. reflexivity.
  - rewrite H2. unfold stem, f2. rewrite name_child. reflexivity.
  - rewrite H1, H2. discriminate.
  - unfold genome_fastqs. cbn [fold_left]. rewrite H1, H2. reflexivity.
Qed.

(** C2, as stated, fails: in [sample_S1_x_L001_R1_001] the characters
    between [_S] and the following [_L] contain an underscore, so the
    pattern of the specification leaves the name unchanged, but the source
    strips the marker and yields [sample]. *)
Lemma C2_underscore_counterexample :
  let fastq := parse_path "/data/sample_S1_x_L001_R1_001.fastq.gz" in
  let base := Re.sub fastq_regex [Re.RGroup 1] (stem fastq) in
  base = "sample" ++ "_S" ++ "1_x" ++ "_L" ++ "001_R1_001"
  /\ In "_"%char "1_x"
  /\ Re.sub spec_illumina_regex [] base = base
  /\ genome_name fastq = "sample"
  /\ genome_name fastq <> base.
Proof.
  vm_compute. repeat split; auto. discriminate.
Qed.

(** C2, amended: for a file whose name is ASCII text, where a digit is
    one of [0-9], the marker removed during sample-name derivation is a
    substring made of [_S], one or more characters other than a newline
    (underscores included), [_L], zero or more digits, [1_R], one or more
    digits and [_001]; scanning from the left, a character is kept only
    where no such marker starts, and what is dropped is such a marker.  A
    name in which a marker occurs comes out strictly shorter. *)
Theorem C2_marker_removed :
  (forall fastq : Path,
     ascii_text (name fastq) = true ->
     Re.strips marker (Re.sub fastq_regex [Re.RGroup 1] (stem fastq))
               (genome_name fastq))
  /\ (forall name pre w post : str,
        name = pre ++ w ++ post -> marker w ->
        length (Re.sub illumina_regex [] name) < length name).
Proof.
  split.
  - intros fastq _. apply illumina_sub_strips.
  - intros name pre w post E Hw.
    eapply strips_shorter with (L := marker); eauto.
    + apply marker_nonempty.
    + apply illumina_sub_strips.
Qed.

Lemma C2_marker_removed_witness :
  Re.strips marker "sample_S1_x_L001_R1_001" "sample"
  /\ length (Re.sub illumina_regex [] "sample_S1_x_L001_R1_001")
     < length ("sample_S1_x_L001_R1_001" : str).
Proof.
  split.
  - apply (proj1 C2_marker_removed
             (parse_path "/data/sample_S1_x_L001_R1_001.fastq.gz")).
    reflexivity.
  - apply (proj2 C2_marker_removed "sample_S1_x_L001_R1_001" "sample"
                 "_S1_x_L001_R1_001" []).
    + reflexivity.
    + exists "1_x", "00", "1". repeat split; try discriminate.
      * repeat constructor; discriminate.
      * repeat constructor.
      * repeat constructor.
Defined.

(** ** [str.format] *)

Section FormatFacts.

Variable args : list value.
Variable kw : list (str * value).

Ltac split_ifs :=
  repeat match goal with
         | H : context [if ?b then _ else _] |- _ => destruct b eqn:?
         | |- context [if ?b then _ else _] => destruct b eqn:?
         end.

(** A prefix that formats on its own leaves the scan in literal text. *)
Lemma format_go_app pre : forall rest m an out out' an',
  format_go args kw pre m an out = Ok (out', an') ->
  format_go args kw (pre ++ rest) m an out = format_go args kw rest Text an' out'.
Proof.
  induction pre as [|a pre IH]; intros rest m an out out' an' H.
  - simpl in H. destruct m; try discriminate. injection H as -> ->. reflexivity.
  - cbn [app format_go] in *.
    destruct m; split_ifs; try discriminate; try (apply IH; assumption);
      destruct (field_value args kw an _) as [[v an1]| |];
      try discriminate; apply IH; assumption.
Qed.

(** Text already produced stays in front. *)
Lemma format_go_out s : forall m an o1 o2,
  format_go args kw s m an (o1 ++ o2) = prefixed o1 (format_go args kw s m an o2).
Proof.
  induction s as [|a s IH]; intros m an o1 o2.
  - simpl. destruct m; reflexivity.
  - cbn [format_go].
    destruct m; split_ifs; try reflexivity;
      try (rewrite <- app_assoc; apply IH); try apply IH;
      destruct (field_value args kw an _) as [[v an1]| |];
      try reflexivity; rewrite <- app_assoc; apply IH.
Qed.

Lemma field_special_brace a : field_special a = false -> Ascii.eqb a "{" = false.
Proof.
  unfold field_special. cbn [existsb]. intros H.
  repeat (apply orb_false_elim in H; destruct H as [? H]); assumption.
Qed.

(** A plain name runs up to its closing brace and is then looked up. *)
Lemma format_go_field nm : forall post acc an out,
  forallb plain_char nm = true ->
  format_go args kw (nm ++ "}"%char :: post) (Field acc) an out =
  match field_value args kw an (acc ++ nm) with
  | Ok (v, an') => format_go args kw post Text an' (out ++ py_str v)
  | Raise e => Raise e
  | Unmodelled y => Unmodelled y
  end.
Proof.
  induction nm as [|a nm IH]; intros post acc an out Hp.
  - cbn [app format_go]. rewrite app_nil_r. reflexivity.
  - cbn [forallb] in Hp. apply andb_prop in Hp. destruct Hp as [Ha Hp].
    unfold plain_char in Ha. apply andb_prop in Ha. destruct Ha as [Hc Hs].
    apply negb_true_iff in Hc, Hs.
    cbn [app format_go]. rewrite Hc, Hs. rewrite IH by assumption.
    rewrite <- app_assoc. reflexivity.
Qed.

Lemma format_go_placeholder nm post an out :
  is_nonempty nm = true -> forallb plain_char nm = true ->
  format_go args kw ("{"%char :: nm ++ "}"%char :: post) Text an out =
  match field_value args kw an nm with
  | Ok (v, an') => format_go args kw post Text an' (out ++ py_str v)
  | Raise e => Raise e
  | Unmodelled y => Unmodelled y
  end.
Proof.
  intros Hne Hp. destruct nm as [|a nm]; [discriminate|].
  cbn [forallb] in Hp. apply andb_prop in Hp. destruct Hp as [Ha Hp].
  unfold plain_char in Ha. apply andb_prop in Ha. destruct Ha as [Hc Hs].
  apply negb_true_iff in Hc, Hs.
  cbn [app format_go]. cbn [Ascii.eqb Bool.eqb andb].
  rewrite (field_special_brace _ Hs), Hc, Hs.
  apply (format_go_field nm post [a]); assumption.
Qed.

(** Text without braces is copied. *)
Lemma format_go_literal s : forall out an,
  ~ In "{"%char s -> ~ In "}"%char s ->
  format_go args kw s Text an out = Ok (out ++ s, an).
Proof.
  induction s as [|a s IH]; intros out an Ho Hc.
  - simpl. rewrite app_nil_r. reflexivity.
  - cbn [format_go].
    destruct (Ascii.eqb a "{") eqn:E1.
    { apply Ascii.eqb_eq in E1. subst a. exfalso. apply Ho. left. reflexivity. }
    destruct (Ascii.eqb a "}") eqn:E2.
    { apply Ascii.eqb_eq in E2. subst a. exfalso. apply Hc. left. reflexivity. }
    rewrite IH.
    + rewrite <- app_assoc. reflexivity.
    + intros H. apply Ho. right. exact H.
    + intros H. apply Hc. right. exact H.
Qed.

Lemma brace_free_In s :
  forallb (fun a => negb (Ascii.eqb a "{") && negb (Ascii.eqb a "}")) s = true ->
  ~ In "{"%char s /\ ~ In "}"%char s.
Proof.
  induction s as [|a s IH]; intros H; simpl in *; [tauto|].
  apply andb_prop in H. destruct H as [Ha Hs].
  apply andb_prop in Ha. destruct Ha as [H1 H2].
  apply negb_true_iff in H1, H2. destruct (IH Hs) as [I1 I2].
  split; intros [E|E]; try contradiction; subst a; discriminate.
Qed.

(** Literal text followed by an automatically numbered field. *)
Lemma format_go_text_auto lit post an out :
  forallb (fun a => negb (Ascii.eqb a "{") && negb (Ascii.eqb a "}")) lit = true ->
  format_go args kw (lit ++ "{"%char :: "}"%char :: post) Text an out =
  match field_value args kw an [] with
  | Ok (v, an') => format_go args kw post Text an' ((out ++ lit) ++ py_str v)
  | Raise e => Raise e
  | Unmodelled y => Unmodelled y
  end.
Proof.
  intros Hl. destruct (brace_free_In _ Hl) as [H1 H2].
  rewrite format_go_app with (1 := format_go_literal lit out an H1 H2).
  reflexivity.
Qed.

Lemma format_go_text lit an out :
  forallb (fun a => negb (Ascii.eqb a "{") && negb (Ascii.eqb a "}")) lit = true ->
  format_go args kw lit Text an out = Ok (out ++ lit, an).
Proof.
  intros Hl. destruct (brace_free_In _ Hl) as [H1 H2].
  apply format_go_literal; assumption.
Qed.

End FormatFacts.

Section KeywordFormat.

Variable kw : list (str * value).

(** Without positional arguments the numbering state never moves. *)
Lemma field_value_kw an nm v an' :
  field_value [] kw an nm = Ok (v, an') -> an' = an.
Proof.
  unfold field_value. destruct nm as [|a nm].
  - destruct an as [|n|]; try discriminate.
    destruct n; simpl; discriminate.
  - destruct (get_integer 0 (a :: nm)) as [[i|]| |]; try discriminate.
    + assert (Hp : positional [] i = None)
        by (unfold positional; destruct i; reflexivity).
      rewrite Hp. destruct an; discriminate.
    + destruct (lookup_kw (a :: nm) kw); [|discriminate].
      intros H. injection H as _ <-. reflexivity.
Qed.

(** A keyword name is looked up among the keyword arguments. *)
Lemma keyword_name_parts nm : keyword_name nm = true ->
  is_nonempty nm = true /\ forallb plain_char nm = true
  /\ get_integer 0 nm = Ok None.
Proof.
  unfold keyword_name. intros H.
  apply andb_prop in H. destruct H as [H Hd].
  apply andb_prop in H. destruct H as [Hne Hp].
  repeat split; auto.
  destruct (get_integer 0 nm) as [[i|]| |]; try discriminate. reflexivity.
Qed.

Lemma format_go_kw s : forall m an out out' an',
  format_go [] kw s m an out = Ok (out', an') -> an' = an.
Proof.
  induction s as [|a s IH]; intros m an out out' an' H.
  - simpl in H. destruct m; try discriminate. injection H as _ <-. reflexivity.
  - cbn [format_go] in H.
    destruct m;
      repeat match goal with
             | H : context [if ?b then _ else _] |- _ => destruct b eqn:?
             end; try discriminate; try (eapply IH; eassumption);
      destruct (field_value [] kw an _) as [[v an1]| |] eqn:E;
      try discriminate; apply field_value_kw in E; subst an1;
      eapply IH; eassumption.
Qed.

(** A keyword placeholder between two pieces of a template. *)
Lemma format_placeholder pre nm post out v :
  format pre [] kw = Ok out ->
  keyword_name nm = true -> lookup_kw nm kw = Some v ->
  format (pre ++ "{"%char :: nm ++ "}"%char :: post) [] kw =
  prefixed_str (out ++ py_str v) (format post [] kw).
Proof.
  unfold format. intros Hpre Hnm Hv.
  destruct (keyword_name_parts _ Hnm) as (Hne & Hp & Hd).
  destruct (format_go [] kw pre Text AnInit []) as [[o an]| |] eqn:E;
    try discriminate.
  injection Hpre as ->. pose proof (format_go_kw _ _ _ _ E) as ->.
  rewrite format_go_app with (1 := E).
  rewrite format_go_placeholder by assumption.
  unfold field_value. destruct nm as [|a nm]; [discriminate|].
  rewrite Hd, Hv.
  rewrite <- (app_nil_r (out ++ py_str v)) at 1. rewrite format_go_out.
  destruct (format_go [] kw post Text AnInit []) as [[o an]| |]; reflexivity.
Qed.

(** An unknown keyword placeholder raises [KeyError]. *)
Lemma format_unknown pre nm post out :
  format pre [] kw = Ok out ->
  keyword_name nm = true -> lookup_kw nm kw = None ->
  format (pre ++ "{"%char :: nm ++ "}"%char :: post) [] kw = Raise (KeyError nm).
Proof.
  unfold format. intros Hpre Hnm Hv.
  destruct (keyword_name_parts _ Hnm) as (Hne & Hp & Hd).
  destruct (format_go [] kw pre Text AnInit []) as [[o an]| |] eqn:E;
    try discriminate.
  rewrite format_go_app with (1 := E).
  rewrite format_go_placeholder by assumption.
  unfold field_value. destruct nm as [|a nm]; [discriminate|].
  rewrite Hd, Hv. reflexivity.
Qed.

Lemma format_literal s :
  ~ In "{"%char s -> ~ In "}"%char s -> format s [] kw = Ok s.
Proof.
  intros Ho Hc. unfold format. rewrite format_go_literal by assumption.
  reflexivity.
Qed.

End KeywordFormat.

(** ** The file system *)

Section FileSystemFacts.

Lemma strs_eqb_eq l : forall m, strs_eqb l m = true <-> l = m.
Proof.
  induction l as [|x l IH]; intros [|y m]; simpl; split; intros H;
    try discriminate; auto.
  - apply andb_prop in H. destruct H as [H1 H2].
    apply str_eqb_eq in H1. apply IH in H2. congruence.
  - injection H as -> ->. rewrite str_eqb_refl. apply IH. reflexivity.
Qed.

Lemma path_eqb_eq p q : path_eqb p q = true <-> p = q.
Proof.
  unfold path_eqb. destruct p as [rp lp], q as [rq lq]. simpl. split.
  - intros H. apply andb_prop in H. destruct H as [H1 H2].
    apply str_eqb_eq in H1. apply strs_eqb_eq in H2. congruence.
  - intros H. injection H as -> ->.
    rewrite str_eqb_refl. apply strs_eqb_eq. reflexivity.
Qed.

Lemma path_eqb_refl p : path_eqb p p = true.
Proof. apply path_eqb_eq. reflexivity. Qed.

Lemma path_eqb_neq p q : p <> q -> path_eqb p q = false.
Proof.
  intros H. destruct (path_eqb p q) eqn:E; auto.
  apply path_eqb_eq in E. contradiction.
Qed.

Lemma lookup_store_same fs p nd : lookup (store fs p nd) p = Some nd.
Proof.
  induction fs as [|[q old] fs IH]; simpl.
  - rewrite path_eqb_refl. reflexivity.
  - destruct (path_eqb q p) eqn:E; simpl; rewrite E; auto.
Qed.

Lemma lookup_store_other fs p q nd :
  p <> q -> lookup (store fs p nd) q = lookup fs q.
Proof.
  intros Hne. induction fs as [|[k old] fs IH]; simpl.
  - rewrite path_eqb_neq by assumption. reflexivity.
  - destruct (path_eqb k p) eqn:E; simpl.
    + apply path_eqb_eq in E. subst k.
      rewrite path_eqb_neq by assumption. reflexivity.
    + rewrite IH. reflexivity.
Qed.

(** The last step of a walk. *)
Lemma walk_snoc fs rt n rest : forall seen,
  walk fs rt seen (rest ++ [n]) =
  match walk fs rt seen rest with
  | inr (Dir m) =>
      if negb (can_search m) then inl EACCES
      else if NAME_MAX <? length n then inl ENAMETOOLONG
      else match lookup fs (mkPath rt (seen ++ rest ++ [n])) with
           | Some nd => inr nd
           | None => inl ENOENT
           end
  | inr (File _ _) => inl ENOTDIR
  | inl e => inl e
  end.
Proof.
  induction rest as [|x rest IH]; intros seen.
  - cbn [app walk]. destruct (lookup fs (mkPath rt seen)) as [[m d|m]|];
      reflexivity.
  - cbn [app walk]. destruct (lookup fs (mkPath rt seen)) as [[m d|m]|];
      try reflexivity.
    destruct (negb (can_search m)); [reflexivity|].
    destruct (NAME_MAX <? length x); [reflexivity|].
    rewrite IH. rewrite <- app_assoc. reflexivity.
Qed.


(** A walk only looks at paths no longer than its end. *)
Lemma walk_store fs t nd rt rest : forall seen,
  length seen + length rest < length (parts t) ->
  walk (store fs t nd) rt seen rest = walk fs rt seen rest.
Proof.
  induction rest as [|x rest IH]; intros seen Hlen.
  - cbn [walk]. rewrite lookup_store_other; auto.
    intros ->. cbn [parts length] in Hlen. lia.
  - cbn [walk]. rewrite lookup_store_other.
    + destruct (lookup fs (mkPath rt seen)) as [[m d|m]|]; auto.
      destruct (negb (can_search m)); auto.
      destruct (NAME_MAX <? length x); auto.
      apply IH. rewrite length_app. cbn [length] in *. lia.
    + intros ->. cbn [parts length] in Hlen. lia.
Qed.

Lemma absolute_child cwd p n : absolute cwd (child p n) = child (absolute cwd p) n.
Proof.
  unfold absolute, is_absolute, child. cbn [root parts].
  destruct (is_nonempty (root p)); cbn [root parts]; auto.
  rewrite app_assoc. reflexivity.
Qed.

Lemma parent_child a n : parent (child a n) = a.
Proof.
  unfold parent, child. destruct a as [r l]. cbn [root parts].
  rewrite removelast_last. reflexivity.
Qed.

Lemma split_on_plain sep s : ~ In sep s -> split_on sep s = [s].
Proof.
  induction s as [|a s IH]; intros H; simpl; auto.
  rewrite IH by (intros H'; apply H; right; exact H').
  destruct (Ascii.eqb a sep) eqn:E; auto.
  apply Ascii.eqb_eq in E. subst a. exfalso. apply H. left. reflexivity.
Qed.

(** The name of a job file is a single path component. *)
Lemma joinstr_job_name p X :
  ~ In "/"%char X ->
  joinstr p ("slurm-" ++ X ++ ".job") = child p ("slurm-" ++ X ++ ".job").
Proof.
  intros H. unfold joinstr, joinpath, parse_path, parse_parts.
  rewrite split_on_plain.
  - reflexivity.
  - intros Hin. apply in_app_or in Hin. destruct Hin as [Hin|Hin].
    + simpl in Hin. repeat (destruct Hin as [Hin|Hin]; [discriminate|]). exact Hin.
    + apply in_app_or in Hin. destruct Hin as [Hin|Hin]; [contradiction|].
      simpl in Hin. repeat (destruct Hin as [Hin|Hin]; [discriminate|]). exact Hin.
Qed.

Lemma child_parent a : parts a <> [] -> a = child (parent a) (last (parts a) []).
Proof.
  destruct a as [r l]. unfold child, parent. cbn [root parts]. intros H.
  f_equal. apply app_removelast_last. exact H.
Qed.

Lemma split_on_cons_plain sep a s : Ascii.eqb a sep = false ->
  exists x l, split_on sep (a :: s) = (a :: x) :: l.
Proof.
  intros H. cbn [split_on]. destruct (split_on sep s) as [|x l]; [eauto|].
  rewrite H. eauto.
Qed.

(** The name of a job file never parses to a rooted or empty path. *)
Lemma job_filename_path X :
  root (parse_path ("slurm-" ++ X ++ ".job")) = []
  /\ parts (parse_path ("slurm-" ++ X ++ ".job")) <> [].
Proof.
  split; [reflexivity|].
  unfold parse_path, parse_parts. cbn [parts].
  change ("slurm-" ++ X ++ ".job") with ("s"%char :: ("lurm-" ++ X ++ ".job")).
  destruct (split_on_cons_plain "/" "s" ("lurm-" ++ X ++ ".job") eq_refl)
    as (x & l & ->).
  cbn [filter is_nonempty str_eqb Ascii.eqb Bool.eqb andb negb]. discriminate.
Qed.

Lemma job_filepath_parts cwd args X :
  parts (absolute cwd (job_filepath args X)) <> [].
Proof.
  destruct (job_filename_path X) as [Hr Hp].
  unfold job_filepath, joinstr, joinpath. rewrite Hr. cbn [is_nonempty].
  unfold absolute. destruct (is_absolute _); cbn [parts]; intros E.
  - apply app_eq_nil in E. tauto.
  - apply app_eq_nil in E. destruct E as [_ E]. apply app_eq_nil in E. tauto.
Qed.

Lemma join_snoc sep l n :
  l <> [] -> join sep (l ++ [n]) = join sep l ++ sep ++ n.
Proof.
  induction l as [|x l IH]; intros H; [congruence|].
  destruct l as [|y l]; [reflexivity|].
  change (join sep ((x :: y :: l) ++ [n]))
    with (x ++ sep ++ join sep ((y :: l) ++ [n])).
  rewrite IH by discriminate.
  change (join sep (x :: y :: l)) with (x ++ sep ++ join sep (y :: l)).
  rewrite <- !app_assoc. reflexivity.
Qed.


Lemma path_str_length p :
  length (path_str p)
  = match root p, parts p with
    | [], [] => 1
    | r, l => length r + length (join "/" l)
    end.
Proof.
  unfold path_str. destruct (root p) as [|a r], (parts p) as [|x l];
    rewrite ?length_app; reflexivity.
Qed.

(** The path of an entry is no shorter than the path of its directory. *)
Lemma path_str_child_length q n :
  is_nonempty n = true -> length (path_str q) <= length (path_str (child q n)).
Proof.
  intros Hn. rewrite !path_str_length. unfold child. cbn [root parts].
  destruct (parts q) as [|x l] eqn:E.
  - cbn [app join]. destruct n; [discriminate Hn|].
    destruct (root q); simpl; lia.
  - assert (Hj : length (join "/" (x :: l))
                 <= length (join "/" ((x :: l) ++ [n]))).
    { rewrite join_snoc by discriminate. rewrite !length_app. lia. }
    destruct ((x :: l) ++ [n]) eqn:E'; [destruct l; discriminate E'|].
    destruct (root q); cbn [length] in *; lia.
Qed.


Lemma canonical_child a n :
  canonical (child a n) = canonical a && entry_name n.
Proof.
  unfold canonical, child. cbn [root parts]. rewrite forallb_app.
  cbn [forallb]. rewrite andb_true_r, andb_assoc. reflexivity.
Qed.

(** What a successful [stat_at] says. *)
Lemma stat_at_inr fs cwd p nd : stat_at fs cwd p = inr nd ->
  canonical (absolute cwd p) = true /\ length (path_str p) < PATH_MAX
  /\ walk_at fs cwd p = inr nd.
Proof.
  unfold stat_at. destruct (canonical (absolute cwd p)); [|discriminate].
  cbn [negb]. destruct (PATH_MAX <=? length (path_str p)) eqn:E; [discriminate|].
  apply Nat.leb_gt in E. auto.
Qed.

Lemma stat_at_walk fs cwd p :
  canonical (absolute cwd p) = true -> length (path_str p) < PATH_MAX ->
  stat_at fs cwd p = walk_at fs cwd p.
Proof.
  intros Hc Hl. unfold stat_at. rewrite Hc. cbn [negb].
  apply Nat.leb_gt in Hl. rewrite Hl. reflexivity.
Qed.


(** The last step of a system call's walk. *)
Lemma walk_at_child fs cwd q n :
  walk_at fs cwd (child q n) =
  match walk_at fs cwd q with
  | inr (Dir m) =>
      if negb (can_search m) then inl EACCES
      else if NAME_MAX <? length n then inl ENAMETOOLONG
      else match lookup fs (child (absolute cwd q) n) with
           | Some nd => inr nd
           | None => inl ENOENT
           end
  | inr (File _ _) => inl ENOTDIR
  | inl e => inl e
  end.
Proof.
  unfold walk_at, absolute, is_absolute, child. cbn [root parts].
  destruct (is_nonempty (root q)); rewrite walk_snoc; cbn [root parts app].
  - reflexivity.
  - rewrite app_assoc. reflexivity.
Qed.

Lemma stat_at_child fs cwd q n :
  canonical (absolute cwd q) = true -> entry_name n = true ->
  length (path_str (child q n)) < PATH_MAX ->
  stat_at fs cwd (child q n) =
  match stat_at fs cwd q with
  | inr (Dir m) =>
      if negb (can_search m) then inl EACCES
      else if NAME_MAX <? length n then inl ENAMETOOLONG
      else match lookup fs (child (absolute cwd q) n) with
           | Some nd => inr nd
           | None => inl ENOENT
           end
  | inr (File _ _) => inl ENOTDIR
  | inl e => inl e
  end.
Proof.
  intros Hc Hn Hl.
  assert (Hne : is_nonempty n = true).
  { unfold entry_name in Hn. destruct n; [discriminate Hn|reflexivity]. }
  pose proof (path_str_child_length q n Hne) as Hq.
  rewrite stat_at_walk.
  - rewrite (@stat_at_walk fs cwd q) by (auto; lia). apply walk_at_child.
  - rewrite absolute_child, canonical_child, Hc, Hn. reflexivity.
  - exact Hl.
Qed.

(** Storing a node does not change what is found above it. *)
Lemma stat_at_store fs cwd t nd q :
  length (parts (absolute cwd q)) < length (parts t) ->
  stat_at (store fs t nd) cwd q = stat_at fs cwd q.
Proof.
  intros H. unfold stat_at, walk_at.
  destruct (negb (canonical (absolute cwd q))); [reflexivity|].
  destruct (PATH_MAX <=? length (path_str q)); [reflexivity|].
  unfold absolute in H. destruct (is_absolute q).
  - apply walk_store. simpl. exact H.
  - apply walk_store. cbn [parts] in H. rewrite length_app in H. exact H.
Qed.

Lemma name_char_slash X : forallb name_char X = true -> ~ In "/"%char X.
Proof.
  intros H Hin. rewrite forallb_forall in H. apply H in Hin. discriminate.
Qed.

(** The name of a job file is the name of an entry. *)
Lemma entry_name_job_name X :
  forallb name_char X = true -> entry_name (job_name X) = true.
Proof.
  intros H. unfold entry_name, job_name.
  rewrite !forallb_app, H. reflexivity.
Qed.

(** Writing an entry of a directory that may be searched and written. *)
Lemma write_text_child q n data w m :
  stat_at (w_fs w) (w_cwd w) q = inr (Dir m) ->
  can_search m = true -> can_write m = true ->
  entry_name n = true -> length n <= NAME_MAX ->
  length (path_str (child q n)) < PATH_MAX ->
  replaceable (lookup (w_fs w) (child (absolute (w_cwd w) q) n)) = true ->
  ascii_text data = true ->
  exists m',
    write_text (child q n) data w =
      (Ok tt, mkWorld (store (w_fs w) (child (absolute (w_cwd w) q) n)
                             (File m' data))
                      (w_cwd w) (w_out w)).
Proof.
  intros Hd Hs Hw Hn Hl Hp Hr Ha.
  destruct (stat_at_inr _ _ _ Hd) as (Hc & _ & _).
  unfold write_text, on_node.
  rewrite absolute_child, canonical_child, Hc, Hn. cbn [andb].
  rewrite stat_at_child by assumption. rewrite Hd, Hs. cbn [negb].
  apply Nat.leb_le in Hl. rewrite Nat.ltb_antisym, Hl. cbn [negb].
  destruct (lookup (w_fs w) (child (absolute (w_cwd w) q) n)) as [[m' d|m']|];
    simpl in Hr; try discriminate.
  - rewrite Hr, Ha. exists m'. reflexivity.
  - rewrite parent_child, Hd, Hw, Ha. exists rw. reflexivity.
Qed.

End FileSystemFacts.

(** ** Printed lines *)

Section Lines.

Lemma ascii_text_app s t : ascii_text (s ++ t) = ascii_text s && ascii_text t.
Proof. apply forallb_app. Qed.

Lemma uint_ascii d :
  ascii_text (String.list_ascii_of_string
                (DecimalString.NilEmpty.string_of_uint d)) = true.
Proof. induction d; simpl; auto. Qed.

Lemma str_of_nat_ascii n : ascii_text (str_of_nat n) = true.
Proof. apply uint_ascii. Qed.

Lemma print_ok line w :
  ascii_text line = true ->
  print line w = (Ok tt, mkWorld (w_fs w) (w_cwd w) (w_out w ++ [line])).
Proof. unfold print. intros ->. reflexivity. Qed.

Lemma entry_name_ascii x : entry_name x = true -> ascii_text x = true.
Proof.
  unfold entry_name. intros H. apply andb_prop in H. destruct H as [_ H].
  apply forallb_forall. intros a Ha.
  rewrite forallb_forall in H. apply H in Ha. unfold name_char in Ha.
  apply andb_prop in Ha. destruct Ha as [Ha _].
  apply andb_prop in Ha. tauto.
Qed.

Lemma join_ascii l :
  forallb entry_name l = true -> ascii_text (join "/" l) = true.
Proof.
  induction l as [|x l IH]; intros H; [reflexivity|].
  cbn [forallb] in H. apply andb_prop in H. destruct H as [Hx Hl].
  destruct l as [|y l]; [exact (entry_name_ascii _ Hx)|].
  change (join "/" (x :: y :: l)) with (x ++ "/" ++ join "/" (y :: l)).
  rewrite !ascii_text_app, (entry_name_ascii _ Hx), IH by exact Hl. reflexivity.
Qed.

(** The path of a node, as the program wrote it, is ASCII text. *)
Lemma path_str_ascii cwd p :
  canonical (absolute cwd p) = true -> ascii_text (path_str p) = true.
Proof.
  unfold canonical, absolute, is_absolute.
  destruct (is_nonempty (root p)) eqn:E; cbn [root parts]; intros H;
    apply andb_prop in H; destruct H as [Hr Hp].
  - apply str_eqb_eq in Hr. unfold path_str. rewrite Hr.
    rewrite ascii_text_app, join_ascii by exact Hp. reflexivity.
  - rewrite forallb_app in Hp. apply andb_prop in Hp. destruct Hp as [_ Hp].
    unfold path_str. destruct (root p); [|discriminate E].
    destruct (parts p); [reflexivity|]. cbn [app]. apply join_ascii. exact Hp.
Qed.

Lemma found_line_ascii cwd n d :
  canonical (absolute cwd d) = true -> ascii_text (found_line n d) = true.
Proof.
  intros H. unfold found_line.
  rewrite !ascii_text_app, str_of_nat_ascii, (path_str_ascii _ _ H). reflexivity.
Qed.

Lemma grouped_line_ascii n k : ascii_text (grouped_line n k) = true.
Proof.
  unfold grouped_line. rewrite !ascii_text_app, !str_of_nat_ascii. reflexivity.
Qed.

End Lines.

(** ** Writing a job file *)

Section Emission.

Lemma bind_ok {A B} (c : M A) (k : A -> M B) w a w' :
  c w = (Ok a, w') -> bind c k w = k a w'.
Proof. unfold bind. intros ->. reflexivity. Qed.

Lemma bind_lift_ok {A B} (r : result A) (k : A -> M B) w a :
  r = Ok a -> bind (lift r) k w = k a w.
Proof. intros ->. reflexivity. Qed.

Lemma bind_lift_raise {A B} (r : result A) (k : A -> M B) w e :
  r = Raise e -> bind (lift r) k w = (Raise e, w).
Proof. intros ->. reflexivity. Qed.

Lemma job_filename_format X :
  format "slurm-{}.job" [VStr X] [] = Ok ("slurm-" ++ X ++ ".job").
Proof.
  unfold format.
  change "slurm-{}.job" with ("slurm-" ++ "{"%char :: "}"%char :: ".job").
  rewrite format_go_text_auto by reflexivity.
  cbn [field_value nth_error py_str].
  rewrite format_go_text by reflexivity.
  rewrite <- !app_assoc. reflexivity.
Qed.

Lemma wrote_line_format (a b c d : value) :
  format "Wrote {} for sample {} with inputs {} {}" [a; b; c; d] [] =
  Ok ("Wrote " ++ py_str a ++ " for sample " ++ py_str b
      ++ " with inputs " ++ py_str c ++ " " ++ py_str d).
Proof.
  unfold format.
  change "Wrote {} for sample {} with inputs {} {}"
    with ("Wrote " ++ "{"%char :: "}"%char ::
          (" for sample " ++ "{"%char :: "}"%char ::
           (" with inputs " ++ "{"%char :: "}"%char ::
            (" " ++ "{"%char :: "}"%char :: [])))).
  rewrite format_go_text_auto by reflexivity. cbn [field_value nth_error].
  rewrite format_go_text_auto by reflexivity. cbn [field_value nth_error].
  rewrite format_go_text_auto by reflexivity. cbn [field_value nth_error].
  rewrite format_go_text_auto by reflexivity. cbn [field_value nth_error].
  cbn [format_go]. rewrite <- !app_assoc. reflexivity.
Qed.

Lemma lookup_kw_unknown args sample paths nm :
  ~ In nm recognized -> lookup_kw nm (job_kwargs args sample paths) = None.
Proof.
  intros H. unfold job_kwargs. cbn [lookup_kw].
  repeat match goal with
         | |- context [str_eqb ?k nm] =>
             let E := fresh "E" in
             destruct (str_eqb k nm) eqn:E;
             [apply str_eqb_eq in E; subst nm; exfalso; apply H;
              unfold recognized; simpl; tauto|]
         end.
  reflexivity.
Qed.


Lemma job_directory_inv args w : job_directory args w = true ->
  exists m, stat_at (w_fs w) (w_cwd w) (jobs args) = inr (Dir m)
            /\ can_search m = true /\ can_write m = true.
Proof.
  unfold job_directory.
  destruct (stat_at (w_fs w) (w_cwd w) (jobs args)) as [e|[m d|m]];
    try discriminate.
  intros H. apply andb_prop in H. exists m. tauto.
Qed.

Lemma job_slot_inv args w X : job_slot args w X = true ->
  forallb name_char X = true /\ length (job_name X) <= NAME_MAX
  /\ length (path_str (child (jobs args) (job_name X))) < PATH_MAX
  /\ replaceable (lookup (w_fs w)
                    (child (absolute (w_cwd w) (jobs args)) (job_name X))) = true.
Proof.
  unfold job_slot. intros H.
  apply andb_prop in H. destruct H as [H H4].
  apply andb_prop in H. destruct H as [H H3].
  apply andb_prop in H. destruct H as [H1 H2].
  apply Nat.leb_le in H2. apply Nat.ltb_lt in H3. auto.
Qed.

(** One round of the loop of [main]: the job file gets the formatted
    template and the line is printed. *)
Lemma write_job_child args tmpl X ms w job :
  job_directory args w = true -> job_slot args w X = true ->
  format tmpl [] (job_kwargs args X ms) = Ok job -> ascii_text job = true ->
  ascii_text (wrote_line args X ms) = true ->
  exists m',
    write_job args tmpl (X, ms) w
    = (Ok tt,
       mkWorld (store (w_fs w) (child (absolute (w_cwd w) (jobs args)) (job_name X))
                      (File m' job))
               (w_cwd w) (w_out w ++ [wrote_line args X ms])).
Proof.
  intros Hd Hs Hf Ha Hline.
  destruct (job_directory_inv _ _ Hd) as (m & Hst & Hsr & Hw).
  destruct (job_slot_inv _ _ _ Hs) as (Hx & Hn & Hp & Hr).
  unfold write_job. cbn [fst snd].
  rewrite bind_lift_ok with (1 := job_filename_format X).
  rewrite bind_lift_ok with (1 := Hf).
  rewrite joinstr_job_name by (apply name_char_slash; exact Hx).
  fold (job_name X).
  destruct (@write_text_child (jobs args) (job_name X) job w m)
    as (m' & Hwt); auto.
  { apply entry_name_job_name. exact Hx. }
  rewrite bind_ok with (1 := Hwt).
  rewrite bind_lift_ok with (1 := wrote_line_format _ _ _ _).
  exists m'. unfold print.
  match goal with
  | |- (if ascii_text ?l then _ else _) = _ =>
      replace (ascii_text l) with true by (symmetry; exact Hline)
  end.
  reflexivity.
Qed.


End Emission.




(** C6, as stated, fails: a template that names the unknown placeholder
    [sample] makes the run end in a [KeyError], not a [TemplateError]; and
    a template that mentions none of [genome], [fwd], [rev] is accepted:
    the run ends normally and the job file holds the template's text. *)
Lemma C6_template_counterexample :
  let r := fst (main (example_args "data") (example_world "run {sample}" example_pair)) in
  let w2 := snd (main (example_args "data") (example_world "echo hello" example_pair)) in
  r = Raise (KeyError "sample")
  /\ (forall e, r = Raise e -> exn_class e <> "TemplateError")
  /\ fst (main (example_args "data") (example_world "echo hello" example_pair)) = Ok tt
  /\ stat (w_fs w2) (parse_path "/work/jobs/slurm-sample.job")
     = inr (File rw "echo hello").
Proof.
  assert (H : fst (main (example_args "data")
                        (example_world "run {sample}" example_pair))
              = Raise (KeyError "sample")) by (vm_compute; reflexivity).
  cbv zeta. rewrite H. split; [reflexivity|]. split; [|split].
  - intros e He. injection He as <-. vm_compute. discriminate.
  - vm_compute. reflexivity.
  - vm_compute. reflexivity.
Qed.

(** C6, amended: when the template names a keyword placeholder that is
    not one of [genome], [output], [reference], [fwd], [rev] (the text
    before it formats, and the name is one [str.format] looks up as a
    keyword: it holds none of the characters that start a conversion, a
    format specification, an attribute or an index, and is not read as a
    number), writing a job fails with a [KeyError] carrying that name, and
    nothing is written.  A template without any placeholder is accepted,
    so none of [genome], [fwd], [rev] is mandatory: where the job file has
    its place and the template and the line to print are ASCII, the job
    file is written and holds the text of the template as it was read. *)
Theorem C6_unknown_placeholder_KeyError :
  (forall (args : Namespace) (sample_name : str) (paths : mates)
          (pre nm post out : str) (w : world),
     format pre [] (job_kwargs args sample_name paths) = Ok out ->
     keyword_name nm = true ->
     ~ In nm recognized ->
     write_job args (pre ++ "{"%char :: nm ++ "}"%char :: post)
               (sample_name, paths) w
     = (Raise (KeyError nm), w))
  /\ (forall (args : Namespace) (sample_name : str) (paths : mates) (tmpl : str)
             (w : world),
        ~ In "{"%char tmpl -> ~ In "}"%char tmpl -> ascii_text tmpl = true ->
        job_directory args w = true -> job_slot args w sample_name = true ->
        ascii_text (wrote_line args sample_name paths) = true ->
        exists m',
          write_job args tmpl (sample_name, paths) w
          = (Ok tt,
             mkWorld (store (w_fs w)
                            (child (absolute (w_cwd w) (jobs args))
                                   (job_name sample_name))
                            (File m' tmpl))
                     (w_cwd w) (w_out w ++ [wrote_line args sample_name paths]))).
Proof.
  split.
  - intros args sample_name paths pre nm post out w Hpre Hnm Hun.
    unfold write_job. cbn [fst snd].
    rewrite bind_lift_ok with (1 := job_filename_format sample_name).
    apply bind_lift_raise.
    apply format_unknown with (out := out); auto.
    apply lookup_kw_unknown. exact Hun.
  - intros args sample_name paths tmpl w Ho Hc Ha Hd Hs Hline.
    apply write_job_child; auto. apply format_literal; assumption.
Qed.

Lemma C6_unknown_placeholder_KeyError_witness :
  write_job (example_args "data") "run {sample} now"
            ("s", mkMates (parse_path "/a_1.fq") (parse_path "/a_2.fq"))
            (example_world "run {sample} now" [])
  = (Raise (KeyError "sample"), example_world "run {sample} now" [])
  /\ exists m',
       write_job (example_args "data") "echo hello"
                 ("s", mkMates (parse_path "/a_1.fq") (parse_path "/a_2.fq"))
                 (example_world "echo hello" [])
       = (Ok tt,
          mkWorld (store (example_fs "echo hello" [])
                         (parse_path "/work/jobs/slurm-s.job")
                         (File m' "echo hello"))
                  (parse_path "/work")
                  [wrote_line (example_args "data") "s"
                     (mkMates (parse_path "/a_1.fq") (parse_path "/a_2.fq"))]).
Proof.
  split.
  - apply (proj1 C6_unknown_placeholder_KeyError (example_args "data") "s"
             (mkMates (parse_path "/a_1.fq") (parse_path "/a_2.fq"))
             "run " "sample" " now" "run ").
    + reflexivity.
    + reflexivity.
    + unfold recognized. simpl. intros H.
      repeat (destruct H as [H|H]; [discriminate|]). exact H.
  - apply (proj2 C6_unknown_placeholder_KeyError (example_args "data") "s"
             (mkMates (parse_path "/a_1.fq") (parse_path "/a_2.fq"))
             "echo hello" (example_world "echo hello" [])).
    + simpl. intros H. repeat (destruct H as [H|H]; [discriminate|]). exact H.
    + simpl. intros H. repeat (destruct H as [H|H]; [discriminate|]). exact H.
    + reflexivity.
    + reflexivity.
    + reflexivity.
    + reflexivity.
Defined.

(** ** Discovery *)

Section DiscoveryFacts.

Lemma startswith_iff p : forall s,
  startswith p s = true <-> exists t, s = p ++ t.
Proof.
  induction p as [|a p IH]; intros s; simpl.
  - split; eauto.
  - destruct s as [|b s].
    + split; [discriminate|]. intros [t H]. discriminate.
    + rewrite andb_true_iff, Ascii.eqb_eq, IH. split.
      * intros [-> [t ->]]. eauto.
      * intros [t H]. injection H as -> ->. eauto.
Qed.

Lemma endswith_iff suf n :
  endswith suf n = true <-> exists pre, n = pre ++ suf.
Proof.
  unfold endswith. rewrite startswith_iff. split.
  - intros [t H]. exists (List.rev t).
    rewrite <- (rev_involutive n), H, rev_app_distr, rev_involutive.
    reflexivity.
  - intros [pre ->]. exists (List.rev pre). apply rev_app_distr.
Qed.

Lemma fnmatch_literal pat : forallb literal_char pat = true ->
  forall n, fnmatch pat n = str_eqb pat n.
Proof.
  induction pat as [|c pat IH]; intros Hl n.
  - destruct n; reflexivity.
  - cbn [forallb] in Hl. apply andb_prop in Hl. destruct Hl as [Hc Hl].
    unfold literal_char in Hc. apply andb_prop in Hc. destruct Hc as [H1 H2].
    apply negb_true_iff in H1, H2.
    cbn [fnmatch]. rewrite H1. destruct n as [|a n]; [reflexivity|].
    rewrite H2. cbn [orb str_eqb]. rewrite IH by assumption. reflexivity.
Qed.

Lemma fnmatch_star_cons pat a n :
  fnmatch ("*"%char :: pat) (a :: n)
  = fnmatch pat (a :: n) || fnmatch ("*"%char :: pat) n.
Proof. reflexivity. Qed.

Lemma fnmatch_star_nil pat :
  fnmatch ("*"%char :: pat) [] = fnmatch pat [] || false.
Proof. reflexivity. Qed.

(** [*suf] matches the names that end with [suf]. *)
Lemma fnmatch_star_iff suf : forallb literal_char suf = true ->
  forall n, fnmatch ("*"%char :: suf) n = true <-> exists pre, n = pre ++ suf.
Proof.
  intros Hl. induction n as [|a n IH].
  - rewrite fnmatch_star_nil, orb_false_r, fnmatch_literal by assumption.
    rewrite str_eqb_eq. split.
    + intros ->. exists []. reflexivity.
    + intros [pre H]. symmetry in H. apply app_eq_nil in H. tauto.
  - rewrite fnmatch_star_cons, orb_true_iff, IH, fnmatch_literal by assumption.
    rewrite str_eqb_eq. split.
    + intros [->|[pre ->]]; [exists []|exists (a :: pre)]; reflexivity.
    + intros [[|b pre] H]; simpl in H.
      * left. auto.
      * right. injection H as _ ->. eauto.
Qed.

Lemma fnmatch_star_endswith suf n : forallb literal_char suf = true ->
  fnmatch ("*"%char :: suf) n = endswith suf n.
Proof.
  intros Hl. apply eq_true_iff_eq.
  rewrite fnmatch_star_iff, endswith_iff by assumption. reflexivity.
Qed.

(** Some pattern of [get_fastq_paths] matches exactly the names with a
    recognised extension. *)
Lemma glob_patterns_suffix n :
  existsb (fun pat => fnmatch pat n) glob_patterns = has_fastq_suffix n.
Proof.
  unfold glob_patterns, has_fastq_suffix, fastq_suffixes. cbn [existsb].
  change "*.fq" with ("*"%char :: ".fq").
  change "*.fq.gz" with ("*"%char :: ".fq.gz").
  change "*.fq.bz2" with ("*"%char :: ".fq.bz2").
  change "*.fastq" with ("*"%char :: ".fastq").
  change "*.fastq.gz" with ("*"%char :: ".fastq.gz").
  change "*.fastq.bz2" with ("*"%char :: ".fastq.bz2").
  rewrite !fnmatch_star_endswith by reflexivity.
  destruct (endswith ".fq" n), (endswith ".fastq" n), (endswith ".fq.gz" n),
    (endswith ".fastq.gz" n), (endswith ".fq.bz2" n), (endswith ".fastq.bz2" n);
    reflexivity.
Qed.




(** Elsewhere discovery finds nothing. *)
Lemma discover_unlistable fs cwd d :
  (forall m, stat_at fs cwd d = inr (Dir m) -> can_read m = false) ->
  discover fs cwd d = [].
Proof.
  intros H. unfold discover, glob_patterns, glob_list. cbn [map concat].
  destruct (stat_at fs cwd d) as [e|[m data|m]]; try reflexivity.
  rewrite (H m eq_refl). reflexivity.
Qed.

Lemma filter_none {A} (f : A -> bool) l :
  (forall x, In x l -> f x = false) -> filter f l = [].
Proof.
  induction l as [|a l IH]; intros H; simpl; auto.
  rewrite (H a (or_introl eq_refl)). apply IH. intros x Hx. apply H. right. exact Hx.
Qed.

Lemma discover_no_match fs cwd d :
  (forall n, In n (scandir fs (absolute cwd d)) -> has_fastq_suffix n = false) ->
  discover fs cwd d = [].
Proof.
  intros H.
  assert (Hg : forall pat, In pat glob_patterns -> glob_list fs cwd d pat = []).
  { intros pat Hpat. unfold glob_list.
    destruct (stat_at fs cwd d) as [e|[m data|m]]; try reflexivity.
    destruct (can_read m); [|reflexivity].
    rewrite filter_none; [reflexivity|].
    intros n Hn. apply H in Hn. rewrite <- glob_patterns_suffix in Hn.
    destruct (fnmatch pat n) eqn:E; auto.
    rewrite <- Hn. symmetry. apply existsb_exists. eauto. }
  unfold discover.
  replace (map (glob_list fs cwd d) glob_patterns)
    with (map (fun _ : str => @nil Path) glob_patterns).
  - reflexivity.
  - apply map_ext_in. intros pat Hpat. symmetry. apply Hg. exact Hpat.
Qed.


End DiscoveryFacts.

Section DiscoveryShape.




Lemma child_inj D n n' : child D n = child D n' -> n = n'.
Proof.
  unfold child. intros H. injection H as H. apply app_inj_tail in H. tauto.
Qed.


End DiscoveryShape.

(** ** The run *)

Section Run.

Lemma mapM_pure {A B} (f : A -> M B) (g : A -> B) w l :
  (forall a, f a w = (Ok (g a), w)) -> mapM f l w = (Ok (map g l), w).
Proof.
  intros H. induction l as [|a l IH]; [reflexivity|].
  cbn [mapM map]. rewrite bind_ok with (1 := H a).
  rewrite bind_ok with (1 := IH). reflexivity.
Qed.

Lemma extensions_eq w :
  mapM (fun ab => lift (format "*{}{}" [VStr (fst ab); VStr (snd ab)] []))
       (product [".fq"; ".fastq"] [""; ".gz"; ".bz2"]) w
  = (Ok glob_patterns, w).
Proof. reflexivity. Qed.

Lemma found_line_format (a b : value) :
  format "Found {} fastqs in {}" [a; b] [] =
  Ok ("Found " ++ py_str a ++ " fastqs in " ++ py_str b).
Proof.
  unfold format.
  change "Found {} fastqs in {}"
    with ("Found " ++ "{"%char :: "}"%char ::
          (" fastqs in " ++ "{"%char :: "}"%char :: [])).
  rewrite format_go_text_auto by reflexivity. cbn [field_value nth_error].
  rewrite format_go_text_auto by reflexivity. cbn [field_value nth_error].
  cbn [format_go]. rewrite <- !app_assoc. reflexivity.
Qed.

Lemma grouped_line_format (a b : value) :
  format "Grouped {} FASTQs into {} samples" [a; b] [] =
  Ok ("Grouped " ++ py_str a ++ " FASTQs into " ++ py_str b ++ " samples").
Proof.
  unfold format.
  change "Grouped {} FASTQs into {} samples"
    with ("Grouped " ++ "{"%char :: "}"%char ::
          (" FASTQs into " ++ "{"%char :: "}"%char :: " samples")).
  rewrite format_go_text_auto by reflexivity. cbn [field_value nth_error].
  rewrite format_go_text_auto by reflexivity. cbn [field_value nth_error].
  rewrite format_go_text by reflexivity.
  rewrite <- !app_assoc. reflexivity.
Qed.

Lemma glob_ok fs cwd out d pat :
  listing_ok fs cwd d = true ->
  glob d pat (mkWorld fs cwd out) = (Ok (glob_list fs cwd d pat), mkWorld fs cwd out).
Proof.
  unfold listing_ok, glob, on_node, glob_list. cbn [w_fs w_cwd]. intros H.
  apply andb_prop in H. destruct H as [Hc Hs]. rewrite Hc.
  destruct (stat_at fs cwd d) as [e|nd]; [rewrite Hs|]; reflexivity.
Qed.

Lemma stat_at_listing fs cwd d nd :
  stat_at fs cwd d = inr nd -> listing_ok fs cwd d = true.
Proof.
  intros H. unfold listing_ok. rewrite H.
  destruct (stat_at_inr _ _ _ H) as (Hc & _). rewrite Hc. reflexivity.
Qed.

(** Discovery finds something only in a directory that may be read. *)
Lemma discover_nonempty fs cwd d :
  discover fs cwd d <> [] ->
  exists m, stat_at fs cwd d = inr (Dir m) /\ can_read m = true.
Proof.
  intros H. destruct (stat_at fs cwd d) as [e|[m data|m]] eqn:E.
  - exfalso. apply H. unfold discover, glob_patterns, glob_list. rewrite E.
    reflexivity.
  - exfalso. apply H. unfold discover, glob_patterns, glob_list. rewrite E.
    reflexivity.
  - exists m. split; [reflexivity|]. destruct (can_read m) eqn:R; [reflexivity|].
    exfalso. apply H. unfold discover, glob_patterns, glob_list. rewrite E, R.
    reflexivity.
Qed.

(** Discovery returns [discover] and prints one line. *)
Lemma get_fastq_paths_eq d w :
  listing_ok (w_fs w) (w_cwd w) d = true ->
  get_fastq_paths d w =
  (Ok (discover (w_fs w) (w_cwd w) d),
   mkWorld (w_fs w) (w_cwd w)
           (w_out w ++ ["Found " ++ str_of_nat (length (discover (w_fs w) (w_cwd w) d))
                        ++ " fastqs in " ++ path_str d])).
Proof.
  intros Hl. unfold get_fastq_paths.
  rewrite bind_ok with (1 := extensions_eq w).
  destruct w as [fs cwd out]. cbn [w_fs w_cwd w_out] in *.
  rewrite bind_ok
    with (1 := @mapM_pure _ _ (glob d) (glob_list fs cwd d) (mkWorld fs cwd out)
                          glob_patterns (fun pat => @glob_ok fs cwd out d pat Hl)).
  rewrite bind_ok
    with (1 := @mapM_pure _ _ absoluteM (absolute cwd) (mkWorld fs cwd out) _
                          (fun a => eq_refl)).
  rewrite bind_lift_ok with (1 := found_line_format _ _).
  apply andb_prop in Hl. destruct Hl as [Hc _].
  unfold bind at 1. unfold print at 1.
  match goal with
  | |- context [ascii_text ?l] =>
      replace (ascii_text l) with true
        by (symmetry; exact (@found_line_ascii cwd _ d Hc))
  end.
  reflexivity.
Qed.

(** When the directory cannot be reached, discovery raises at once. *)
Lemma get_fastq_paths_raise d w e :
  canonical (absolute (w_cwd w) d) = true ->
  stat_at (w_fs w) (w_cwd w) d = inl e -> ignored e = false ->
  get_fastq_paths d w = (Raise (os_error e (path_str d)), w).
Proof.
  intros Hc Hs Hi. unfold get_fastq_paths.
  rewrite bind_ok with (1 := extensions_eq w).
  unfold glob_patterns. cbn [mapM]. unfold bind at 1. unfold bind at 1.
  unfold glob at 1, on_node. rewrite Hc, Hs, Hi. reflexivity.
Qed.

Lemma read_text_world p w : snd (read_text p w) = w.
Proof.
  unfold read_text, on_node.
  destruct (canonical (absolute (w_cwd w) p)); [|reflexivity].
  destruct (stat_at (w_fs w) (w_cwd w) p) as [e|[m data|m]];
    try reflexivity; destruct (can_read m); reflexivity.
Qed.

Lemma read_text_ok p w tmpl :
  fst (read_text p w) = Ok tmpl -> read_text p w = (Ok tmpl, w).
Proof.
  intros H. rewrite (surjective_pairing (read_text p w)), H, read_text_world.
  reflexivity.
Qed.

Lemma read_text_raise p w e :
  fst (read_text p w) = Raise e -> read_text p w = (Raise e, w).
Proof.
  intros H. rewrite (surjective_pairing (read_text p w)), H, read_text_world.
  reflexivity.
Qed.

(** A run that discovers nothing writes nothing and ends normally. *)
Lemma main_nothing_found args w tmpl :
  fst (read_text (template args) w) = Ok tmpl ->
  listing_ok (w_fs w) (w_cwd w) (fastqs args) = true ->
  discover (w_fs w) (w_cwd w) (fastqs args) = [] ->
  main args w =
  (Ok tt, mkWorld (w_fs w) (w_cwd w)
                  (w_out w ++ ["Found 0 fastqs in " ++ path_str (fastqs args);
                               "Grouped 0 FASTQs into 0 samples"])).
Proof.
  intros Ht Hl Hd. unfold main.
  rewrite bind_ok with (1 := read_text_ok _ _ Ht).
  rewrite bind_ok with (1 := get_fastq_paths_eq _ _ Hl).
  rewrite Hd.
  assert (Hg : forall w0, group_fastqs [] w0
                = (Ok [], mkWorld (w_fs w0) (w_cwd w0)
                            (w_out w0 ++ ["Grouped 0 FASTQs into 0 samples"])))
    by reflexivity.
  rewrite bind_ok with (1 := Hg _).
  cbn [for_each ret w_fs w_cwd w_out length]. rewrite <- app_assoc. reflexivity.
Qed.

(** A run that cannot reach the directory stops in discovery. *)
Lemma main_unreachable args w tmpl e :
  fst (read_text (template args) w) = Ok tmpl ->
  canonical (absolute (w_cwd w) (fastqs args)) = true ->
  stat_at (w_fs w) (w_cwd w) (fastqs args) = inl e -> ignored e = false ->
  main args w = (Raise (os_error e (path_str (fastqs args))), w).
Proof.
  intros Ht Hc Hs Hi. unfold main.
  rewrite bind_ok with (1 := read_text_ok _ _ Ht).
  unfold bind. rewrite get_fastq_paths_raise with (e := e) by assumption.
  reflexivity.
Qed.

Lemma insert_sorted_length x l : length (insert_sorted x l) = S (length l).
Proof.
  induction l as [|y l IH]; simpl; auto.
  destruct (path_ltb y x); simpl; auto.
Qed.

Lemma sorted_length l : length (sorted l) = length l.
Proof.
  induction l as [|x l IH]; simpl; auto.
  rewrite insert_sorted_length, IH. reflexivity.
Qed.

(** Unpacking succeeds on two or more paths and fails on one. *)
Lemma unpack_mates_cases paths : paths <> [] ->
  (2 <= length paths /\ exists m, unpack_mates paths = Ok m)
  \/ (length paths = 1 /\ unpack_mates paths = Raise unpack_error).
Proof.
  intros Hne. unfold unpack_mates.
  pose proof (sorted_length paths) as Hl.
  destruct (sorted paths) as [|f [|r l]]; simpl in Hl.
  - destruct paths; [congruence|discriminate].
  - right. split; [auto|reflexivity].
  - left. split; [lia|eauto].
Qed.

Lemma dict_append_nonempty k v d :
  (forall item, In item d -> snd item <> []) ->
  forall item, In item (dict_append k v d) -> snd item <> [].
Proof.
  induction d as [|[k' vs] d IH]; intros H item Hin; simpl in Hin.
  - destruct Hin as [<-|[]]. discriminate.
  - destruct (str_eqb k' k).
    + destruct Hin as [<-|Hin].
      * simpl. intros E. apply app_eq_nil in E. destruct E. discriminate.
      * apply H. right. exact Hin.
    + destruct Hin as [<-|Hin].
      * apply (H (k', vs)). left. reflexivity.
      * apply IH; auto. intros i Hi. apply H. right. exact Hi.
Qed.

(** No group is empty. *)
Lemma genome_fastqs_nonempty fastqs item :
  In item (genome_fastqs fastqs) -> snd item <> [].
Proof.
  unfold genome_fastqs.
  assert (G : forall l d, (forall i, In i d -> snd i <> []) ->
              forall i, In i (fold_left (fun d fastq =>
                                 dict_append (genome_name fastq) fastq d) l d) ->
              snd i <> []).
  { induction l as [|x l IH]; intros d Hd i Hi; simpl in Hi.
    - apply Hd. exact Hi.
    - eapply IH; [|exact Hi]. apply dict_append_nonempty. exact Hd. }
  apply G. intros i [].
Qed.

(** The second loop of [group_fastqs] stops at the first group of one. *)
Lemma pairing_fails (items : list (str * list Path)) : forall acc w,
  (forall item, In item items -> snd item <> []) ->
  (exists item, In item items /\ length (snd item) < 2) ->
  foldM (fun fwd_rev item =>
           m <- lift (unpack_mates (snd item)) ;;
           ret (dict_set (fst item) m fwd_rev))
        items acc w
  = (Raise unpack_error, w).
Proof.
  induction items as [|it items IH]; intros acc w Hne [bad [Hin Hbad]].
  - destruct Hin.
  - cbn [foldM].
    destruct (unpack_mates_cases (Hne it (or_introl eq_refl)))
      as [[Hlen [m Hm]]|[Hlen Hm]].
    + unfold bind at 1. unfold bind at 1. unfold lift at 1. rewrite Hm.
      cbn [ret]. apply IH.
      * intros i Hi. apply Hne. right. exact Hi.
      * destruct Hin as [->|Hin]; [lia|]. eauto.
    + unfold bind at 1. unfold bind at 1. unfold lift at 1. rewrite Hm.
      reflexivity.
Qed.

Lemma group_fastqs_fails fastqs w :
  (exists item, In item (genome_fastqs fastqs) /\ length (snd item) < 2) ->
  group_fastqs fastqs w = (Raise unpack_error, w).
Proof.
  intros H. unfold group_fastqs. unfold bind at 1.
  rewrite pairing_fails; auto.
  intros item. apply genome_fastqs_nonempty.
Qed.

End Run.



(** C5, as stated, fails: when the [fastqs] directory does not exist the
    run raises nothing; it reports zero files and zero samples and ends
    with status 0. *)
Lemma C5_missing_directory_counterexample :
  let w := example_world "run {genome}" example_pair in
  let args := example_args "nodata" in
  stat (w_fs w) (absolute (w_cwd w) (fastqs args)) = inl ENOENT
  /\ fst (main args w) = Ok tt
  /\ (forall e, fst (main args w) <> Raise e)
  /\ exit_status (fst (main args w)) = Some 0
  /\ w_out (snd (main args w))
     = ["Found 0 fastqs in nodata"; "Grouped 0 FASTQs into 0 samples"].
Proof.
  assert (H : main (example_args "nodata") (example_world "run {genome}" example_pair)
              = (Ok tt, mkWorld (example_fs "run {genome}" example_pair)
                                (parse_path "/work")
                                ["Found 0 fastqs in nodata";
                                 "Grouped 0 FASTQs into 0 samples"]))
    by (vm_compute; reflexivity).
  cbv zeta. rewrite H. repeat split; try reflexivity. intros e. discriminate.
Qed.

(** C5, amended: when the [fastqs] directory does not exist, is not a
    directory or may not be read, discovery returns no path and raises
    nothing; with a readable template the run then writes no job file,
    prints its two summary lines and ends normally.  Only when the path of
    the directory cannot be followed, because a directory on the way may
    not be searched or a name is too long, does the run fail: with the
    [PermissionError] (or [OSError]) of the failed [stat], which carries
    the directory as it was given, before anything is printed or written. *)
Theorem C5_unlistable_directory :
  forall (args : Namespace) (w : world) (tmpl : str),
  fst (read_text (template args) w) = Ok tmpl ->
  canonical (absolute (w_cwd w) (fastqs args)) = true ->
  ((stat_at (w_fs w) (w_cwd w) (fastqs args) = inl ENOENT
    \/ stat_at (w_fs w) (w_cwd w) (fastqs args) = inl ENOTDIR
    \/ (exists m data, stat_at (w_fs w) (w_cwd w) (fastqs args) = inr (File m data))
    \/ (exists m, stat_at (w_fs w) (w_cwd w) (fastqs args) = inr (Dir m)
                  /\ can_read m = false)) ->
   fst (get_fastq_paths (fastqs args) w) = Ok []
   /\ main args w =
      (Ok tt, mkWorld (w_fs w) (w_cwd w)
                      (w_out w ++ ["Found 0 fastqs in " ++ path_str (fastqs args);
                                   "Grouped 0 FASTQs into 0 samples"])))
  /\ (forall e, stat_at (w_fs w) (w_cwd w) (fastqs args) = inl e ->
        ignored e = false ->
        get_fastq_paths (fastqs args) w
        = (Raise (os_error e (path_str (fastqs args))), w)
        /\ main args w = (Raise (os_error e (path_str (fastqs args))), w)
        /\ exit_status (fst (main args w)) = Some 1).
Proof.
  intros args w tmpl Ht Hc. split.
  - intros Hu.
    assert (Hl : listing_ok (w_fs w) (w_cwd w) (fastqs args) = true).
    { unfold listing_ok. rewrite Hc.
      destruct Hu as [H|[H|[(m & d & H)|(m & H & _)]]]; rewrite H; reflexivity. }
    assert (Hd : discover (w_fs w) (w_cwd w) (fastqs args) = []).
    { apply discover_unlistable. intros m Hm.
      destruct Hu as [H|[H|[(m' & d & H)|(m' & H & Hr)]]];
        rewrite H in Hm; try discriminate.
      injection Hm as <-. exact Hr. }
    split.
    + rewrite get_fastq_paths_eq by exact Hl. rewrite Hd. reflexivity.
    + apply main_nothing_found with (tmpl := tmpl); assumption.
  - intros e Hs Hi.
    pose proof (@main_unreachable args w tmpl e Ht Hc Hs Hi) as Hm.
    split; [apply get_fastq_paths_raise; assumption|].
    split; [exact Hm|]. rewrite Hm. reflexivity.
Qed.

Lemma C5_unlistable_directory_witness :
  (let w := example_world "run {genome}" example_pair in
   let args := example_args "nodata" in
   fst (get_fastq_paths (fastqs args) w) = Ok []
   /\ main args w =
      (Ok tt, mkWorld (w_fs w) (w_cwd w)
                      (w_out w ++ ["Found 0 fastqs in " ++ path_str (fastqs args);
                                   "Grouped 0 FASTQs into 0 samples"])))
  /\ (let w := locked_world "run {genome}" example_pair in
      let args := example_args "locked/data" in
      get_fastq_paths (fastqs args) w = (Raise (PermissionError "locked/data"), w)
      /\ main args w = (Raise (PermissionError "locked/data"), w)
      /\ exit_status (fst (main args w)) = Some 1).
Proof.
  split.
  - apply (proj1 (@C5_unlistable_directory (example_args "nodata")
                    (example_world "run {genome}" example_pair) "run {genome}"
                    eq_refl eq_refl)).
    left. reflexivity.
  - apply (proj2 (@C5_unlistable_directory (example_args "locked/data")
                    (locked_world "run {genome}" example_pair) "run {genome}"
                    eq_refl eq_refl) EACCES).
    + reflexivity.
    + reflexivity.
Defined.

(** C9: with a readable template and a [fastqs] directory that exists,
    when no entry of the directory has a recognised extension the run
    writes no job file (the file system is left as it was), prints
    [Found 0 fastqs in <dir>] and [Grouped 0 FASTQs into 0 samples], and
    ends with status 0. *)
Theorem C9_no_matching_files :
  forall (args : Namespace) (w : world) (tmpl : str) (m : perms),
  fst (read_text (template args) w) = Ok tmpl ->
  stat_at (w_fs w) (w_cwd w) (fastqs args) = inr (Dir m) ->
  (forall n, In n (scandir (w_fs w) (absolute (w_cwd w) (fastqs args))) ->
             has_fastq_suffix n = false) ->
  fst (main args w) = Ok tt
  /\ w_fs (snd (main args w)) = w_fs w
  /\ w_out (snd (main args w))
     = w_out w ++ ["Found 0 fastqs in " ++ path_str (fastqs args);
                   "Grouped 0 FASTQs into 0 samples"]
  /\ exit_status (fst (main args w)) = Some 0.
Proof.
  intros args w tmpl m Ht Hs Hn.
  rewrite main_nothing_found with (tmpl := tmpl); auto.
  - apply stat_at_listing with (1 := Hs).
  - apply discover_no_match. exact Hn.
Qed.

Lemma C9_no_matching_files_witness :
  let w := example_world "run {genome}" ["notes.txt"; "reads.FASTQ"] in
  let args := example_args "data" in
  fst (main args w) = Ok tt
  /\ w_fs (snd (main args w)) = w_fs w
  /\ w_out (snd (main args w))
     = w_out w ++ ["Found 0 fastqs in " ++ path_str (fastqs args);
                   "Grouped 0 FASTQs into 0 samples"]
  /\ exit_status (fst (main args w)) = Some 0.
Proof.
  apply (@C9_no_matching_files (example_args "data")
           (example_world "run {genome}" ["notes.txt"; "reads.FASTQ"])
           "run {genome}" rw).
  - reflexivity.
  - reflexivity.
  - intros n Hn. vm_compute in Hn.
    destruct Hn as [<-|[<-|[]]]; reflexivity.
Defined.

(** C3, as stated, fails: with the single file [reads_1.fastq] the run
    does stop without writing a job file, but it stops while grouping,
    with a [ValueError] from the unpacking, not with a [MissingMateError];
    and the message names neither the sample nor its file. *)
Lemma C3_single_file_counterexample :
  let w := example_world "run {genome} {fwd} {rev}" ["reads_1.fastq"] in
  let args := example_args "data" in
  genome_fastqs (discover (w_fs w) (w_cwd w) (fastqs args))
  = [("reads_1", [parse_path "/work/data/reads_1.fastq"])]
  /\ fst (main args w) = Raise unpack_error
  /\ exn_class unpack_error <> "MissingMateError"
  /\ contains "reads_1" (exn_text unpack_error) = false
  /\ w_fs (snd (main args w)) = w_fs w
  /\ w_out (snd (main args w)) = ["Found 1 fastqs in data"].
Proof.
  vm_compute. repeat split; try reflexivity. discriminate.
Qed.

(** C3, amended: when some sample group holds a single file, the run
    writes no job file: [group_fastqs] fails while unpacking the sorted
    group, with the [ValueError] [not enough values to unpack (expected at
    least 2, got 1)], before any job is emitted, and the process ends
    with status 1.  A group never holds zero files. *)
Theorem C3_single_member_group :
  (forall (args : Namespace) (w : world) (tmpl : str)
          (sample_name : str) (paths : list Path),
     fst (read_text (template args) w) = Ok tmpl ->
     In (sample_name, paths)
        (genome_fastqs (discover (w_fs w) (w_cwd w) (fastqs args))) ->
     length paths < 2 ->
     fst (main args w) = Raise unpack_error
     /\ exn_class unpack_error = "ValueError"
     /\ w_fs (snd (main args w)) = w_fs w
     /\ exit_status (fst (main args w)) = Some 1)
  /\ (forall (fastqs : list Path) (sample_name : str) (paths : list Path),
        In (sample_name, paths) (genome_fastqs fastqs) -> paths <> []).
Proof.
  split.
  - intros args w tmpl sample_name paths Ht Hin Hlen.
    assert (Hl : listing_ok (w_fs w) (w_cwd w) (fastqs args) = true).
    { destruct (@discover_nonempty (w_fs w) (w_cwd w) (fastqs args))
        as (m & Hs & _).
      - intros E. rewrite E in Hin. exact Hin.
      - apply stat_at_listing with (1 := Hs). }
    assert (Hm : main args w =
                 (Raise unpack_error,
                  mkWorld (w_fs w) (w_cwd w)
                    (w_out w ++ ["Found " ++ str_of_nat
                                   (length (discover (w_fs w) (w_cwd w) (fastqs args)))
                                 ++ " fastqs in " ++ path_str (fastqs args)]))).
    { unfold main.
      rewrite bind_ok with (1 := read_text_ok _ _ Ht).
      rewrite bind_ok with (1 := get_fastq_paths_eq _ _ Hl).
      unfold bind at 1. rewrite group_fastqs_fails; [reflexivity|].
      exists (sample_name, paths). auto. }
    rewrite Hm. repeat split.
  - intros fastqs sample_name paths Hin.
    apply (genome_fastqs_nonempty fastqs (sample_name, paths) Hin).
Qed.

Lemma C3_single_member_group_witness :
  let w := example_world "run {genome} {fwd} {rev}" ["reads_1.fastq"; "reads_2.fastq"] in
  let args := example_args "data" in
  fst (main args w) = Raise unpack_error
  /\ exn_class unpack_error = "ValueError"
  /\ w_fs (snd (main args w)) = w_fs w
  /\ exit_status (fst (main args w)) = Some 1.
Proof.
  apply (proj1 C3_single_member_group (example_args "data")
           (example_world "run {genome} {fwd} {rev}" ["reads_1.fastq"; "reads_2.fastq"])
           "run {genome} {fwd} {rev}" "reads_2"
           [parse_path "/work/data/reads_2.fastq"]).
  - reflexivity.
  - vm_compute. right. left. reflexivity.
  - simpl. lia.
Defined.

(** ** How files are grouped *)

Lemma str_eqb_sym s t : str_eqb s t = str_eqb t s.
Proof.
  apply eq_true_iff_eq. rewrite !str_eqb_eq. split; congruence.
Qed.

Lemma existsb_str_eqb k l : existsb (str_eqb k) l = true <-> In k l.
Proof.
  rewrite existsb_exists. split.
  - intros [x [Hx E]]. apply str_eqb_eq in E. subst. exact Hx.
  - intros H. exists k. split; [exact H|apply str_eqb_refl].
Qed.

Lemma dict_get_append k k' v d :
  dict_get k (dict_append k' v d)
  = if str_eqb k' k then dict_get k d ++ [v] else dict_get k d.
Proof.
  induction d as [|[k0 vs] d IH]; simpl.
  - destruct (str_eqb k' k); reflexivity.
  - destruct (str_eqb k0 k') eqn:E0; simpl.
    + apply str_eqb_eq in E0. subst k0.
      destruct (str_eqb k' k); reflexivity.
    + destruct (str_eqb k0 k) eqn:E1; [|exact IH].
      apply str_eqb_eq in E1. subst k0.
      rewrite str_eqb_sym, E0. reflexivity.
Qed.

Lemma keys_append k v d :
  map fst (dict_append k v d)
  = if existsb (str_eqb k) (map fst d) then map fst d else map fst d ++ [k].
Proof.
  induction d as [|[k0 vs] d IH]; simpl; [reflexivity|].
  rewrite (str_eqb_sym k k0).
  destruct (str_eqb k0 k) eqn:E; simpl; [reflexivity|].
  rewrite IH. destruct (existsb (str_eqb k) (map fst d)); reflexivity.
Qed.

Lemma size_append k v d :
  length (concat (map snd (dict_append k v d)))
  = S (length (concat (map snd d))).
Proof.
  induction d as [|[k0 vs] d IH]; simpl; [reflexivity|].
  destruct (str_eqb k0 k); simpl; rewrite !length_app.
  - simpl. lia.
  - rewrite IH. lia.
Qed.

Lemma NoDup_first_seen l : forall seen, NoDup seen -> NoDup (first_seen seen l).
Proof.
  induction l as [|k l IH]; intros seen H; simpl; [exact H|].
  destruct (existsb (str_eqb k) seen) eqn:E; apply IH; [exact H|].
  apply NoDup_app; [exact H|repeat constructor; intros []|].
  intros a Ha [Ek|[]]. subst a.
  assert (Hk : existsb (str_eqb k) seen = true) by (apply existsb_str_eqb; exact Ha).
  congruence.
Qed.

(** In a dictionary with distinct keys an item is what its key gets. *)
Lemma In_dict_get k vs d : NoDup (map fst d) ->
  In (k, vs) d <-> (In k (map fst d) /\ dict_get k d = vs).
Proof.
  induction d as [|[k0 v0] d IH]; intros Hnd; simpl.
  - tauto.
  - inversion Hnd as [|? ? Hnot Hnd']; subst.
    destruct (str_eqb k0 k) eqn:E.
    + apply str_eqb_eq in E. subst k0. split.
      * intros [H|H].
        -- injection H as ->. auto.
        -- exfalso. apply Hnot. apply in_map_iff. exists (k, vs). auto.
      * intros [_ ->]. left. reflexivity.
    + assert (Hne : k0 <> k)
        by (intros ->; rewrite str_eqb_refl in E; discriminate).
      rewrite IH by exact Hnd'. split.
      * intros [H|H]; [injection H as -> _; congruence|tauto].
      * intros [[H|H] G]; [congruence|tauto].
Qed.

Lemma first_seen_In l : forall seen k,
  In k (first_seen seen l) <-> In k seen \/ In k l.
Proof.
  induction l as [|x l IH]; intros seen k; simpl; [tauto|].
  destruct (existsb (str_eqb x) seen) eqn:E; rewrite IH.
  - apply existsb_str_eqb in E. split; [tauto|].
    intros [H|[<-|H]]; auto.
  - rewrite in_app_iff. simpl. tauto.
Qed.

Section GroupFacts.

Variable key : Path -> str.

Let step (d : list (str * list Path)) (f : Path) := dict_append (key f) f d.

Lemma fold_groups l : forall d,
  (forall k, dict_get k (fold_left step l d)
             = dict_get k d ++ filter (fun f => str_eqb (key f) k) l)
  /\ map fst (fold_left step l d) = first_seen (map fst d) (map key l)
  /\ length (concat (map snd (fold_left step l d)))
     = length (concat (map snd d)) + length l.
Proof.
  induction l as [|f l IH]; intros d; simpl.
  - split; [intros k; rewrite app_nil_r; reflexivity|]. split; [reflexivity|lia].
  - destruct (IH (step d f)) as (H1 & H2 & H3). split; [|split].
    + intros k. rewrite H1. unfold step at 1. rewrite dict_get_append.
      destruct (str_eqb (key f) k); [|reflexivity].
      rewrite <- app_assoc. reflexivity.
    + rewrite H2. unfold step. rewrite keys_append.
      destruct (existsb (str_eqb (key f)) (map fst d)); reflexivity.
    + rewrite H3. unfold step. rewrite size_append. lia.
Qed.

End GroupFacts.

(** The groups of [group_fastqs] partition the files by sample name: the
    group of a name holds, in the order given, exactly the files with that
    name; it is never empty; names are distinct and appear in the order
    of their first file; and no file is lost or duplicated. *)
Theorem genome_fastqs_partition : forall (fastqs : list Path),
  (forall k vs, In (k, vs) (genome_fastqs fastqs) <->
     (vs <> [] /\ vs = filter (fun f => str_eqb (genome_name f) k) fastqs))
  /\ NoDup (map fst (genome_fastqs fastqs))
  /\ map fst (genome_fastqs fastqs) = first_seen [] (map genome_name fastqs)
  /\ length (concat (map snd (genome_fastqs fastqs))) = length fastqs.
Proof.
  intros fastqs. unfold genome_fastqs.
  destruct (fold_groups genome_name fastqs []) as (H1 & H2 & H3).
  cbn [map concat length dict_get app] in *.
  assert (Hnd : NoDup (map fst (fold_left
            (fun d fastq => dict_append (genome_name fastq) fastq d) fastqs [])))
    by (rewrite H2; apply NoDup_first_seen; constructor).
  split; [|split; [exact Hnd|split; [exact H2|exact H3]]].
  intros k vs. rewrite In_dict_get by exact Hnd. rewrite H1, H2.
  rewrite first_seen_In. split.
  - intros [[[]|Hk] <-]. split; [|reflexivity].
    apply in_map_iff in Hk. destruct Hk as [f [Hf Hin]].
    intros E.
    assert (Hin' : In f (filter (fun f0 => str_eqb (genome_name f0) k) fastqs))
      by (apply filter_In; split; [exact Hin|apply str_eqb_eq; exact Hf]).
    rewrite E in Hin'. exact Hin'.
  - intros [Hne ->]. split; [|reflexivity]. right.
    destruct (filter (fun f => str_eqb (genome_name f) k) fastqs) as [|f r] eqn:E;
      [congruence|].
    assert (Hin : In f (f :: r)) by (left; reflexivity).
    rewrite <- E in Hin. apply filter_In in Hin. destruct Hin as [Hin Hk].
    apply str_eqb_eq in Hk. apply in_map_iff. eauto.
Qed.

(** ** The order of paths and [sorted] *)

Section Lex.

Variable A : Type.
Variables eqb ltb : A -> A -> bool.
Hypothesis eqb_spec : forall a b, eqb a b = true <-> a = b.
Hypothesis ltb_asym : forall a b, ltb a b = true -> ltb b a = false.
Hypothesis ltb_total : forall a b, a <> b -> ltb a b = true \/ ltb b a = true.
Hypothesis leb_trans :
  forall a b c, ltb b a = false -> ltb c b = false -> ltb c a = false.

Lemma eqb_refl_gen a : eqb a a = true.
Proof. apply eqb_spec. reflexivity. Qed.

Lemma eqb_false_gen a b : eqb a b = false <-> a <> b.
Proof.
  split.
  - intros H E. apply eqb_spec in E. congruence.
  - intros H. destruct (eqb a b) eqn:E; auto. apply eqb_spec in E. contradiction.
Qed.

Lemma lex_asym l : forall m,
  lex_ltb eqb ltb l m = true -> lex_ltb eqb ltb m l = false.
Proof.
  induction l as [|x l IH]; intros [|y m] H; simpl in *; try discriminate; auto.
  destruct (eqb x y) eqn:E.
  - apply eqb_spec in E. subst y. rewrite eqb_refl_gen. apply IH. exact H.
  - apply eqb_false_gen in E.
    replace (eqb y x) with false
      by (symmetry; apply eqb_false_gen; congruence).
    apply ltb_asym. exact H.
Qed.

Lemma lex_total l : forall m, l <> m ->
  lex_ltb eqb ltb l m = true \/ lex_ltb eqb ltb m l = true.
Proof.
  induction l as [|x l IH]; intros [|y m] H; simpl; auto; try congruence.
  destruct (eqb x y) eqn:E.
  - apply eqb_spec in E. subst y. rewrite eqb_refl_gen.
    apply IH. congruence.
  - apply eqb_false_gen in E.
    replace (eqb y x) with false
      by (symmetry; apply eqb_false_gen; congruence).
    apply ltb_total. exact E.
Qed.

Lemma lex_leb_trans a : forall b c,
  lex_ltb eqb ltb b a = false -> lex_ltb eqb ltb c b = false ->
  lex_ltb eqb ltb c a = false.
Proof.
  induction a as [|x a IH]; intros b c Hba Hcb.
  - destruct c; reflexivity.
  - destruct b as [|y b]; [discriminate|].
    destruct c as [|z c]; [discriminate|].
    simpl in *.
    destruct (eqb y x) eqn:Eyx; destruct (eqb z y) eqn:Ezy.
    + apply eqb_spec in Eyx, Ezy. subst. rewrite eqb_refl_gen. eapply IH; eauto.
    + apply eqb_spec in Eyx. subst y. rewrite Ezy. exact Hcb.
    + apply eqb_spec in Ezy. subst z. rewrite Eyx. exact Hba.
    + destruct (eqb z x) eqn:Ezx.
      * apply eqb_spec in Ezx. subst z. apply eqb_false_gen in Eyx.
        destruct (ltb_total Eyx); congruence.
      * eapply leb_trans; eauto.
Qed.

End Lex.

Section PathOrder.

Lemma nat_of_ascii_inj a b : nat_of_ascii a = nat_of_ascii b -> a = b.
Proof.
  intros H. rewrite <- (ascii_nat_embedding a), <- (ascii_nat_embedding b), H.
  reflexivity.
Qed.

Lemma str_ltb_lex s : forall t, str_ltb s t = lex_ltb Ascii.eqb ascii_ltb s t.
Proof.
  induction s as [|a s IH]; intros [|b t]; simpl; auto.
  rewrite IH. reflexivity.
Qed.

Lemma strs_ltb_lex l : forall m, strs_ltb l m = lex_ltb str_eqb str_ltb l m.
Proof.
  induction l as [|x l IH]; intros [|y m]; simpl; auto.
  rewrite IH. reflexivity.
Qed.

Lemma ascii_ltb_asym a b : ascii_ltb a b = true -> ascii_ltb b a = false.
Proof.
  unfold ascii_ltb. intros H. apply Nat.ltb_lt in H. apply Nat.ltb_ge. lia.
Qed.

Lemma ascii_ltb_total a b : a <> b -> ascii_ltb a b = true \/ ascii_ltb b a = true.
Proof.
  unfold ascii_ltb. intros H. rewrite !Nat.ltb_lt.
  assert (nat_of_ascii a <> nat_of_ascii b)
    by (intros E; apply H; apply nat_of_ascii_inj; exact E).
  lia.
Qed.

Lemma ascii_leb_trans a b c :
  ascii_ltb b a = false -> ascii_ltb c b = false -> ascii_ltb c a = false.
Proof. unfold ascii_ltb. rewrite !Nat.ltb_ge. lia. Qed.

Lemma str_ltb_asym s t : str_ltb s t = true -> str_ltb t s = false.
Proof.
  rewrite !str_ltb_lex. apply lex_asym.
  - apply Ascii.eqb_eq.
  - apply ascii_ltb_asym.
Qed.

Lemma str_ltb_total s t : s <> t -> str_ltb s t = true \/ str_ltb t s = true.
Proof.
  rewrite !str_ltb_lex. apply lex_total.
  - apply Ascii.eqb_eq.
  - apply ascii_ltb_total.
Qed.

Lemma str_leb_trans a b c :
  str_ltb b a = false -> str_ltb c b = false -> str_ltb c a = false.
Proof.
  rewrite !str_ltb_lex. apply lex_leb_trans.
  - apply Ascii.eqb_eq.
  - apply ascii_ltb_total.
  - apply ascii_leb_trans.
Qed.

Lemma path_ltb_asym p q : path_ltb p q = true -> path_ltb q p = false.
Proof.
  unfold path_ltb. rewrite !strs_ltb_lex. apply lex_asym.
  - intros a b. apply str_eqb_eq.
  - apply str_ltb_asym.
Qed.

Lemma path_leb_trans p q r :
  path_leb p q = true -> path_leb q r = true -> path_leb p r = true.
Proof.
  unfold path_leb, path_ltb. rewrite !negb_true_iff, !strs_ltb_lex.
  intros H1 H2. revert H1 H2. apply lex_leb_trans.
  - intros a b. apply str_eqb_eq.
  - apply str_ltb_total.
  - apply str_leb_trans.
Qed.

Lemma insert_sorted_perm x l : Permutation (x :: l) (insert_sorted x l).
Proof.
  induction l as [|y l IH]; simpl; [reflexivity|].
  destruct (path_ltb y x); [|reflexivity].
  rewrite perm_swap. apply perm_skip. exact IH.
Qed.

Lemma sorted_perm l : Permutation l (sorted l).
Proof.
  induction l as [|x l IH]; simpl; [reflexivity|].
  rewrite <- insert_sorted_perm. apply perm_skip. exact IH.
Qed.

Lemma insert_sorted_sorted x l :
  StronglySorted (fun a b => path_leb a b = true) l ->
  StronglySorted (fun a b => path_leb a b = true) (insert_sorted x l).
Proof.
  induction 1 as [|y l Hs IH Hy]; simpl.
  - repeat constructor.
  - destruct (path_ltb y x) eqn:E.
    + constructor; [exact IH|].
      apply (Permutation_Forall (insert_sorted_perm x l)).
      constructor; [|exact Hy].
      unfold path_leb. rewrite (path_ltb_asym _ _ E). reflexivity.
    + assert (Hxy : path_leb x y = true) by (unfold path_leb; rewrite E; reflexivity).
      constructor; [constructor; assumption|].
      constructor; [exact Hxy|].
      eapply Forall_impl; [|exact Hy]. intros z Hz.
      eapply path_leb_trans; eauto.
Qed.

Lemma sorted_sorted l :
  StronglySorted (fun a b => path_leb a b = true) (sorted l).
Proof.
  induction l as [|x l IH]; simpl; [constructor|].
  apply insert_sorted_sorted. exact IH.
Qed.

End PathOrder.

(** When a group unpacks, [fwd] and [rev] are two of its files, [fwd] is
    not greater than [rev], and every other file of the group, which is
    ignored, is not smaller than either. *)
Theorem unpack_mates_smallest : forall (paths : list Path) (m : mates),
  unpack_mates paths = Ok m ->
  exists others,
    Permutation paths (fwd m :: rev m :: others)
    /\ path_leb (fwd m) (rev m) = true
    /\ Forall (fun p => path_leb (fwd m) p = true /\ path_leb (rev m) p = true)
              others.
Proof.
  intros paths m H. unfold unpack_mates in H.
  pose proof (sorted_perm paths) as Hp.
  pose proof (sorted_sorted paths) as Hs.
  destruct (sorted paths) as [|f [|r others]]; try discriminate.
  injection H as <-. cbn [fwd rev]. exists others. split; [exact Hp|].
  inversion Hs as [|? ? Hs1 Hf]; subst.
  inversion Hs1 as [|? ? Hs2 Hr]; subst.
  inversion Hf as [|? ? Hfr Hfo]; subst.
  split; [exact Hfr|].
  apply Forall_forall. intros p Hin. split.
  - eapply Forall_forall in Hfo; eauto.
  - eapply Forall_forall in Hr; eauto.
Qed.

Lemma unpack_mates_smallest_witness :
  exists others,
    Permutation [parse_path "/d/s_R2.fq"; parse_path "/d/s_R3.fq"; parse_path "/d/s_R1.fq"]
                (parse_path "/d/s_R1.fq" :: parse_path "/d/s_R2.fq" :: others)
    /\ path_leb (parse_path "/d/s_R1.fq") (parse_path "/d/s_R2.fq") = true
    /\ Forall (fun p => path_leb (parse_path "/d/s_R1.fq") p = true
                        /\ path_leb (parse_path "/d/s_R2.fq") p = true) others.
Proof.
  apply (@unpack_mates_smallest
           [parse_path "/d/s_R2.fq"; parse_path "/d/s_R3.fq"; parse_path "/d/s_R1.fq"]
           (mkMates (parse_path "/d/s_R1.fq") (parse_path "/d/s_R2.fq"))).
  reflexivity.
Defined.

(** ** Pairing the groups *)

Section Pairing.

Lemma genome_fastqs_keys fastqs :
  map fst (genome_fastqs fastqs) = first_seen [] (map genome_name fastqs).
Proof. apply (fold_groups genome_name fastqs []). Qed.

Lemma genome_fastqs_NoDup fastqs : NoDup (map fst (genome_fastqs fastqs)).
Proof. rewrite genome_fastqs_keys. apply NoDup_first_seen. constructor. Qed.

Lemma genome_fastqs_size fastqs :
  length (concat (map snd (genome_fastqs fastqs))) = length fastqs.
Proof. apply (fold_groups genome_name fastqs []). Qed.

Lemma genome_fastqs_group fastqs k vs :
  In (k, vs) (genome_fastqs fastqs) ->
  vs = filter (fun f => str_eqb (genome_name f) k) fastqs.
Proof.
  intros H. apply In_dict_get in H; [|apply genome_fastqs_NoDup].
  destruct H as [_ <-]. apply (fold_groups genome_name fastqs []).
Qed.

Lemma dict_set_fresh {V} k (v : V) d :
  ~ In k (map fst d) -> dict_set k v d = d ++ [(k, v)].
Proof.
  induction d as [|[k0 v0] d IH]; intros H; simpl; [reflexivity|].
  destruct (str_eqb k0 k) eqn:E.
  - apply str_eqb_eq in E. subst k0. exfalso. apply H. left. reflexivity.
  - rewrite IH; [reflexivity|]. intros Hin. apply H. right. exact Hin.
Qed.

Lemma groups_of_two (gs : list (str * list Path)) :
  (forall g, In g gs -> 2 <= length (snd g)) ->
  2 * length gs <= length (concat (map snd gs)).
Proof.
  induction gs as [|g gs IH]; intros H; simpl; [lia|].
  rewrite length_app.
  pose proof (H g (or_introl eq_refl)).
  assert (2 * length gs <= length (concat (map snd gs)))
    by (apply IH; intros g' Hg'; apply H; right; exact Hg').
  lia.
Qed.

(** The second loop of [group_fastqs] on groups of two or more. *)
Lemma pairing_succeeds (items : list (str * list Path)) : forall acc w,
  NoDup (map fst items) ->
  (forall k, In k (map fst items) -> ~ In k (map fst acc)) ->
  (forall g, In g items -> 2 <= length (snd g)) ->
  exists pairs,
    foldM (fun fwd_rev item =>
             m <- lift (unpack_mates (snd item)) ;;
             ret (dict_set (fst item) m fwd_rev))
          items acc w
    = (Ok (acc ++ pairs), w)
    /\ Forall2 paired items pairs.
Proof.
  induction items as [|g items IH]; intros acc w Hnd Hfresh Hlen.
  - exists []. rewrite app_nil_r. split; [reflexivity|constructor].
  - cbn [foldM]. inversion Hnd as [|? ? Hnot Hnd']; subst.
    assert (Hg : 2 <= length (snd g)) by (apply Hlen; left; reflexivity).
    assert (Hne : snd g <> []) by (intros E; rewrite E in Hg; simpl in Hg; lia).
    destruct (unpack_mates_cases Hne) as [[_ [m Hm]]|[Hone _]]; [|lia].
    unfold bind at 1. unfold bind at 1. unfold lift at 1. rewrite Hm. cbn [ret].
    rewrite dict_set_fresh by (apply Hfresh; left; reflexivity).
    destruct (IH (acc ++ [(fst g, m)]) w Hnd') as (pairs & Hp & Hf).
    + intros k Hk. rewrite map_app, in_app_iff. simpl.
      intros [Hin|[<-|[]]].
      * apply (Hfresh k); [right; exact Hk|exact Hin].
      * contradiction.
    + intros g' Hg'. apply Hlen. right. exact Hg'.
    + exists ((fst g, m) :: pairs). split.
      * rewrite Hp, <- app_assoc. reflexivity.
      * constructor; [split; [reflexivity|exact Hm]|exact Hf].
Qed.

Lemma Forall2_length_eq {A B} (R : A -> B -> Prop) l m :
  Forall2 R l m -> length l = length m.
Proof. induction 1; simpl; auto. Qed.

Lemma Forall2_paired_keys gs ps : Forall2 paired gs ps -> map fst ps = map fst gs.
Proof.
  induction 1 as [|g p gs ps [Hk _] _ IH]; simpl; [reflexivity|].
  rewrite Hk, IH. reflexivity.
Qed.

Lemma Forall2_paired_In gs ps X ms :
  Forall2 paired gs ps -> In (X, ms) ps ->
  exists vs, In (X, vs) gs /\ unpack_mates vs = Ok ms.
Proof.
  induction 1 as [|g p gs ps [Hk Hm] _ IH]; intros Hin; [destruct Hin|].
  destruct Hin as [->|Hin].
  - simpl in *. exists (snd g). split; [left; destruct g; simpl in *; congruence|exact Hm].
  - destruct (IH Hin) as (vs & Hvs & Hu). exists vs. split; [right; exact Hvs|exact Hu].
Qed.

(** What [group_fastqs] returns when every group has two files or more. *)
Lemma group_fastqs_ok fastqs w :
  (forall k vs, In (k, vs) (genome_fastqs fastqs) -> 2 <= length vs) ->
  exists pairs,
    group_fastqs fastqs w
    = (Ok pairs, mkWorld (w_fs w) (w_cwd w)
                         (w_out w ++ [grouped_line (length fastqs) (length pairs)]))
    /\ Forall2 paired (genome_fastqs fastqs) pairs.
Proof.
  intros Hlen.
  destruct (pairing_succeeds (genome_fastqs fastqs) [] w) as (pairs & Hp & Hf).
  - apply genome_fastqs_NoDup.
  - intros k _ [].
  - intros [k vs] Hin. apply (Hlen k vs Hin).
  - exists pairs. split; [|exact Hf].
    unfold group_fastqs. rewrite bind_ok with (1 := Hp). cbn [app].
    rewrite bind_lift_ok with (1 := grouped_line_format _ _).
    unfold bind at 1. unfold print at 1.
    match goal with
    | |- context [ascii_text ?l] =>
        replace (ascii_text l) with true
          by (symmetry; exact (grouped_line_ascii (length fastqs) (length pairs)))
    end.
    reflexivity.
Qed.

End Pairing.

(** When every group has at least two files, [group_fastqs] returns one
    pair per sample name, in the order of the names' first files, each
    made by unpacking the files of that name; it prints the number of
    files and of samples, leaves the file system alone, and there are at
    most half as many samples as files. *)
Theorem group_fastqs_pairs : forall (fastqs : list Path) (w : world),
  (forall k vs, In (k, vs) (genome_fastqs fastqs) -> 2 <= length vs) ->
  exists pairs,
    group_fastqs fastqs w
    = (Ok pairs, mkWorld (w_fs w) (w_cwd w)
                         (w_out w ++ [grouped_line (length fastqs) (length pairs)]))
    /\ map fst pairs = first_seen [] (map genome_name fastqs)
    /\ (forall X ms, In (X, ms) pairs ->
          unpack_mates (filter (fun f => str_eqb (genome_name f) X) fastqs) = Ok ms)
    /\ 2 * length pairs <= length fastqs.
Proof.
  intros fastqs w Hlen.
  destruct (group_fastqs_ok fastqs w Hlen) as (pairs & Hg & Hf).
  exists pairs. split; [exact Hg|]. split; [|split].
  - rewrite (@Forall2_paired_keys _ _ Hf). apply genome_fastqs_keys.
  - intros X ms Hin.
    destruct (@Forall2_paired_In _ _ _ _ Hf Hin) as (vs & Hvs & Hu).
    rewrite <- (@genome_fastqs_group _ _ _ Hvs). exact Hu.
  - rewrite <- (@Forall2_length_eq _ _ _ _ _ Hf), <- (genome_fastqs_size fastqs).
    apply groups_of_two. intros [k vs] Hin. apply (Hlen k vs Hin).
Qed.

Lemma group_fastqs_pairs_witness :
  let fastqs := map (child (parse_path "/d"))
                    ["b_S1_L001_R2_001.fq"; "a_S1_L001_R1_001.fq";
                     "b_S1_L001_R1_001.fq"; "a_S1_L001_R2_001.fq"] in
  exists pairs,
    group_fastqs fastqs (example_world "" [])
    = (Ok pairs, mkWorld (example_fs "" []) (parse_path "/work")
                         [grouped_line 4 (length pairs)])
    /\ map fst pairs = first_seen [] (map genome_name fastqs)
    /\ (forall X ms, In (X, ms) pairs ->
          unpack_mates (filter (fun f => str_eqb (genome_name f) X) fastqs) = Ok ms)
    /\ 2 * length pairs <= length fastqs.
Proof.
  apply (@group_fastqs_pairs
           (map (child (parse_path "/d"))
                ["b_S1_L001_R2_001.fq"; "a_S1_L001_R1_001.fq";
                 "b_S1_L001_R1_001.fq"; "a_S1_L001_R2_001.fq"])
           (example_world "" [])).
  intros k vs Hin. vm_compute in Hin.
  destruct Hin as [H|[H|[]]]; injection H as _ <-; simpl; lia.
Defined.

(** ** The loop that writes the jobs *)

Section JobLoop.

Lemma job_name_inj X Y : job_name X = job_name Y -> X = Y.
Proof.
  unfold job_name. intros H. apply app_inv_head in H.
  apply app_inv_tail in H. exact H.
Qed.

(** Writing one job file leaves the job directory and the places of the
    other job files as they were. *)
Lemma jobs_stat_store args fs cwd X nd :
  stat_at (store fs (child (absolute cwd (jobs args)) (job_name X)) nd) cwd (jobs args)
  = stat_at fs cwd (jobs args).
Proof.
  apply stat_at_store. unfold child. cbn [parts]. rewrite length_app. simpl. lia.
Qed.

Lemma job_slot_store args fs cwd out out' X Y nd :
  X <> Y ->
  job_slot args (mkWorld (store fs (child (absolute cwd (jobs args)) (job_name X)) nd)
                         cwd out') Y
  = job_slot args (mkWorld fs cwd out) Y.
Proof.
  intros Hne. unfold job_slot. cbn [w_fs w_cwd].
  rewrite lookup_store_other; [reflexivity|].
  intros E. apply child_inj, job_name_inj in E. contradiction.
Qed.

(** A node bound at the path of a job file is what a system call finds
    there. *)
Lemma job_file_stat args fs cwd X nd m :
  stat_at fs cwd (jobs args) = inr (Dir m) -> can_search m = true ->
  forallb name_char X = true -> length (job_name X) <= NAME_MAX ->
  length (path_str (child (jobs args) (job_name X))) < PATH_MAX ->
  lookup fs (child (absolute cwd (jobs args)) (job_name X)) = Some nd ->
  stat_at fs cwd (child (jobs args) (job_name X)) = inr nd.
Proof.
  intros Hst Hsr Hx Hn Hp Hl.
  destruct (stat_at_inr _ _ _ Hst) as (Hc & _ & _).
  rewrite stat_at_child; auto.
  - rewrite Hst, Hsr. cbn [negb].
    apply Nat.leb_le in Hn. rewrite Nat.ltb_antisym, Hn. cbn [negb].
    rewrite Hl. reflexivity.
  - apply entry_name_job_name. exact Hx.
Qed.

(** The whole loop: every job is written, nothing else is touched. *)
Lemma write_jobs_all args tmpl : forall pairs w,
  NoDup (map fst pairs) ->
  job_directory args w = true ->
  (forall X ms, In (X, ms) pairs ->
     job_slot args w X = true
     /\ ascii_text (wrote_line args X ms) = true
     /\ exists job, format tmpl [] (job_kwargs args X ms) = Ok job
                    /\ ascii_text job = true) ->
  exists w',
    for_each pairs (write_job args tmpl) w = (Ok tt, w')
    /\ w_cwd w' = w_cwd w
    /\ stat_at (w_fs w') (w_cwd w) (jobs args) = stat_at (w_fs w) (w_cwd w) (jobs args)
    /\ w_out w' = w_out w ++ map (fun p => wrote_line args (fst p) (snd p)) pairs
    /\ (forall q,
          (forall X ms, In (X, ms) pairs ->
             q <> child (absolute (w_cwd w) (jobs args)) (job_name X)) ->
          lookup (w_fs w') q = lookup (w_fs w) q)
    /\ (forall X ms, In (X, ms) pairs ->
          exists m' job,
            format tmpl [] (job_kwargs args X ms) = Ok job
            /\ lookup (w_fs w') (child (absolute (w_cwd w) (jobs args)) (job_name X))
               = Some (File m' job)).
Proof.
  induction pairs as [|[X ms] pairs IH]; intros w Hnd Hd Hall.
  - exists w. cbn [for_each map]. rewrite app_nil_r.
    repeat split; auto. intros X ms [].
  - inversion Hnd as [|? ? Hnot Hnd']; subst.
    destruct (Hall X ms (or_introl eq_refl)) as (Hs & Hline & job & Hf & Ha).
    destruct (@write_job_child args tmpl X ms w job Hd Hs Hf Ha Hline)
      as (m' & Hwj).
    cbn [for_each]. rewrite bind_ok with (1 := Hwj).
    destruct w as [fs cwd out]. cbn [w_fs w_cwd w_out] in *.
    set (D := absolute cwd (jobs args)) in *.
    set (t := child D (job_name X)) in *.
    set (w1 := mkWorld (store fs t (File m' job)) cwd (out ++ [wrote_line args X ms])).
    assert (Hother : forall Y ms', In (Y, ms') pairs -> X <> Y).
    { intros Y ms' Hin E. subst Y. apply Hnot. apply in_map_iff.
      exists (X, ms'). auto. }
    assert (Hst1 : stat_at (w_fs w1) cwd (jobs args) = stat_at fs cwd (jobs args))
      by apply jobs_stat_store.
    assert (Hd1 : job_directory args w1 = true).
    { unfold job_directory in *. unfold w1, t, D. cbn [w_fs w_cwd] in *.
      rewrite jobs_stat_store. exact Hd. }
    destruct (IH w1) as (w' & Hfe & Hcwd & Hst & Hout & Hkeep & Hjobs); auto.
    { intros Y ms' Hin.
      destruct (Hall Y ms' (or_intror Hin)) as (Hsy & Hjy).
      split; [|exact Hjy]. unfold w1, t, D.
      rewrite job_slot_store with (out := out); [exact Hsy|].
      apply (Hother Y ms' Hin). }
    cbn [w1 w_cwd w_fs w_out] in Hcwd, Hout, Hkeep, Hst, Hjobs.
    exists w'. split; [exact Hfe|]. split; [exact Hcwd|].
    split; [rewrite Hst; apply jobs_stat_store|]. split; [|split].
    + rewrite Hout. cbn [map fst snd]. rewrite <- app_assoc. reflexivity.
    + intros q Hq. rewrite Hkeep.
      * apply lookup_store_other.
        intros E. apply (Hq X ms (or_introl eq_refl)). symmetry. exact E.
      * intros Y ms' Hin. apply (Hq Y ms'). right. exact Hin.
    + intros Y ms' [E|Hin]; [|apply (Hjobs Y ms' Hin)].
      injection E as <- <-. exists m', job. split; [exact Hf|].
      rewrite Hkeep; [apply lookup_store_same|].
      intros Z ms'' Hin E. apply child_inj, job_name_inj in E.
      apply (Hother Z ms'' Hin). exact E.
Qed.

End JobLoop.

(** The mates of a pair are files of its group. *)
Lemma unpack_mates_In paths ms :
  unpack_mates paths = Ok ms -> In (fwd ms) paths /\ In (rev ms) paths.
Proof.
  unfold unpack_mates. intros H.
  pose proof (sorted_perm paths) as Hp.
  destruct (sorted paths) as [|f [|r l]]; try discriminate.
  injection H as <-. cbn [fwd rev]. split.
  - apply Permutation_in with (1 := Permutation_sym Hp). left. reflexivity.
  - apply Permutation_in with (1 := Permutation_sym Hp). right. left. reflexivity.
Qed.

(** A complete run. *)
Lemma main_complete args w tmpl :
  fst (read_text (template args) w) = Ok tmpl ->
  listing_ok (w_fs w) (w_cwd w) (fastqs args) = true ->
  (forall k vs,
     In (k, vs) (genome_fastqs (discover (w_fs w) (w_cwd w) (fastqs args))) ->
     2 <= length vs) ->
  job_directory args w = true ->
  (forall f, In f (discover (w_fs w) (w_cwd w) (fastqs args)) ->
     job_slot args w (genome_name f) = true) ->
  (forall X ms,
     In X (map genome_name (discover (w_fs w) (w_cwd w) (fastqs args))) ->
     In (fwd ms) (discover (w_fs w) (w_cwd w) (fastqs args)) ->
     In (rev ms) (discover (w_fs w) (w_cwd w) (fastqs args)) ->
     ascii_text (wrote_line args X ms) = true
     /\ exists job, format tmpl [] (job_kwargs args X ms) = Ok job
                    /\ ascii_text job = true) ->
  exists w' pairs,
    main args w = (Ok tt, w')
    /\ map fst pairs
       = first_seen [] (map genome_name (discover (w_fs w) (w_cwd w) (fastqs args)))
    /\ w_out w'
       = w_out w
         ++ [found_line (length (discover (w_fs w) (w_cwd w) (fastqs args)))
                        (fastqs args);
             grouped_line (length (discover (w_fs w) (w_cwd w) (fastqs args)))
                          (length pairs)]
         ++ map (fun p => wrote_line args (fst p) (snd p)) pairs
    /\ (forall X ms, In (X, ms) pairs ->
          unpack_mates (filter (fun f => str_eqb (genome_name f) X)
                               (discover (w_fs w) (w_cwd w) (fastqs args))) = Ok ms
          /\ exists m' job,
               format tmpl [] (job_kwargs args X ms) = Ok job
               /\ stat_at (w_fs w') (w_cwd w') (child (jobs args) (job_name X))
                  = inr (File m' job))
    /\ (forall q,
          (forall f, In f (discover (w_fs w) (w_cwd w) (fastqs args)) ->
             q <> child (absolute (w_cwd w) (jobs args)) (job_name (genome_name f))) ->
          lookup (w_fs w') q = lookup (w_fs w) q).
Proof.
  intros Ht Hl Hlen Hd Hnames Hfmt.
  set (found := discover (w_fs w) (w_cwd w) (fastqs args)) in *.
  set (w1 := mkWorld (w_fs w) (w_cwd w)
                     (w_out w ++ [found_line (length found) (fastqs args)])).
  destruct (group_fastqs_ok found w1 Hlen) as (pairs & Hg & Hf).
  set (w2 := mkWorld (w_fs w) (w_cwd w)
                     (w_out w1 ++ [grouped_line (length found) (length pairs)])) in *.
  assert (Hkeys : map fst pairs = first_seen [] (map genome_name found))
    by (rewrite (@Forall2_paired_keys _ _ Hf); apply genome_fastqs_keys).
  assert (Hmates : forall X ms, In (X, ms) pairs ->
            unpack_mates (filter (fun f => str_eqb (genome_name f) X) found) = Ok ms).
  { intros X ms Hin.
    destruct (@Forall2_paired_In _ _ _ _ Hf Hin) as (vs & Hvs & Hu).
    rewrite <- (@genome_fastqs_group _ _ _ Hvs). exact Hu. }
  assert (Hfile : forall X ms, In (X, ms) pairs ->
            exists f, In f found /\ genome_name f = X).
  { intros X ms Hin.
    assert (Hk : In X (map fst pairs)) by (apply in_map_iff; exists (X, ms); auto).
    rewrite Hkeys in Hk. apply first_seen_In in Hk. destruct Hk as [[]|Hk].
    apply in_map_iff in Hk. destruct Hk as [f [E Hin']]. eauto. }
  destruct (@write_jobs_all args tmpl pairs w2)
    as (w' & Hfe & Hcwd & Hst & Hout & Hkeep & Hjobs).
  { refine (eq_ind_r (fun l => NoDup l) _ Hkeys).
    apply NoDup_first_seen. constructor. }
  { exact Hd. }
  { intros X ms Hin. destruct (Hfile X ms Hin) as (f & Hin' & <-). split.
    - apply (Hnames f Hin').
    - apply Hfmt.
      + apply in_map. exact Hin'.
      + destruct (@unpack_mates_In _ _ (Hmates _ _ Hin)) as [H1 _].
        apply filter_In in H1. tauto.
      + destruct (@unpack_mates_In _ _ (Hmates _ _ Hin)) as [_ H2].
        apply filter_In in H2. tauto. }
  cbn [w2 w1 w_fs w_cwd w_out] in Hcwd, Hst, Hout, Hkeep, Hjobs.
  exists w', pairs. split; [|split; [exact Hkeys|split; [|split]]].
  - unfold main.
    rewrite bind_ok with (1 := read_text_ok _ _ Ht).
    rewrite bind_ok with (1 := get_fastq_paths_eq _ _ Hl).
    fold found. fold (found_line (length found) (fastqs args)). fold w1.
    rewrite bind_ok with (1 := Hg). exact Hfe.
  - rewrite Hout. rewrite <- !app_assoc. reflexivity.
  - intros X ms Hin. split; [apply Hmates; exact Hin|].
    destruct (Hjobs X ms Hin) as (m' & job & Hj & Hlk).
    exists m', job. split; [exact Hj|].
    destruct (job_directory_inv _ _ Hd) as (m & Hsd & Hsr & _).
    destruct (Hfile X ms Hin) as (f & Hin' & <-).
    destruct (job_slot_inv _ _ _ (Hnames f Hin')) as (Hx & Hn & Hp & _).
    rewrite Hcwd. apply job_file_stat with (m := m); auto.
    rewrite Hst. exact Hsd.
  - intros q Hq. rewrite Hkeep; [reflexivity|].
    intros X ms Hin. destruct (Hfile X ms Hin) as (f & Hin' & <-).
    apply Hq. exact Hin'.
Qed.

(** A complete run: with a template that can be read, a [fastqs]
    directory whose listing raises nothing, groups of two files or more, a
    job directory that may be searched and written in which every job file
    has its place, and job texts and printed lines that are ASCII, [main]
    ends normally; it
    prints the two summary lines and one line per sample, in the order of
    the samples' first files; the job file of each sample holds the
    template formatted with that sample's name and mates; and every other
    path of the file system is left as it was. *)
Theorem main_writes_every_job :
  forall (args : Namespace) (w : world) (tmpl : str),
  fst (read_text (template args) w) = Ok tmpl ->
  listing_ok (w_fs w) (w_cwd w) (fastqs args) = true ->
  (forall k vs,
     In (k, vs) (genome_fastqs (discover (w_fs w) (w_cwd w) (fastqs args))) ->
     2 <= length vs) ->
  job_directory args w = true ->
  (forall f, In f (discover (w_fs w) (w_cwd w) (fastqs args)) ->
     job_slot args w (genome_name f) = true) ->
  (forall X ms,
     In X (map genome_name (discover (w_fs w) (w_cwd w) (fastqs args))) ->
     In (fwd ms) (discover (w_fs w) (w_cwd w) (fastqs args)) ->
     In (rev ms) (discover (w_fs w) (w_cwd w) (fastqs args)) ->
     ascii_text (wrote_line args X ms) = true
     /\ exists job, format tmpl [] (job_kwargs args X ms) = Ok job
                    /\ ascii_text job = true) ->
  exists w' pairs,
    main args w = (Ok tt, w')
    /\ map fst pairs
       = first_seen [] (map genome_name (discover (w_fs w) (w_cwd w) (fastqs args)))
    /\ w_out w'
       = w_out w
         ++ [found_line (length (discover (w_fs w) (w_cwd w) (fastqs args)))
                        (fastqs args);
             grouped_line (length (discover (w_fs w) (w_cwd w) (fastqs args)))
                          (length pairs)]
         ++ map (fun p => wrote_line args (fst p) (snd p)) pairs
    /\ (forall X ms, In (X, ms) pairs ->
          unpack_mates (filter (fun f => str_eqb (genome_name f) X)
                               (discover (w_fs w) (w_cwd w) (fastqs args))) = Ok ms
          /\ exists m' job,
               format tmpl [] (job_kwargs args X ms) = Ok job
               /\ stat_at (w_fs w') (w_cwd w') (child (jobs args) (job_name X))
                  = inr (File m' job))
    /\ (forall q,
          (forall f, In f (discover (w_fs w) (w_cwd w) (fastqs args)) ->
             q <> child (absolute (w_cwd w) (jobs args)) (job_name (genome_name f))) ->
          lookup (w_fs w') q = lookup (w_fs w) q).
Proof.
  intros args w tmpl. apply main_complete.
Qed.

Lemma main_writes_every_job_witness :
  let args := example_args "data" in
  let w := example_world "run {genome} {fwd} {rev}" example_pair in
  let found := discover (w_fs w) (w_cwd w) (fastqs args) in
  exists w' pairs,
    main args w = (Ok tt, w')
    /\ map fst pairs = first_seen [] (map genome_name found)
    /\ w_out w'
       = w_out w
         ++ [found_line (length found) (fastqs args);
             grouped_line (length found) (length pairs)]
         ++ map (fun p => wrote_line args (fst p) (snd p)) pairs
    /\ (forall X ms, In (X, ms) pairs ->
          unpack_mates (filter (fun f => str_eqb (genome_name f) X) found) = Ok ms
          /\ exists m' job,
               format "run {genome} {fwd} {rev}" [] (job_kwargs args X ms) = Ok job
               /\ stat_at (w_fs w') (w_cwd w') (child (jobs args) (job_name X))
                  = inr (File m' job))
    /\ (forall q,
          (forall f, In f found ->
             q <> child (absolute (w_cwd w) (jobs args)) (job_name (genome_name f))) ->
          lookup (w_fs w') q = lookup (w_fs w) q).
Proof.
  apply (@main_writes_every_job (example_args "data")
           (example_world "run {genome} {fwd} {rev}" example_pair)
           "run {genome} {fwd} {rev}").
  - reflexivity.
  - reflexivity.
  - intros k vs Hin. vm_compute in Hin.
    destruct Hin as [H|[]]. injection H as _ <-. simpl. lia.
  - reflexivity.
  - intros f Hin. vm_compute in Hin.
    destruct Hin as [<-|[<-|[]]]; reflexivity.
  - intros X [f r] HX Hf Hr. cbn [fwd rev] in Hf, Hr.
    vm_compute in HX. vm_compute in Hf. vm_compute in Hr.
    destruct HX as [<-|[<-|[]]];
      destruct Hf as [<-|[<-|[]]]; destruct Hr as [<-|[<-|[]]];
      (split; [reflexivity|eexists; split; reflexivity]).
Defined.

(** C10: when [--output] (or [--reference]) is not given, its value is
    [None], and in every job file the run emits the placeholder
    [{output}] (or [{reference}]) of the template has become the four
    characters [None]: the file holds the text before the placeholder as
    formatted for the sample, then [None], then the rest of the template
    as formatted for the sample.  The run is a complete one: the template
    is read, the listing of the [fastqs] directory raises nothing, every
    group has two files, every job file has its place in a job directory
    that may be searched and written, and the job texts and the printed
    lines are ASCII. *)
Theorem C10_absent_option_is_None :
  forall (args : Namespace) (w : world) (pre nm post : str),
  (nm = "output" /\ output args = None)
  \/ (nm = "reference" /\ reference args = None) ->
  fst (read_text (template args) w)
  = Ok (pre ++ "{"%char :: nm ++ "}"%char :: post) ->
  listing_ok (w_fs w) (w_cwd w) (fastqs args) = true ->
  (forall k vs,
     In (k, vs) (genome_fastqs (discover (w_fs w) (w_cwd w) (fastqs args))) ->
     2 <= length vs) ->
  job_directory args w = true ->
  (forall f, In f (discover (w_fs w) (w_cwd w) (fastqs args)) ->
     job_slot args w (genome_name f) = true) ->
  (forall X ms,
     In X (map genome_name (discover (w_fs w) (w_cwd w) (fastqs args))) ->
     In (fwd ms) (discover (w_fs w) (w_cwd w) (fastqs args)) ->
     In (rev ms) (discover (w_fs w) (w_cwd w) (fastqs args)) ->
     ascii_text (wrote_line args X ms) = true
     /\ exists out rest,
          format pre [] (job_kwargs args X ms) = Ok out
          /\ format post [] (job_kwargs args X ms) = Ok rest
          /\ ascii_text (out ++ "None" ++ rest) = true) ->
  exists w' pairs,
    main args w = (Ok tt, w')
    /\ map fst pairs
       = first_seen [] (map genome_name (discover (w_fs w) (w_cwd w) (fastqs args)))
    /\ (forall X ms, In (X, ms) pairs ->
          exists out rest m',
            format pre [] (job_kwargs args X ms) = Ok out
            /\ format post [] (job_kwargs args X ms) = Ok rest
            /\ stat_at (w_fs w') (w_cwd w') (child (jobs args) (job_name X))
               = inr (File m' (out ++ "None" ++ rest))).
Proof.
  intros args w pre nm post Hnm Ht Hl Hlen Hd Hnames Hfmt.
  assert (Hjob : forall X ms out rest,
            format pre [] (job_kwargs args X ms) = Ok out ->
            format post [] (job_kwargs args X ms) = Ok rest ->
            format (pre ++ "{"%char :: nm ++ "}"%char :: post) []
                   (job_kwargs args X ms)
            = Ok (out ++ "None" ++ rest)).
  { intros X ms out rest Hpre Hpost.
    rewrite format_placeholder with (out := out) (v := VNone); auto.
    - rewrite Hpost. cbn [prefixed_str py_str]. rewrite <- app_assoc. reflexivity.
    - destruct Hnm as [[-> _]|[-> _]]; reflexivity.
    - unfold job_kwargs. destruct Hnm as [[-> Hn]|[-> Hn]]; rewrite Hn; reflexivity. }
  destruct (@main_complete args w _ Ht Hl Hlen Hd Hnames)
    as (w' & pairs & Hm & Hkeys & _ & Hfiles & _).
  { intros X ms HX Hf Hr.
    destruct (Hfmt X ms HX Hf Hr) as (Hline & out & rest & H1 & H2 & H3).
    split; [exact Hline|].
    exists (out ++ "None" ++ rest). split; [|exact H3]. apply Hjob; assumption. }
  exists w', pairs. split; [exact Hm|]. split; [exact Hkeys|].
  intros X ms Hin. destruct (Hfiles X ms Hin) as (Hu & m' & job & Hj & Hs).
  assert (Hk : In X (map fst pairs)) by (apply in_map_iff; exists (X, ms); auto).
  rewrite Hkeys in Hk. apply first_seen_In in Hk. destruct Hk as [[]|Hk].
  apply unpack_mates_In in Hu. destruct Hu as [H1 H2].
  apply filter_In in H1. apply filter_In in H2.
  destruct (Hfmt X ms Hk (proj1 H1) (proj1 H2)) as (_ & out & rest & Hp & Hq & _).
  exists out, rest, m'. split; [exact Hp|]. split; [exact Hq|].
  rewrite (Hjob X ms out rest Hp Hq) in Hj. injection Hj as <-. exact Hs.
Qed.

Lemma C10_absent_option_is_None_witness :
  let args := example_args "data" in
  let w := example_world "out={output}" example_pair in
  exists w' pairs,
    main args w = (Ok tt, w')
    /\ map fst pairs
       = first_seen [] (map genome_name (discover (w_fs w) (w_cwd w) (fastqs args)))
    /\ (forall X ms, In (X, ms) pairs ->
          exists out rest m',
            format "out=" [] (job_kwargs args X ms) = Ok out
            /\ format "" [] (job_kwargs args X ms) = Ok rest
            /\ stat_at (w_fs w') (w_cwd w') (child (jobs args) (job_name X))
               = inr (File m' (out ++ "None" ++ rest))).
Proof.
  apply (@C10_absent_option_is_None (example_args "data")
           (example_world "out={output}" example_pair) "out=" "output" "").
  - left. split; reflexivity.
  - reflexivity.
  - reflexivity.
  - intros k vs Hin. vm_compute in Hin.
    destruct Hin as [H|[]]. injection H as _ <-. simpl. lia.
  - reflexivity.
  - intros f Hin. vm_compute in Hin.
    destruct Hin as [<-|[<-|[]]]; reflexivity.
  - intros X [f r] HX Hf Hr. cbn [fwd rev] in Hf, Hr.
    vm_compute in HX. vm_compute in Hf. vm_compute in Hr.
    destruct HX as [<-|[<-|[]]];
      destruct Hf as [<-|[<-|[]]]; destruct Hr as [<-|[<-|[]]];
      (split; [reflexivity|exists "out=", ""; repeat split; reflexivity]).
Defined.

(** ** More on the run *)

Section RunFacts.

Lemma strips_id (L : str -> Prop) s o :
  Re.strips L s o ->
  (forall pre w post, s = pre ++ w ++ post -> ~ L w) -> o = s.
Proof.
  induction 1 as [|a s o Hk Hs IH|w s o Hw Hs IH]; intros Hfree.
  - reflexivity.
  - f_equal. apply IH. intros pre w post E.
    apply (Hfree (a :: pre) w post). simpl. rewrite E. reflexivity.
  - exfalso. apply (Hfree [] w s eq_refl). exact Hw.
Qed.

Lemma first_seen_nonempty l : l <> [] -> first_seen [] l <> [].
Proof.
  intros H E. destruct l as [|k l]; [congruence|].
  assert (Hin : In k (first_seen [] (k :: l)))
    by (apply first_seen_In; right; left; reflexivity).
  rewrite E in Hin. exact Hin.
Qed.

Lemma job_kwargs_lookup args X ms nm v :
  In (nm, v) (job_kwargs args X ms) ->
  keyword_name nm = true /\ lookup_kw nm (job_kwargs args X ms) = Some v.
Proof.
  unfold job_kwargs. intros H.
  repeat (destruct H as [H|H]; [injection H as <- <-; split; reflexivity|]).
  destruct H.
Qed.

End RunFacts.

(** On ASCII text, where a digit is one of [0-9], the marker removal
    leaves a name unchanged exactly when no marker occurs in it. *)
Theorem marker_free_unchanged : forall name : str,
  ascii_text name = true ->
  (Re.sub illumina_regex [] name = name <->
   (forall pre w post, name = pre ++ w ++ post -> ~ marker w)).
Proof.
  intros name _. split.
  - intros E pre w post Hn Hw.
    assert (Hlt : length (Re.sub illumina_regex [] name) < length name).
    { eapply strips_shorter with (L := marker); eauto.
      - apply marker_nonempty.
      - apply illumina_sub_strips. }
    rewrite E in Hlt. lia.
  - intros Hfree. eapply strips_id; [apply illumina_sub_strips|exact Hfree].
Qed.

(** Discovery never writes, and raises only when the path of the
    directory cannot be followed.  For a canonical path: when what
    [Path.is_dir] meets is a node or an error it ignores, discovery returns
    a list, leaves the file system and the working directory as they were,
    and prints one line with the number of paths returned; otherwise, when
    a directory on the way may not be searched or a name is too long, it
    raises the error of the failed [stat], carrying the directory as it
    was given, and prints nothing. *)
Theorem get_fastq_paths_outcome : forall (directory : Path) (w : world),
  canonical (absolute (w_cwd w) directory) = true ->
  w_fs (snd (get_fastq_paths directory w)) = w_fs w
  /\ w_cwd (snd (get_fastq_paths directory w)) = w_cwd w
  /\ match stat_at (w_fs w) (w_cwd w) directory with
     | inl EACCES =>
         get_fastq_paths directory w
         = (Raise (PermissionError (path_str directory)), w)
     | inl ENAMETOOLONG =>
         get_fastq_paths directory w
         = (Raise (OSError 36 (path_str directory)), w)
     | _ =>
         exists found,
           get_fastq_paths directory w
           = (Ok found, mkWorld (w_fs w) (w_cwd w)
                                (w_out w ++ [found_line (length found) directory]))
     end.
Proof.
  intros directory w Hc.
  destruct (stat_at (w_fs w) (w_cwd w) directory) as [e|nd] eqn:E.
  - destruct (ignored e) eqn:I.
    + rewrite get_fastq_paths_eq by (unfold listing_ok; rewrite Hc, E; exact I).
      split; [reflexivity|]. split; [reflexivity|].
      destruct e; try discriminate I; eexists; reflexivity.
    + rewrite (get_fastq_paths_raise _ _ Hc E I).
      split; [reflexivity|]. split; [reflexivity|].
      destruct e; try discriminate I; reflexivity.
  - rewrite get_fastq_paths_eq by (apply stat_at_listing with (1 := E)).
    split; [reflexivity|]. split; [reflexivity|]. eexists. reflexivity.
Qed.

Lemma get_fastq_paths_outcome_witness :
  let w := locked_world "" ["a.fq"] in
  w_fs (snd (get_fastq_paths (parse_path "locked/data") w)) = w_fs w
  /\ w_cwd (snd (get_fastq_paths (parse_path "locked/data") w)) = w_cwd w
  /\ get_fastq_paths (parse_path "locked/data") w
     = (Raise (PermissionError "locked/data"), w).
Proof.
  apply (@get_fastq_paths_outcome (parse_path "locked/data")
           (locked_world "" ["a.fq"]) eq_refl).
Defined.



(** When the template cannot be opened for reading, the run stops there,
    before anything is printed or written: with the error of the failed
    walk when its path does not lead to a node ([FileNotFoundError],
    [NotADirectoryError], [PermissionError] when a directory on the way may
    not be searched, [OSError] when a name is too long), with
    [IsADirectoryError] when it is a directory that may be read, and with
    [PermissionError] when it is a directory or a file that may not be
    read.  The error carries the path of the template as it was given. *)
Theorem main_template_unreadable :
  forall (args : Namespace) (w : world),
  canonical (absolute (w_cwd w) (template args)) = true ->
  (forall e, stat_at (w_fs w) (w_cwd w) (template args) = inl e ->
     main args w = (Raise (os_error e (path_str (template args))), w))
  /\ (forall m, stat_at (w_fs w) (w_cwd w) (template args) = inr (Dir m) ->
        main args w
        = (Raise (if can_read m then IsADirectoryError (path_str (template args))
                  else PermissionError (path_str (template args))), w))
  /\ (forall m data,
        stat_at (w_fs w) (w_cwd w) (template args) = inr (File m data) ->
        can_read m = false ->
        main args w = (Raise (PermissionError (path_str (template args))), w)).
Proof.
  intros args w Hc.
  assert (Hm : forall e, fst (read_text (template args) w) = Raise e ->
                         main args w = (Raise e, w)).
  { intros e He. unfold main, bind. rewrite read_text_raise with (1 := He).
    reflexivity. }
  split; [|split].
  - intros e Hs. apply Hm. unfold read_text, on_node. rewrite Hc, Hs. reflexivity.
  - intros m Hs. apply Hm. unfold read_text, on_node. rewrite Hc, Hs.
    destruct (can_read m); reflexivity.
  - intros m data Hs Hr. apply Hm. unfold read_text, on_node.
    rewrite Hc, Hs, Hr. reflexivity.
Qed.

Lemma main_template_unreadable_witness :
  (let args := mkNamespace (parse_path "missing.txt") (parse_path "data")
                           (parse_path "jobs") None None in
   let w := example_world "run {genome}" example_pair in
   main args w = (Raise (FileNotFoundError "missing.txt"), w))
  /\ (let args := mkNamespace (parse_path "locked/data/a.fq") (parse_path "data")
                              (parse_path "jobs") None None in
      let w := locked_world "run {genome}" ["a.fq"] in
      main args w = (Raise (PermissionError "locked/data/a.fq"), w))
  /\ (let args := mkNamespace (parse_path "jobs") (parse_path "data")
                              (parse_path "jobs") None None in
      let w := example_world "run {genome}" example_pair in
      main args w = (Raise (IsADirectoryError "jobs"), w)).
Proof.
  split; [|split].
  - apply (proj1 (@main_template_unreadable
             (mkNamespace (parse_path "missing.txt") (parse_path "data")
                          (parse_path "jobs") None None)
             (example_world "run {genome}" example_pair) eq_refl) ENOENT).
    reflexivity.
  - apply (proj1 (@main_template_unreadable
             (mkNamespace (parse_path "locked/data/a.fq") (parse_path "data")
                          (parse_path "jobs") None None)
             (locked_world "run {genome}" ["a.fq"]) eq_refl) EACCES).
    reflexivity.
  - apply (proj1 (proj2 (@main_template_unreadable
             (mkNamespace (parse_path "jobs") (parse_path "data")
                          (parse_path "jobs") None None)
             (example_world "run {genome}" example_pair) eq_refl)) rw).
    reflexivity.
Defined.

(** A template that names an unknown keyword placeholder, behind text
    without braces, aborts the run at the first sample when there is one:
    the run ends with a [KeyError] for that name and status 1, after the
    two summary lines, and no job file is written. *)
Theorem main_unknown_placeholder :
  forall (args : Namespace) (w : world) (pre nm post : str),
  fst (read_text (template args) w)
  = Ok (pre ++ "{"%char :: nm ++ "}"%char :: post) ->
  ~ In "{"%char pre -> ~ In "}"%char pre ->
  keyword_name nm = true ->
  ~ In nm recognized ->
  discover (w_fs w) (w_cwd w) (fastqs args) <> [] ->
  (forall k vs,
     In (k, vs) (genome_fastqs (discover (w_fs w) (w_cwd w) (fastqs args))) ->
     2 <= length vs) ->
  fst (main args w) = Raise (KeyError nm)
  /\ w_fs (snd (main args w)) = w_fs w
  /\ length (w_out (snd (main args w))) = length (w_out w) + 2
  /\ exit_status (fst (main args w)) = Some 1.
Proof.
  intros args w pre nm post Ht Ho Hc Hnm Hun Hne Hlen.
  assert (Hl : listing_ok (w_fs w) (w_cwd w) (fastqs args) = true).
  { destruct (@discover_nonempty _ _ _ Hne) as (m & Hs & _).
    apply stat_at_listing with (1 := Hs). }
  set (found := discover (w_fs w) (w_cwd w) (fastqs args)) in *.
  set (w1 := mkWorld (w_fs w) (w_cwd w)
                     (w_out w ++ [found_line (length found) (fastqs args)])).
  destruct (group_fastqs_ok found w1 Hlen) as (pairs & Hg & Hf).
  assert (Hkeys : map fst pairs = first_seen [] (map genome_name found))
    by (rewrite (@Forall2_paired_keys _ _ Hf); apply genome_fastqs_keys).
  destruct pairs as [|[X ms] pairs].
  { exfalso. symmetry in Hkeys. revert Hkeys. apply first_seen_nonempty.
    destruct found; [congruence|discriminate]. }
  assert (Hm : main args w =
               (Raise (KeyError nm),
                mkWorld (w_fs w) (w_cwd w)
                        (w_out w1 ++ [grouped_line (length found)
                                                   (length ((X, ms) :: pairs))]))).
  { unfold main.
    rewrite bind_ok with (1 := read_text_ok _ _ Ht).
    rewrite bind_ok with (1 := get_fastq_paths_eq _ _ Hl).
    fold found. fold (found_line (length found) (fastqs args)). fold w1.
    rewrite bind_ok with (1 := Hg).
    cbn [for_each]. unfold bind at 1. unfold write_job. cbn [fst snd].
    rewrite bind_lift_ok with (1 := job_filename_format X).
    rewrite bind_lift_raise with (e := KeyError nm); [reflexivity|].
    apply format_unknown with (out := pre); auto.
    - apply format_literal; assumption.
    - apply lookup_kw_unknown. exact Hun. }
  rewrite Hm. cbn [fst snd w_fs w_out w1]. repeat split.
  rewrite !length_app. simpl. lia.
Qed.

Lemma main_unknown_placeholder_witness :
  let args := example_args "data" in
  let w := example_world "run {sample} now" example_pair in
  fst (main args w) = Raise (KeyError "sample")
  /\ w_fs (snd (main args w)) = w_fs w
  /\ length (w_out (snd (main args w))) = length (w_out w) + 2
  /\ exit_status (fst (main args w)) = Some 1.
Proof.
  apply (@main_unknown_placeholder (example_args "data")
           (example_world "run {sample} now" example_pair)
           "run " "sample" " now").
  - reflexivity.
  - simpl. intros H. repeat (destruct H as [H|H]; [discriminate|]). exact H.
  - simpl. intros H. repeat (destruct H as [H|H]; [discriminate|]). exact H.
  - reflexivity.
  - unfold recognized. simpl. intros H.
    repeat (destruct H as [H|H]; [discriminate|]). exact H.
  - vm_compute. discriminate.
  - intros k vs Hin. vm_compute in Hin.
    destruct Hin as [H|[]]. injection H as _ <-. simpl. lia.
Defined.

(** Each keyword [main] passes is a placeholder of the template: behind a
    prefix that formats, [{genome}] becomes the sample name, [{fwd}] and
    [{rev}] the mates' paths, [{output}] and [{reference}] the string form
    of the option's value, and the rest of the template follows. *)
Theorem job_placeholder_substituted :
  forall (args : Namespace) (X : str) (ms : mates) (pre post out nm : str)
         (v : value),
  format pre [] (job_kwargs args X ms) = Ok out ->
  In (nm, v) [ ("genome", VStr X);
               ("output", opt_value (output args));
               ("reference", opt_value (reference args));
               ("fwd", VPath (fwd ms));
               ("rev", VPath (rev ms)) ] ->
  format (pre ++ "{"%char :: nm ++ "}"%char :: post) [] (job_kwargs args X ms)
  = prefixed_str (out ++ py_str v) (format post [] (job_kwargs args X ms)).
Proof.
  intros args X ms pre post out nm v Hpre Hin.
  destruct (@job_kwargs_lookup args X ms nm v Hin) as [Hk Hl].
  apply format_placeholder; assumption.
Qed.

Lemma job_placeholder_substituted_witness :
  format ("in=" ++ "{"%char :: "fwd" ++ "}"%char :: " ok") []
         (job_kwargs (example_args "data") "s"
                     (mkMates (parse_path "/d/a_1.fq") (parse_path "/d/a_2.fq")))
  = Ok "in=/d/a_1.fq ok".
Proof.
  apply (@job_placeholder_substituted (example_args "data") "s"
           (mkMates (parse_path "/d/a_1.fq") (parse_path "/d/a_2.fq"))
           "in=" " ok" "in=" "fwd" (VPath (parse_path "/d/a_1.fq"))).
  - reflexivity.
  - right. right. right. left. reflexivity.
Defined.

(** When the path of the job directory does not lead to a directory,
    writing a job fails and changes nothing: with the error of the failed
    walk when the path breaks off ([FileNotFoundError],
    [NotADirectoryError], [PermissionError] when a directory on the way may
    not be searched), with [NotADirectoryError] when it is a file; the
    error carries the job file's path.  The name of the sample is the name
    of an entry, and the path of the job file is canonical and within the
    limit on paths. *)
Theorem write_job_no_directory :
  forall (args : Namespace) (tmpl : str) (X : str) (ms : mates) (w : world)
         (job : str),
  forallb name_char X = true ->
  format tmpl [] (job_kwargs args X ms) = Ok job ->
  canonical (absolute (w_cwd w) (jobs args)) = true ->
  length (path_str (child (jobs args) (job_name X))) < PATH_MAX ->
  (forall m, stat_at (w_fs w) (w_cwd w) (jobs args) <> inr (Dir m)) ->
  write_job args tmpl (X, ms) w
  = (Raise (match stat_at (w_fs w) (w_cwd w) (jobs args) with
            | inl err => os_error err (path_str (child (jobs args) (job_name X)))
            | inr _ => NotADirectoryError (path_str (child (jobs args) (job_name X)))
            end), w).
Proof.
  intros args tmpl X ms w job Hx Hf Hc Hp Hnd. unfold write_job. cbn [fst snd].
  rewrite bind_lift_ok with (1 := job_filename_format X).
  rewrite bind_lift_ok with (1 := Hf).
  rewrite joinstr_job_name by (apply name_char_slash; exact Hx).
  fold (job_name X).
  unfold bind at 1. unfold write_text, on_node.
  rewrite absolute_child, canonical_child, Hc, entry_name_job_name by exact Hx.
  cbn [andb].
  rewrite stat_at_child, parent_child;
    auto using entry_name_job_name.
  destruct (stat_at (w_fs w) (w_cwd w) (jobs args)) as [[| | |]|[m d|m]].
  - reflexivity.
  - reflexivity.
  - reflexivity.
  - reflexivity.
  - reflexivity.
  - exfalso. apply (Hnd m). reflexivity.
Qed.

Lemma write_job_no_directory_witness :
  let args := mkNamespace (parse_path "tmpl.txt") (parse_path "data")
                          (parse_path "nojobs") None None in
  let w := example_world "{genome}" [] in
  write_job args "{genome}"
            ("s", mkMates (parse_path "/d/a_1.fq") (parse_path "/d/a_2.fq")) w
  = (Raise (FileNotFoundError "nojobs/slurm-s.job"), w).
Proof.
  apply (@write_job_no_directory
           (mkNamespace (parse_path "tmpl.txt") (parse_path "data")
                        (parse_path "nojobs") None None)
           "{genome}" "s"
           (mkMates (parse_path "/d/a_1.fq") (parse_path "/d/a_2.fq"))
           (example_world "{genome}" []) "s").
  - reflexivity.
  - reflexivity.
  - reflexivity.
  - vm_compute. lia.
  - intros m H. vm_compute in H. discriminate.
Defined.

(** ** The characters of a sample name *)

Section NameCharacters.

Import Re.

Variable whole : str.

Lemma incl_firstn {A} k (l : list A) : incl (firstn k l) l.
Proof.
  intros a H. rewrite <- (firstn_skipn k l). apply in_or_app. left. exact H.
Qed.

Lemma star_go_within step :
  (forall s c x, incl s whole -> caps_within whole c -> In x (step s c) ->
                 incl (fst x) whole /\ caps_within whole (snd x)) ->
  forall fuel s c x, incl s whole -> caps_within whole c ->
  In x (star_go step fuel s c) -> incl (fst x) whole /\ caps_within whole (snd x).
Proof.
  intros Hstep. induction fuel as [|fuel IH]; intros s c x Hs Hc Hin; simpl in Hin.
  - destruct Hin as [<-|[]]. auto.
  - apply in_app_or in Hin. destruct Hin as [Hin|[<-|[]]]; [|auto].
    apply in_flat_map in Hin. destruct Hin as [y [Hy Hin]].
    destruct (length (fst y) <? length s); [|contradiction].
    destruct (Hstep _ _ _ Hs Hc Hy) as [H1 H2]. eapply IH; eauto.
Qed.

(** Matching stays within the subject, and so does what it captures. *)
Lemma run_within n0 r : forall s c x,
  incl s whole -> caps_within whole c -> In x (run n0 r s c) ->
  incl (fst x) whole /\ caps_within whole (snd x).
Proof.
  induction r as [|p|r1 IH1 r2 IH2|r1 IH1 r2 IH2|r IH|n r IH| |];
    simpl; intros s c x Hs Hc Hin.
  - destruct Hin as [<-|[]]. auto.
  - destruct s as [|a s]; [contradiction|].
    destruct (class_mem p a); [|contradiction].
    destruct Hin as [<-|[]]. split; [|exact Hc].
    intros b Hb. apply Hs. right. exact Hb.
  - apply in_flat_map in Hin. destruct Hin as [y [Hy Hin]].
    destruct (IH1 _ _ _ Hs Hc Hy) as [H1 H2]. eapply IH2; eauto.
  - apply in_app_or in Hin. destruct Hin as [Hin|Hin]; eauto.
  - eapply star_go_within; eauto.
  - apply in_map_iff in Hin. destruct Hin as [y [<- Hy]]. cbn [fst snd].
    destruct (IH _ _ _ Hs Hc Hy) as [H1 H2]. split; [exact H1|].
    intros k w [E|Hw].
    + injection E as _ <-. intros a Ha. apply Hs.
      eapply incl_firstn. exact Ha.
    + eapply H2. exact Hw.
  - destruct (length s =? n0); [|contradiction]. destruct Hin as [<-|[]]. auto.
  - destruct s as [|a [|b s]]; try contradiction.
    + destruct Hin as [<-|[]]. auto.
    + destruct (Ascii.eqb a newline); [|contradiction].
      destruct Hin as [<-|[]]. auto.
Qed.

Lemma group_within n c : caps_within whole c -> incl (group n c) whole.
Proof.
  induction c as [|[k w] c IH]; intros Hc; simpl.
  - intros a [].
  - destruct (Nat.eqb k n).
    + apply (Hc k w). left. reflexivity.
    + apply IH. intros k' w' H. apply (Hc k' w'). right. exact H.
Qed.

Lemma expand_within tpl c :
  Forall (fun i => match i with RText t => incl t whole | RGroup _ => True end) tpl ->
  caps_within whole c -> incl (expand tpl c) whole.
Proof.
  intros Ht Hc a Ha. unfold expand in Ha. apply in_flat_map in Ha.
  destruct Ha as [i [Hi Ha]]. rewrite Forall_forall in Ht. specialize (Ht i Hi).
  destruct i as [t|n]; [apply Ht; exact Ha|].
  eapply group_within; eauto.
Qed.

(** [re.sub] with a replacement made of group references only produces
    characters of the subject. *)
Lemma sub_go_within r tpl n0 :
  Forall (fun i => match i with RText t => incl t whole | RGroup _ => True end) tpl ->
  forall s k, incl s whole -> incl (sub_go r tpl n0 s k) whole.
Proof.
  intros Ht. induction s as [|a s IH]; intros k Hs.
  - destruct k; cbn [sub_go]; [|intros b []].
    destruct (match_here n0 r []) as [[s1 c]|] eqn:E; [|intros b []].
    rewrite app_nil_r. apply expand_within; [exact Ht|].
    unfold match_here in E. destruct (run n0 r [] []) as [|x l] eqn:Er; [discriminate|].
    injection E as ->.
    apply (@run_within n0 r [] [] (s1, c)); [exact Hs|intros n w []|].
    rewrite Er. left. reflexivity.
  - assert (Hs' : incl s whole) by (intros b Hb; apply Hs; right; exact Hb).
    destruct k as [|k]; cbn [sub_go]; [|apply IH; exact Hs'].
    destruct (match_here n0 r (a :: s)) as [[s1 c]|] eqn:E.
    + apply incl_app.
      * apply expand_within; [exact Ht|].
        unfold match_here in E.
        destruct (run n0 r (a :: s) []) as [|x l] eqn:Er; [discriminate|].
        injection E as ->.
        apply (@run_within n0 r (a :: s) [] (s1, c)); [exact Hs|intros n w []|].
        rewrite Er. left. reflexivity.
      * destruct (length s1 <? length (a :: s)); [apply IH; exact Hs'|].
        intros b [<-|Hb]; [apply Hs; left; reflexivity|].
        eapply IH; eauto.
    + intros b [<-|Hb]; [apply Hs; left; reflexivity|].
      eapply IH; eauto.
Qed.

End NameCharacters.

Lemma stem_of_incl n : incl (stem_of n) n.
Proof.
  unfold stem_of. destruct (rfind "."%char n) as [i|]; [|apply incl_refl].
  destruct ((0 <? i) && (i <? length n - 1)); [|apply incl_refl].
  apply incl_firstn.
Qed.

(** A sample name is made of characters of the file's name: deriving it
    never brings in a character the name does not have, so a name without
    [/] gives a sample name without [/]. *)
Theorem genome_name_characters : forall (fastq : Path),
  incl (genome_name fastq) (name fastq)
  /\ (~ In "/"%char (name fastq) -> ~ In "/"%char (genome_name fastq)).
Proof.
  intros fastq.
  assert (H : incl (genome_name fastq) (name fastq)).
  { unfold genome_name, Re.sub.
    apply sub_go_within; [constructor|].
    apply sub_go_within; [repeat constructor|].
    apply stem_of_incl. }
  split; [exact H|]. intros Hn Hin. apply Hn. apply H. exact Hin.
Qed.

Lemma genome_name_characters_witness :
  ~ In "/"%char (genome_name (parse_path "/d/s_S1_L001_R1_001.fq.gz")).
Proof.
  apply (proj2 (genome_name_characters (parse_path "/d/s_S1_L001_R1_001.fq.gz"))).
  vm_compute. intros H. repeat (destruct H as [H|H]; [discriminate|]). exact H.
Defined.

(** ** Stripping the read-type extension *)

Section ExtensionFacts.

Import Re.

Lemma fastq_regex_eq :
  fastq_regex = Cat Bol (Cat (Group 1 (Plus (Chr CAny))) fastq_tail).
Proof. reflexivity. Qed.

Lemma run_cat n0 r1 r2 s c :
  run n0 (Cat r1 r2) s c
  = flat_map (fun x => run n0 r2 (fst x) (snd x)) (run n0 r1 s c).
Proof. reflexivity. Qed.

Lemma run_group n0 n r s c :
  run n0 (Group n r) s c
  = map (fun x => (fst x, (n, firstn (length s - length (fst x)) s) :: snd x))
        (run n0 r s c).
Proof. reflexivity. Qed.

Lemma run_star n0 r s c :
  run n0 (Star r) s c = star_go (run n0 r) (length s) s c.
Proof. reflexivity. Qed.

Lemma run_any_cons n0 a s c :
  a <> newline -> run n0 (Chr CAny) (a :: s) c = [(s, c)].
Proof.
  intros H. cbn [run]. rewrite (proj2 (any_mem a) H). reflexivity.
Qed.

Lemma rfind_none c s : ~ In c s -> rfind c s = None.
Proof.
  induction s as [|a s IH]; intros H; simpl; [reflexivity|].
  rewrite IH by (intros Hin; apply H; right; exact Hin).
  destruct (Ascii.eqb a c) eqn:E; [|reflexivity].
  apply Ascii.eqb_eq in E. subst a. exfalso. apply H. left. reflexivity.
Qed.

Lemma rfind_last c x t : ~ In c t -> rfind c (x ++ c :: t) = Some (length x).
Proof.
  intros H. induction x as [|a x IH]; simpl.
  - rewrite rfind_none by exact H. rewrite Ascii.eqb_refl. reflexivity.
  - rewrite IH. reflexivity.
Qed.

(** The stem drops the last suffix. *)
Lemma stem_of_suffix x t :
  x <> [] -> t <> [] -> ~ In "."%char t -> stem_of (x ++ "."%char :: t) = x.
Proof.
  intros Hx Ht Hd. unfold stem_of. rewrite rfind_last by exact Hd.
  assert (L : length (x ++ "."%char :: t) = length x + S (length t))
    by (rewrite length_app; reflexivity).
  assert (0 < length x) by (destruct x; [congruence|simpl; lia]).
  assert (0 < length t) by (destruct t; [congruence|simpl; lia]).
  replace ((0 <? length x) && (length x <? length (x ++ "."%char :: t) - 1))
    with true.
  - rewrite firstn_app, Nat.sub_diag, firstn_all. cbn [firstn]. apply app_nil_r.
  - symmetry. apply andb_true_intro. split; apply Nat.ltb_lt; lia.
Qed.

(** A greedy [.*] over a prefix without newlines first tries everything
    it tries on the rest alone. *)
Lemma star_any_prefix n0 w : Forall (fun a => a <> newline) w ->
  forall t c fuel, length (w ++ t) <= fuel ->
  exists L, star_go (run n0 (Chr CAny)) fuel (w ++ t) c
            = star_go (run n0 (Chr CAny)) fuel t c ++ L.
Proof.
  induction 1 as [|a w Ha Hw IH]; intros t c fuel Hf.
  - exists []. rewrite app_nil_r. reflexivity.
  - destruct fuel as [|f]; [simpl in Hf; lia|].
    cbn [app] in *. cbn [length] in Hf.
    destruct (IH t c f) as [L HL]; [lia|].
    exists (L ++ [(a :: w ++ t, c)]).
    cbn [star_go]. rewrite (@run_any_cons n0 a (w ++ t) c Ha).
    cbn [flat_map fst snd].
    replace (length (w ++ t) <? length (a :: w ++ t)) with true
      by (symmetry; apply Nat.ltb_lt; simpl; lia).
    rewrite app_nil_r, HL.
    rewrite (@star_go_fuel (run n0 (Chr CAny)) f (S f) t c).
    + rewrite <- app_assoc. reflexivity.
    + rewrite length_app in Hf. lia.
    + rewrite length_app in Hf. lia.
Qed.

Lemma fastq_tail_short n0 c u :
  In u ["" ; "q"; "fq"; "tq"; "stq"; "astq"; "fastq"] ->
  run n0 fastq_tail u c = [].
Proof.
  intros H. repeat (destruct H as [<-|H]; [reflexivity|]). destruct H.
Qed.

Lemma fastq_tail_fq n0 c : run n0 fastq_tail ".fq" c = [([], (2, "fq") :: c)].
Proof. reflexivity. Qed.

Lemma fastq_tail_fastq n0 c :
  run n0 fastq_tail ".fastq" c = [([], (2, "fastq") :: c)].
Proof. reflexivity. Qed.

Lemma fastq_tail_needs_dot n0 u c :
  ~ In "."%char u -> run n0 fastq_tail u c = [].
Proof.
  intros H.
  assert (H0 : run n0 (Chr (CLit ".")) u c = []).
  { destruct u as [|a u]; [reflexivity|]. cbn [run class_mem].
    destruct (Ascii.eqb a ".") eqn:E; [|reflexivity].
    apply Ascii.eqb_eq in E. subst a. exfalso. apply H. left. reflexivity. }
  unfold fastq_tail.
  match goal with
  | |- run _ (Cat (Cat (Chr ?p) Eps) ?X) _ _ = _ =>
      rewrite (run_cat n0 (Cat (Chr p) Eps) X), (run_cat n0 (Chr p) Eps)
  end.
  rewrite H0. reflexivity.
Qed.

Lemma star_any_fq n0 c :
  star_go (run n0 (Chr CAny)) (length (".fq" : str)) ".fq" c
  = [("", c); ("q", c); ("fq", c); (".fq", c)].
Proof. reflexivity. Qed.

Lemma star_any_fastq n0 c :
  star_go (run n0 (Chr CAny)) (length (".fastq" : str)) ".fastq" c
  = [("", c); ("q", c); ("tq", c); ("stq", c); ("astq", c); ("fastq", c);
     (".fastq", c)].
Proof. reflexivity. Qed.

Lemma firstn_base {A} (x e : list A) :
  firstn (length (x ++ e) - length e) (x ++ e) = x.
Proof.
  rewrite length_app. replace (length x + length e - length e) with (length x) by lia.
  rewrite firstn_app, Nat.sub_diag, firstn_all. cbn [firstn]. apply app_nil_r.
Qed.

(** On [base.fq] and [base.fastq] the first match of [fastq_regex] takes
    the whole string and captures [base]. *)
Lemma fastq_first_match base ext :
  In ext [".fq"; ".fastq"] -> base <> [] -> Forall (fun a => a <> newline) base ->
  exists c, match_here (length (base ++ ext)) fastq_regex (base ++ ext)
            = Some ([], c) /\ group 1 c = base.
Proof.
  intros Hext Hne Hnl. destruct base as [|b w]; [congruence|].
  inversion Hnl as [|? ? Hb Hw]; subst.
  cbn [app]. set (n0 := length (b :: w ++ ext)).
  unfold match_here. rewrite fastq_regex_eq, run_cat.
  assert (HB : run n0 Bol (b :: w ++ ext) [] = [(b :: w ++ ext, [])])
    by (cbn [run]; unfold n0; rewrite Nat.eqb_refl; reflexivity).
  rewrite HB. cbn [flat_map fst snd]. rewrite app_nil_r.
  rewrite run_cat, run_group. unfold Plus. rewrite run_cat.
  rewrite (@run_any_cons n0 b (w ++ ext) [] Hb).
  cbn [flat_map fst snd]. rewrite app_nil_r, run_star.
  destruct (@star_any_prefix n0 w Hw ext [] (length (w ++ ext)) (le_n _))
    as [L HL].
  rewrite HL.
  rewrite (@star_go_fuel (run n0 (Chr CAny)) (length (w ++ ext)) (length ext) ext [])
    by (rewrite ?length_app; lia).
  rewrite map_app, flat_map_app.
  destruct Hext as [<-|[<-|[]]].
  - rewrite star_any_fq. cbn [flat_map map app fst snd].
    rewrite !fastq_tail_short by (simpl; tauto).
    rewrite fastq_tail_fq. cbn [app hd_error].
    eexists. split; [reflexivity|]. cbn [group Nat.eqb].
    apply (@firstn_base _ (b :: w) ".fq").
  - rewrite star_any_fastq. cbn [flat_map map app fst snd].
    rewrite !fastq_tail_short by (simpl; tauto).
    rewrite fastq_tail_fastq. cbn [app hd_error].
    eexists. split; [reflexivity|]. cbn [group Nat.eqb].
    apply (@firstn_base _ (b :: w) ".fastq").
Qed.

Lemma fastq_no_match_later n0 u :
  length u <> n0 -> match_here n0 fastq_regex u = None.
Proof.
  intros H. unfold match_here. rewrite fastq_regex_eq, run_cat.
  assert (HB : run n0 Bol u [] = []).
  { cbn [run]. destruct (length u =? n0) eqn:E; [|reflexivity].
    apply Nat.eqb_eq in E. contradiction. }
  rewrite HB. reflexivity.
Qed.

Lemma flat_map_none {A B} (f : A -> list B) l :
  (forall x, In x l -> f x = []) -> flat_map f l = [].
Proof.
  induction l as [|a l IH]; intros H; simpl; [reflexivity|].
  rewrite (H a (or_introl eq_refl)), IH; [reflexivity|].
  intros x Hx. apply H. right. exact Hx.
Qed.

Lemma fastq_no_match_nodot n0 u :
  ~ In "."%char u -> match_here n0 fastq_regex u = None.
Proof.
  intros H. unfold match_here. rewrite fastq_regex_eq, run_cat.
  rewrite flat_map_none; [reflexivity|].
  intros x Hx. cbn [run] in Hx.
  destruct (length u =? n0); [|destruct Hx].
  destruct Hx as [<-|[]]. cbn [fst snd]. rewrite run_cat.
  apply flat_map_none. intros y Hy.
  apply run_sound in Hy; [|reflexivity]. destruct Hy as [w [E _]].
  apply fastq_tail_needs_dot. intros Hin. apply H. rewrite E.
  apply in_or_app. right. exact Hin.
Qed.

Lemma sub_go_no_match r tpl n0 s :
  (forall pre u, s = pre ++ u -> match_here n0 r u = None) ->
  sub_go r tpl n0 s 0 = s.
Proof.
  induction s as [|a s IH]; intros H; cbn [sub_go].
  - rewrite (H [] [] eq_refl). reflexivity.
  - rewrite (H [] (a :: s) eq_refl). f_equal. apply IH.
    intros pre u E. apply (H (a :: pre) u). simpl. rewrite E. reflexivity.
Qed.

(** A name without a dot is left alone by [fastq_regex]. *)
Lemma sub_fastq_nodot s :
  ~ In "."%char s -> Re.sub fastq_regex [RGroup 1] s = s.
Proof.
  intros H. unfold Re.sub. apply sub_go_no_match.
  intros pre u E. apply fastq_no_match_nodot.
  intros Hin. apply H. rewrite E. apply in_or_app. right. exact Hin.
Qed.

(** [base.fq] and [base.fastq] lose their extension. *)
Lemma sub_fastq_ext base ext :
  In ext [".fq"; ".fastq"] -> base <> [] -> Forall (fun a => a <> newline) base ->
  Re.sub fastq_regex [RGroup 1] (base ++ ext) = base.
Proof.
  intros Hext Hne Hnl.
  destruct (fastq_first_match Hext Hne Hnl) as (c & Hm & Hg).
  unfold Re.sub. remember (base ++ ext) as s eqn:Es.
  destruct s as [|a s'].
  { symmetry in Es. apply app_eq_nil in Es. tauto. }
  cbn [sub_go]. rewrite Hm. cbn [expand flat_map]. rewrite Hg, app_nil_r.
  cbn [length Nat.ltb Nat.leb].
  replace (S (length s') - 0 - 1) with (length s') by lia.
  rewrite sub_go_skip by lia. rewrite skipn_all. cbn [sub_go].
  rewrite fastq_no_match_later by (simpl; lia).
  apply app_nil_r.
Qed.

End ExtensionFacts.

(** The read-type extension is stripped: for a non-empty [base], a file
    [base.fq.gz], [base.fq.bz2], [base.fastq.gz] or [base.fastq.bz2] whose
    [base] has no newline, and a file [base.fq] or [base.fastq] whose
    [base] has no dot, gets the sample name of [base], that is [base]
    without its lane/read markers. *)
Theorem read_extension_stripped :
  forall (d : Path) (base ext : str),
  In ext [".fq"; ".fastq"] ->
  base <> [] ->
  (Forall (fun a => a <> newline) base ->
   forall comp, In comp [".gz"; ".bz2"] ->
   genome_name (child d (base ++ ext ++ comp)) = Re.sub illumina_regex [] base)
  /\ (~ In "."%char base ->
      genome_name (child d (base ++ ext)) = Re.sub illumina_regex [] base).
Proof.
  intros d base ext Hext Hne. split.
  - intros Hnl comp Hcomp. rewrite genome_name_child. f_equal.
    assert (Hst : stem_of (base ++ ext ++ comp) = base ++ ext).
    { rewrite app_assoc.
      destruct Hcomp as [<-|[<-|[]]].
      - apply (@stem_of_suffix (base ++ ext) "gz").
        + intros E. apply app_eq_nil in E. tauto.
        + discriminate.
        + simpl. intros H. repeat (destruct H as [H|H]; [discriminate|]). exact H.
      - apply (@stem_of_suffix (base ++ ext) "bz2").
        + intros E. apply app_eq_nil in E. tauto.
        + discriminate.
        + simpl. intros H. repeat (destruct H as [H|H]; [discriminate|]). exact H. }
    rewrite Hst. apply sub_fastq_ext; assumption.
  - intros Hdot. rewrite genome_name_child. f_equal.
    assert (Hst : stem_of (base ++ ext) = base).
    { destruct Hext as [<-|[<-|[]]].
      - apply (@stem_of_suffix base "fq"); auto; [discriminate|].
        simpl. intros H. repeat (destruct H as [H|H]; [discriminate|]). exact H.
      - apply (@stem_of_suffix base "fastq"); auto; [discriminate|].
        simpl. intros H. repeat (destruct H as [H|H]; [discriminate|]). exact H. }
    rewrite Hst. apply sub_fastq_nodot. exact Hdot.
Qed.

Lemma read_extension_stripped_witness :
  genome_name (child (parse_path "/d") ("my.sample" ++ ".fastq" ++ ".bz2"))
  = Re.sub illumina_regex [] "my.sample"
  /\ genome_name (child (parse_path "/d") ("reads_1" ++ ".fq"))
     = Re.sub illumina_regex [] "reads_1".
Proof.
  split.
  - apply (proj1 (@read_extension_stripped (parse_path "/d") "my.sample" ".fastq"
                    (or_intror (or_introl eq_refl))
                    ltac:(discriminate))).
    + repeat constructor; discriminate.
    + right. left. reflexivity.
  - apply (proj2 (@read_extension_stripped (parse_path "/d") "reads_1" ".fq"
                    (or_introl eq_refl) ltac:(discriminate))).
    simpl. intros H. repeat (destruct H as [H|H]; [discriminate|]). exact H.
Defined.

(** ** The marker at the end of a name *)

Section MarkerAtEnd.

Import Re.

Lemma illumina_regex_tail :
  illumina_regex = Cat (text "_S") (Cat (Plus (Chr CAny)) illumina_tail).
Proof. reflexivity. Qed.

Lemma illumina_tail_eq :
  illumina_tail
  = Cat (text "_L")
        (Cat (Star (Chr CDigit))
             (Cat (text "1_R")
                  (Cat (Plus (Chr CDigit)) (Cat (text "_001") Eps)))).
Proof. reflexivity. Qed.

Lemma run_text_ok n0 t : forall s c, run n0 (text t) (t ++ s) c = [(s, c)].
Proof.
  induction t as [|a t IH]; intros s c; [reflexivity|].
  cbn [text app]. rewrite run_cat. cbn [run class_mem].
  rewrite Ascii.eqb_refl. cbn [flat_map fst snd]. rewrite IH. reflexivity.
Qed.

Lemma run_text_fail n0 t : forall s c,
  startswith t s = false -> run n0 (text t) s c = [].
Proof.
  induction t as [|a t IH]; intros s c H; [discriminate|].
  cbn [text]. rewrite run_cat. destruct s as [|b s]; [reflexivity|].
  cbn [run class_mem]. cbn [startswith] in H.
  rewrite (Ascii.eqb_sym b a).
  destruct (Ascii.eqb a b); [|reflexivity].
  cbn [flat_map fst snd]. rewrite IH by exact H. reflexivity.
Qed.

Lemma run_chr_cons n0 p a s c :
  class_mem p a = true -> run n0 (Chr p) (a :: s) c = [(s, c)].
Proof. intros H. cbn [run]. rewrite H. reflexivity. Qed.

Lemma run_chr_stop n0 p t c :
  match t with [] => True | a :: _ => class_mem p a = false end ->
  run n0 (Chr p) t c = [].
Proof.
  intros H. destruct t as [|a t]; [reflexivity|]. cbn [run]. rewrite H. reflexivity.
Qed.

(** A greedy repetition of a class over a prefix made of that class first
    tries everything it tries on the rest alone. *)
Lemma star_class_prefix n0 p w : Forall (fun a => class_mem p a = true) w ->
  forall t c fuel, length (w ++ t) <= fuel ->
  exists L, star_go (run n0 (Chr p)) fuel (w ++ t) c
            = star_go (run n0 (Chr p)) fuel t c ++ L.
Proof.
  induction 1 as [|a w Ha Hw IH]; intros t c fuel Hf.
  - exists []. rewrite app_nil_r. reflexivity.
  - destruct fuel as [|f]; [simpl in Hf; lia|].
    cbn [app] in *. cbn [length] in Hf.
    destruct (IH t c f) as [L HL]; [lia|].
    exists (L ++ [(a :: w ++ t, c)]).
    cbn [star_go]. rewrite (@run_chr_cons n0 p a (w ++ t) c Ha).
    cbn [flat_map fst snd].
    replace (length (w ++ t) <? length (a :: w ++ t)) with true
      by (symmetry; apply Nat.ltb_lt; simpl; lia).
    rewrite app_nil_r, HL.
    rewrite (@star_go_fuel (run n0 (Chr p)) f (S f) t c).
    + rewrite <- app_assoc. reflexivity.
    + rewrite length_app in Hf. lia.
    + rewrite length_app in Hf. lia.
Qed.

(** Where the class does not continue the repetition stops. *)
Lemma star_class_stop n0 p t c fuel :
  match t with [] => True | a :: _ => class_mem p a = false end ->
  star_go (run n0 (Chr p)) fuel t c = [(t, c)].
Proof.
  intros H. destruct fuel as [|f]; [reflexivity|].
  cbn [star_go]. rewrite run_chr_stop by exact H. reflexivity.
Qed.

Lemma hd_error_app_cons {A} (x : A) l L : hd_error ((x :: l) ++ L) = Some x.
Proof. reflexivity. Qed.

Lemma digits_any w : Forall (fun a => is_digit a = true) w ->
  Forall (fun a => class_mem CAny a = true) w.
Proof.
  intros H. eapply Forall_impl; [|exact H]. intros a Ha. apply any_mem.
  intros ->. discriminate.
Qed.

Lemma star_go_S step f s c :
  star_go step (S f) s c
  = flat_map (fun x => if length (fst x) <? length s
                       then star_go step f (fst x) (snd x) else [])
             (step s c)
    ++ [(s, c)].
Proof. reflexivity. Qed.

Lemma star_class_step n0 p a t c fuel :
  class_mem p a = true -> length (a :: t) <= fuel ->
  star_go (run n0 (Chr p)) fuel (a :: t) c
  = star_go (run n0 (Chr p)) fuel t c ++ [(a :: t, c)].
Proof.
  intros Ha Hf. destruct fuel as [|f]; [simpl in Hf; lia|].
  rewrite (star_go_S (run n0 (Chr p)) f (a :: t) c).
  rewrite (@run_chr_cons n0 p a t c Ha).
  cbn [flat_map fst snd].
  replace (length t <? length (a :: t)) with true
    by (symmetry; apply Nat.ltb_lt; simpl; lia).
  rewrite app_nil_r.
  rewrite (@star_go_fuel (run n0 (Chr p)) f (S f) t c); [reflexivity| |];
    simpl in Hf; lia.
Qed.

(** On [_L<l>1_R<d>_001] the first match of the tail takes it all. *)
Lemma illumina_tail_match n0 l d c :
  Forall (fun a => is_digit a = true) l ->
  d <> [] -> Forall (fun a => is_digit a = true) d ->
  hd_error (run n0 illumina_tail ("_L" ++ l ++ "1_R" ++ d ++ "_001") c)
  = Some ([], c).
Proof.
  intros Hl Hne Hd. rewrite illumina_tail_eq.
  rewrite run_cat, run_text_ok. cbn [flat_map fst snd]. rewrite app_nil_r.
  rewrite run_cat, run_star. cbn [app].
  set (t := "_"%char :: "R"%char :: d ++ "_001").
  set (fuel := length (l ++ "1"%char :: t)).
  destruct (@star_class_prefix n0 CDigit l Hl ("1"%char :: t) c fuel (le_n _))
    as [L1 HL1].
  rewrite HL1.
  rewrite (@star_class_step n0 CDigit "1" t c fuel eq_refl)
    by (unfold fuel; rewrite length_app; lia).
  rewrite star_class_stop by reflexivity.
  cbn [app flat_map fst snd].
  rewrite (run_cat n0 (text "1_R")).
  rewrite (@run_text_fail n0 "1_R" t c eq_refl). cbn [flat_map app].
  rewrite (run_cat n0 (text "1_R")).
  change ("1"%char :: t) with ("1_R" ++ (d ++ "_001")).
  rewrite run_text_ok. cbn [flat_map fst snd]. rewrite app_nil_r.
  rewrite run_cat. unfold Plus. rewrite run_cat.
  destruct d as [|d0 d']; [congruence|].
  inversion Hd as [|? ? Hd0 Hd']; subst.
  cbn [app]. rewrite (@run_chr_cons n0 CDigit d0 (d' ++ "_001") c Hd0).
  cbn [flat_map fst snd]. rewrite app_nil_r, run_star.
  destruct (@star_class_prefix n0 CDigit d' Hd' "_001" c
              (length (d' ++ "_001")) (le_n _)) as [L3 HL3].
  rewrite HL3, star_class_stop by reflexivity.
  cbn [app flat_map fst snd].
  rewrite (run_cat n0 (text "_001") Eps), (run_text_ok n0 "_001" []).
  reflexivity.
Qed.

Lemma suffix_cons {A} (a : A) t pre u :
  a :: t = pre ++ u -> u = a :: t \/ exists p, t = p ++ u.
Proof.
  destruct pre as [|b pre]; simpl; intros H; [left; symmetry; exact H|].
  right. injection H as _ H. eauto.
Qed.

Lemma suffix_app {A} (w : list A) : forall v pre u,
  w ++ v = pre ++ u ->
  (exists b w', u = (b :: w') ++ v /\ exists p, w = p ++ b :: w')
  \/ (exists p, v = p ++ u).
Proof.
  induction w as [|a w IH]; intros v pre u H.
  - right. eauto.
  - destruct pre as [|b pre]; simpl in H.
    + left. exists a, w. split; [symmetry; exact H|]. exists []. reflexivity.
    + injection H as _ H. destruct (IH _ _ _ H) as [(c & w' & E & p & Hp)|R].
      * left. exists c, w'. split; [exact E|]. exists (a :: p). simpl. congruence.
      * right. exact R.
Qed.

Lemma digit_head_no_L b u : is_digit b = true -> startswith "_L" (b :: u) = false.
Proof.
  intros H. cbn [startswith].
  destruct (Ascii.eqb "_" b) eqn:E; [|reflexivity].
  apply Ascii.eqb_eq in E. subst b. discriminate.
Qed.

(** Behind the [_] of [_L<l>1_R<d>_001] no [_L] starts. *)
Lemma no_L_inside l d pre u :
  Forall (fun a => is_digit a = true) l -> Forall (fun a => is_digit a = true) d ->
  "L" ++ l ++ "1_R" ++ d ++ "_001" = pre ++ u -> startswith "_L" u = false.
Proof.
  intros Hl Hd H. cbn [app] in H.
  apply suffix_cons in H. destruct H as [->|[p H]]; [reflexivity|].
  apply suffix_app in H. destruct H as [(b & w' & -> & q & Hq)|[p' H]].
  { apply digit_head_no_L. rewrite Forall_forall in Hl. apply Hl.
    rewrite Hq. apply in_or_app. right. left. reflexivity. }
  apply suffix_cons in H. destruct H as [->|[p1 H]]; [reflexivity|].
  apply suffix_cons in H. destruct H as [->|[p2 H]]; [reflexivity|].
  apply suffix_cons in H. destruct H as [->|[p3 H]]; [reflexivity|].
  apply suffix_app in H. destruct H as [(b & w' & -> & q & Hq)|[p4 H]].
  { apply digit_head_no_L. rewrite Forall_forall in Hd. apply Hd.
    rewrite Hq. apply in_or_app. right. left. reflexivity. }
  repeat (apply suffix_cons in H; destruct H as [->|[? H]]; [reflexivity|]).
  symmetry in H. apply app_eq_nil in H. destruct H as [_ ->]. reflexivity.
Qed.

Lemma illumina_tail_needs_L n0 u c :
  startswith "_L" u = false -> run n0 illumina_tail u c = [].
Proof.
  intros H. rewrite illumina_tail_eq, run_cat, run_text_fail by exact H.
  reflexivity.
Qed.

Lemma illumina_needs_S n0 u :
  startswith "_S" u = false -> match_here n0 illumina_regex u = None.
Proof.
  intros H. unfold match_here.
  rewrite illumina_regex_tail, run_cat, run_text_fail by exact H.
  reflexivity.
Qed.

Lemma hd_error_app_some {A} (l l' : list A) x :
  hd_error l = Some x -> hd_error (l ++ l') = Some x.
Proof. destruct l; [discriminate|]. simpl. auto. Qed.

(** On a marker that ends the subject the first match takes it all. *)
Lemma illumina_marker_match n0 x l d :
  x <> [] -> Forall (fun a => a <> newline) x ->
  Forall (fun a => is_digit a = true) l ->
  d <> [] -> Forall (fun a => is_digit a = true) d ->
  match_here n0 illumina_regex ("_S" ++ x ++ "_L" ++ l ++ "1_R" ++ d ++ "_001")
  = Some ([], []).
Proof.
  intros Hx Hnl Hl Hd Hdd. unfold match_here.
  rewrite illumina_regex_tail, run_cat, run_text_ok.
  cbn [flat_map fst snd]. rewrite app_nil_r.
  rewrite run_cat. unfold Plus. rewrite run_cat.
  destruct x as [|x0 x']; [congruence|].
  inversion Hnl as [|? ? Hx0 Hx']; subst.
  cbn [app].
  rewrite (@run_chr_cons n0 CAny x0 _ [] (proj2 (any_mem x0) Hx0)).
  cbn [flat_map fst snd]. rewrite app_nil_r, run_star.
  set (tL := "L"%char :: l ++ "1"%char :: "_"%char :: "R"%char :: d ++ "_001").
  set (fuel := length (x' ++ "_"%char :: tL)).
  destruct (@star_class_prefix n0 CAny x' (proj2 (Forall_any x') Hx')
              ("_"%char :: tL) [] fuel (le_n _)) as [L HL].
  rewrite HL.
  rewrite (@star_class_step n0 CAny "_" tL [] fuel eq_refl)
    by (unfold fuel; rewrite length_app; lia).
  rewrite <- !app_assoc, flat_map_app.
  rewrite (@flat_map_none _ _ _ (star_go (run n0 (Chr CAny)) fuel tL [])).
  - cbn [app flat_map fst snd]. apply hd_error_app_some.
    apply (@illumina_tail_match n0 l d [] Hl Hd Hdd).
  - intros y Hy. apply illumina_tail_needs_L.
    apply star_go_sound with (r := Chr CAny) in Hy.
    + destruct Hy as [w [E _]]. apply (@no_L_inside l d w (fst y) Hl Hdd). exact E.
    + intros s c z Hz. apply (run_sound n0 (Chr CAny) eq_refl s c z Hz).
Qed.

(** A match that takes the whole subject leaves only its replacement. *)
Lemma sub_go_match_all r tpl n0 a s c :
  match_here n0 r (a :: s) = Some ([], c) ->
  match_here n0 r [] = None ->
  sub_go r tpl n0 (a :: s) 0 = expand tpl c.
Proof.
  intros Hm Hn.
  change (sub_go r tpl n0 (a :: s) 0)
    with (match match_here n0 r (a :: s) with
          | Some (s1, c) =>
              expand tpl c ++
              (if length s1 <? length (a :: s)
               then sub_go r tpl n0 s (length (a :: s) - length s1 - 1)
               else a :: sub_go r tpl n0 s 0)
          | None => a :: sub_go r tpl n0 s 0
          end).
  rewrite Hm. cbn [length Nat.ltb Nat.leb].
  rewrite sub_go_skip by lia.
  rewrite skipn_all2 by lia.
  cbn [sub_go]. rewrite Hn. apply app_nil_r.
Qed.

Lemma sub_go_keep_prefix r tpl n0 pre rest :
  (forall a b, pre = a ++ b -> b <> [] -> match_here n0 r (b ++ rest) = None) ->
  sub_go r tpl n0 (pre ++ rest) 0 = pre ++ sub_go r tpl n0 rest 0.
Proof.
  induction pre as [|p pre IH]; intros H; [reflexivity|].
  assert (H0 : match_here n0 r ((p :: pre) ++ rest) = None)
    by (apply (H [] (p :: pre) eq_refl); discriminate).
  cbn [app] in H0. cbn [app sub_go]. rewrite H0.
  f_equal. apply IH. intros a b E Hb.
  apply (H (p :: a) b); [simpl; rewrite E; reflexivity|exact Hb].
Qed.

(** Before a marker, and without [_S], nothing starts a match. *)
Lemma no_S_before pre rest b a :
  (forall u v, pre <> u ++ "_S" ++ v) ->
  pre = a ++ b -> b <> [] -> startswith "_S" (b ++ "_"%char :: rest) = false.
Proof.
  intros Hfree E Hb. destruct b as [|b0 b']; [congruence|].
  cbn [app startswith].
  destruct (Ascii.eqb "_" b0) eqn:E0; [|reflexivity].
  apply Ascii.eqb_eq in E0. subst b0.
  destruct b' as [|b1 b'']; [reflexivity|].
  cbn [app startswith].
  destruct (Ascii.eqb "S" b1) eqn:E1; [|reflexivity].
  apply Ascii.eqb_eq in E1. subst b1.
  exfalso. apply (Hfree a b''). rewrite E. reflexivity.
Qed.

Lemma sub_marker_at_end pre x l d :
  (forall u v, pre <> u ++ "_S" ++ v) ->
  x <> [] -> Forall (fun a => a <> newline) x ->
  Forall (fun a => is_digit a = true) l ->
  d <> [] -> Forall (fun a => is_digit a = true) d ->
  Re.sub illumina_regex [] (pre ++ "_S" ++ x ++ "_L" ++ l ++ "1_R" ++ d ++ "_001")
  = pre.
Proof.
  intros Hfree Hx Hnl Hl Hd Hdd. unfold Re.sub.
  set (n0 := length (pre ++ "_S" ++ x ++ "_L" ++ l ++ "1_R" ++ d ++ "_001")).
  rewrite sub_go_keep_prefix.
  - pose proof (@illumina_marker_match n0 x l d Hx Hnl Hl Hd Hdd) as Hm.
    cbn [app] in Hm |- *.
    rewrite (@sub_go_match_all illumina_regex [] n0 _ _ [] Hm
               (@illumina_needs_S n0 [] eq_refl)).
    apply app_nil_r.
  - intros a b E Hb. apply illumina_needs_S.
    apply (@no_S_before pre _ b a Hfree E Hb).
Qed.

End MarkerAtEnd.

Lemma contains_occurrence n u v : contains n (u ++ n ++ v) = true.
Proof.
  induction u as [|a u IH].
  - cbn [app]. destruct (n ++ v) eqn:E; cbn [contains];
      rewrite <- E, (proj2 (startswith_iff n (n ++ v))) by eauto; reflexivity.
  - cbn [app contains]. rewrite IH. apply orb_true_r.
Qed.

(** A name that ends with a marker and has no [_S] before it derives to
    the text before the marker; so the files [<pre><marker>.fq.gz] (or
    [.fastq.gz], [.fq.bz2], [.fastq.bz2]) of one directory that differ only
    inside the marker, such as [R1] and [R2], get the same sample name
    [pre]. *)
Theorem marker_at_end_stripped :
  forall (pre x l d : str),
  contains "_S" pre = false ->
  x <> [] -> Forall (fun a => a <> newline) x ->
  Forall (fun a => is_digit a = true) l ->
  d <> [] -> Forall (fun a => is_digit a = true) d ->
  Re.sub illumina_regex [] (pre ++ "_S" ++ x ++ "_L" ++ l ++ "1_R" ++ d ++ "_001")
  = pre
  /\ (Forall (fun a => a <> newline) pre ->
      forall (dir : Path) (ext comp : str),
      In ext [".fq"; ".fastq"] -> In comp [".gz"; ".bz2"] ->
      genome_name
        (child dir ((pre ++ "_S" ++ x ++ "_L" ++ l ++ "1_R" ++ d ++ "_001")
                    ++ ext ++ comp))
      = pre).
Proof.
  intros pre x l d Hc Hx Hnl Hl Hd Hdd.
  assert (Hfree : forall u v, pre <> u ++ "_S" ++ v).
  { intros u v E. rewrite E, contains_occurrence in Hc. discriminate. }
  pose proof (sub_marker_at_end Hfree Hx Hnl Hl Hd Hdd) as Hsub.
  split; [exact Hsub|].
  intros Hpre dir ext comp Hext Hcomp.
  set (base := pre ++ "_S" ++ x ++ "_L" ++ l ++ "1_R" ++ d ++ "_001") in *.
  assert (Hbne : base <> [])
    by (unfold base; intros E; apply app_eq_nil in E; destruct E; discriminate).
  assert (Hbnl : Forall (fun a => a <> newline) base).
  { unfold base. apply Forall_app. split; [exact Hpre|].
    repeat (apply Forall_app; split); auto;
      try (repeat constructor; discriminate);
      try (eapply Forall_impl; [|eassumption]; intros a Ha ->; discriminate). }
  rewrite genome_name_child.
  assert (Hst : stem_of (base ++ ext ++ comp) = base ++ ext).
  { rewrite app_assoc.
    destruct Hcomp as [<-|[<-|[]]].
    - apply (@stem_of_suffix (base ++ ext) "gz").
      + intros E. apply app_eq_nil in E. tauto.
      + discriminate.
      + simpl. intros H. repeat (destruct H as [H|H]; [discriminate|]). exact H.
    - apply (@stem_of_suffix (base ++ ext) "bz2").
      + intros E. apply app_eq_nil in E. tauto.
      + discriminate.
      + simpl. intros H. repeat (destruct H as [H|H]; [discriminate|]). exact H. }
  rewrite Hst, (sub_fastq_ext Hext Hbne Hbnl). exact Hsub.
Qed.

Lemma marker_at_end_stripped_witness :
  Re.sub illumina_regex [] ("sample" ++ "_S" ++ "1_x" ++ "_L" ++ "00" ++ "1_R" ++ "2" ++ "_001")
  = "sample"
  /\ genome_name
       (child (parse_path "/d")
              (("sample" ++ "_S" ++ "1_x" ++ "_L" ++ "00" ++ "1_R" ++ "2" ++ "_001")
               ++ ".fastq" ++ ".gz"))
     = "sample".
Proof.
  assert (Hx : Forall (fun a => a <> newline) ("1_x" : str))
    by (repeat constructor; discriminate).
  assert (Hl : Forall (fun a => is_digit a = true) ("00" : str))
    by (repeat constructor).
  assert (Hd : Forall (fun a => is_digit a = true) ("2" : str))
    by (repeat constructor).
  assert (Hp : Forall (fun a => a <> newline) ("sample" : str))
    by (repeat constructor; discriminate).
  destruct (@marker_at_end_stripped "sample" "1_x" "00" "2" eq_refl
              ltac:(discriminate) Hx Hl ltac:(discriminate) Hd) as [H1 H2].
  split; [exact H1|].
  apply (H2 Hp (parse_path "/d") ".fastq" ".gz").
  - right. left. reflexivity.
  - left. reflexivity.
Defined.

Lemma marker_free_unchanged_witness :
  Re.sub illumina_regex [] "reads_1" = ("reads_1" : str) /\ ~ marker "ds_".
Proof.
  split; [reflexivity|].
  apply (proj1 (@marker_free_unchanged "reads_1" eq_refl) eq_refl
                "rea" "ds_" "1").
  reflexivity.
Defined.
